(** * A shallow embedding of the falling-block game simulation

    The development follows the full variant of the script, the one
    with the constants [COLS] and [ROWS], the 7-bag queue, hold, hard
    drop, lock delay and scoring.  Each JavaScript function is
    transcribed as a Rocq function of the same name over an explicit
    game state; loops with early exits become structural recursions
    that visit the same indices in the same order.  The script declares
    two functions more than once, and each is transcribed as the script
    binds it.  [spawnPlayer] is the function [finalizeSetup] assigns to
    the name.  [refillQueue] is declared with the 7-bag at lines 212-220
    and again, with an empty body, at line 726; a later function
    declaration of a script replaces an earlier one before any
    statement runs, so every call [refillQueue()] reaches the empty
    body.  The first declaration is kept in [Shadowed].  Of the two
    smaller variants of the script in the repository (no bag, no lock
    delay, no score) only the collision test and the row sweeps are
    transcribed, in [Legacy], to compare them.  Drawing and sound have
    no effect on the state and are left out.

    Conventions.
    - A cell value is a JavaScript number, modelled as [Z]; [0] is the
      empty cell, and a value is "truthy" exactly when it is not [0].
    - A matrix (board or shape) is a list of rows.  Reading [m[y][x]]
      outside a row yields [undefined], modelled as [None].
    - Times and the gravity setting are JavaScript numbers, IEEE 754
      doubles, modelled by Rocq's primitive floats, which are the same
      doubles with the same rounding.  A comparison with [NaN] is false,
      as in JavaScript.
    - [player.pos.y] only ever receives integer updates ([-1], [+= 1],
      [-= 1], [+= drop]), so it is a [Z] and [Math.floor]/[Math.round]
      act as the identity on it. *)

From Stdlib Require Import ZArith QArith Qround Lia Lqa Floats.
From stdpp Require Import base list.

Open Scope Z_scope.

(** ** Constants *)

Definition COLS : Z := 12.
Definition ROWS : Z := 20.
Definition QUEUE_SIZE : nat := 5.
Definition DAS_DELAY : float := 160.
Definition ARR : float := 60.
Definition LOCK_DELAY : float := 500.
Definition SOFT_DROP_MULT : float := 20.

Abbreviation Matrix := (list (list Z)).

(** ** Reading matrices the way JavaScript does *)

Module Js.

(** [m[y][x]] for loop counters [y], [x]; [None] is [undefined]. *)
Definition at2 (m : Matrix) (y x : nat) : option Z :=
  match m !! y with
  | Some row => row !! x
  | None => None
  end.

(** [arena[ay][ax]] for integer coordinates.  The board always has
    [ROWS] rows of [COLS] cells and every read in the program is guarded
    by [0 <= ay < ROWS] and [0 <= ax < COLS], so the read is in range;
    outside that range the model answers [undefined]. *)
Definition cell (arena : Matrix) (ay ax : Z) : option Z :=
  if (0 <=? ay) && (0 <=? ax) then at2 arena (Z.to_nat ay) (Z.to_nat ax)
  else None.

(** Truthiness of a cell read: [undefined] and [0] are falsy. *)
Definition truthy (v : option Z) : bool :=
  match v with
  | Some n => negb (n =? 0)
  | None => false
  end.

(** [Math.floor] and [Math.round] on the integer-valued row. *)
Definition Math_floor (y : Z) : Z := y.
Definition Math_round (y : Z) : Z := y.

End Js.

(** ** Board invariants *)

(** What [createMatrix(COLS, ROWS)] builds. *)
Definition createMatrix (w h : Z) : Matrix :=
  replicate (Z.to_nat h) (replicate (Z.to_nat w) 0).

Definition wf_arena (arena : Matrix) : Prop :=
  length arena = Z.to_nat ROWS /\
  Forall (fun row => length row = Z.to_nat COLS) arena.

(** A shape cell is occupied when it holds a truthy value. *)
Definition occupied (m : Matrix) (y x : nat) : Prop :=
  exists v, Js.at2 m y x = Some v /\ v <> 0.

(** A board cell is non-empty when it holds a piece identifier. *)
Definition filled (arena : Matrix) (ay ax : Z) : Prop :=
  exists v, Js.cell arena ay ax = Some v /\ v <> 0.

(** ** Collision *)

(** The inner loop of [collide] over one shape row, from column [x]. *)
Fixpoint collide_row (arena : Matrix) (playerX ay : Z) (row : list Z)
    (x : nat) : bool :=
  match row with
  | [] => false
  | v :: row' =>
      if v =? 0 then collide_row arena playerX ay row' (S x)
      else
        let ax := Z.of_nat x + playerX in
        if (ax <? 0) || (ax >=? COLS) || (ay >=? ROWS) then true
        else if (ay >=? 0) && Js.truthy (Js.cell arena ay ax) then true
        else collide_row arena playerX ay row' (S x)
  end.

(** The outer loop of [collide], from shape row [y]. *)
Fixpoint collide_rows (arena : Matrix) (playerX playerY : Z) (m : Matrix)
    (y : nat) : bool :=
  match m with
  | [] => false
  | row :: m' =>
      if collide_row arena playerX (Z.of_nat y + playerY) row 0 then true
      else collide_rows arena playerX playerY m' (S y)
  end.

Definition collide (arena : Matrix) (playerX playerY : Z) (matrix : Matrix)
    : bool :=
  collide_rows arena playerX playerY matrix 0.

(** The condition under which a single occupied cell is a collision. *)
Definition hits (arena : Matrix) (ax ay : Z) : Prop :=
  (ax < 0 \/ COLS <= ax) \/ ROWS <= ay \/ (0 <= ay /\ filled arena ay ax).

(** ** Piece catalogue *)

Inductive Kind : Set := kI | kL | kJ | kO | kT | kS | kZ.

#[global] Instance Kind_eq_dec : EqDecision Kind.
Proof. solve_decision. Defined.

(** The string ["ILJOTSZ"] split into its letters. *)
Definition all_kinds : list Kind := [kI; kL; kJ; kO; kT; kS; kZ].

Definition createPiece (type : Kind) : Matrix :=
  match type with
  | kT => [[0;1;0];[1;1;1];[0;0;0]]
  | kO => [[1;1];[1;1]]
  | kL => [[0;0;1];[1;1;1];[0;0;0]]
  | kJ => [[1;0;0];[1;1;1];[0;0;0]]
  | kI => [[0;0;0;0];[1;1;1;1];[0;0;0;0];[0;0;0;0]]
  | kS => [[0;1;1];[1;1;0];[0;0;0]]
  | kZ => [[1;1;0];[0;1;1];[0;0;0]]
  end.

Definition PIECE_IDS (type : Kind) : Z :=
  match type with
  | kI => 1 | kO => 2 | kT => 3 | kS => 4 | kZ => 5 | kJ => 6 | kL => 7
  end.

(** [Object.keys(PIECE_IDS)[Object.values(PIECE_IDS).indexOf(id)]];
    [None] is [undefined] (no key has that value). *)
Definition kind_of_id (id : Z) : option Kind :=
  if id =? 1 then Some kI else if id =? 2 then Some kO
  else if id =? 3 then Some kT else if id =? 4 then Some kS
  else if id =? 5 then Some kZ else if id =? 6 then Some kJ
  else if id =? 7 then Some kL else None.

(** [if (matrix[y][x]) matrix[y][x] = id] over the whole matrix. *)
Definition stamp (id : Z) (m : Matrix) : Matrix :=
  (fun row : list Z => (fun v => if v =? 0 then v else id) <$> row) <$> m.

(** ** Game state *)

Record Player := mkPlayer {
  pos_x : Z;
  pos_y : Z;
  matrix : option Matrix;   (* [None] is [null] *)
  id : Z
}.

(** A value of [Math.random()]: a number in the range [0, 1). *)
Record Unit01 := mkUnit01 {
  u_val : Q;
  u_range : Qle_bool 0 u_val && negb (Qle_bool 1 u_val) = true
}.

(** The lookahead queue with the bag kept on [refillQueue] itself, and
    the source of randomness: [random n] is the value returned by the
    [n]-th call of [Math.random], [calls] counts the calls made. *)
Record Randomizer := mkRandomizer {
  nextQueue : list Kind;
  bag : option (list Kind);   (* [refillQueue.bag], [None] is [null] *)
  index : nat;                (* [refillQueue.index] *)
  random : nat -> Unit01;
  calls : nat
}.

Record Stats := mkStats {
  score : Z;
  level : Z;
  lines : Z;
  highscore : Z
}.

Record Timing := mkTiming {
  gravityCPS : float;
  soft : bool;                (* [keyState.soft] *)
  dropAccumulator : float;
  lastTime : float;
  lockTimer : float;
  onGround : bool
}.

Record Das := mkDas {
  das_left : bool;
  das_right : bool;
  holdStart : float;
  nextMoveAt : float
}.

Record Game := mkGame {
  arena : Matrix;
  player : Player;
  rand : Randomizer;
  holdPiece : option Kind;
  holdUsed : bool;
  stats : Stats;
  timing : Timing;
  dasState : Das;
  gameOver : bool;
  paused : bool;
  timeouts : list float       (* delays of pending [setTimeout(resetGame)] *)
}.

(** Field updates. *)
Definition set_pos_x (x : Z) (p : Player) : Player :=
  mkPlayer x (pos_y p) (matrix p) (id p).
Definition set_pos_y (y : Z) (p : Player) : Player :=
  mkPlayer (pos_x p) y (matrix p) (id p).
Definition set_matrix (m : option Matrix) (p : Player) : Player :=
  mkPlayer (pos_x p) (pos_y p) m (id p).

Definition set_dropAccumulator (a : float) (t : Timing) : Timing :=
  mkTiming (gravityCPS t) (soft t) a (lastTime t) (lockTimer t) (onGround t).
Definition set_lastTime (a : float) (t : Timing) : Timing :=
  mkTiming (gravityCPS t) (soft t) (dropAccumulator t) a (lockTimer t)
    (onGround t).
Definition set_lock (l : float) (b : bool) (t : Timing) : Timing :=
  mkTiming (gravityCPS t) (soft t) (dropAccumulator t) (lastTime t) l b.
Definition set_soft (b : bool) (t : Timing) : Timing :=
  mkTiming (gravityCPS t) b (dropAccumulator t) (lastTime t) (lockTimer t)
    (onGround t).

Definition set_arena (a : Matrix) (g : Game) : Game :=
  mkGame a (player g) (rand g) (holdPiece g) (holdUsed g) (stats g)
    (timing g) (dasState g) (gameOver g) (paused g) (timeouts g).
Definition set_player (p : Player) (g : Game) : Game :=
  mkGame (arena g) p (rand g) (holdPiece g) (holdUsed g) (stats g)
    (timing g) (dasState g) (gameOver g) (paused g) (timeouts g).
Definition set_rand (r : Randomizer) (g : Game) : Game :=
  mkGame (arena g) (player g) r (holdPiece g) (holdUsed g) (stats g)
    (timing g) (dasState g) (gameOver g) (paused g) (timeouts g).
Definition set_hold (h : option Kind) (u : bool) (g : Game) : Game :=
  mkGame (arena g) (player g) (rand g) h u (stats g)
    (timing g) (dasState g) (gameOver g) (paused g) (timeouts g).
Definition set_stats (s : Stats) (g : Game) : Game :=
  mkGame (arena g) (player g) (rand g) (holdPiece g) (holdUsed g) s
    (timing g) (dasState g) (gameOver g) (paused g) (timeouts g).
Definition set_timing (t : Timing) (g : Game) : Game :=
  mkGame (arena g) (player g) (rand g) (holdPiece g) (holdUsed g) (stats g)
    t (dasState g) (gameOver g) (paused g) (timeouts g).
Definition set_dasState (d : Das) (g : Game) : Game :=
  mkGame (arena g) (player g) (rand g) (holdPiece g) (holdUsed g) (stats g)
    (timing g) d (gameOver g) (paused g) (timeouts g).
Definition set_gameOver (b : bool) (g : Game) : Game :=
  mkGame (arena g) (player g) (rand g) (holdPiece g) (holdUsed g) (stats g)
    (timing g) (dasState g) b (paused g) (timeouts g).
Definition set_paused (b : bool) (g : Game) : Game :=
  mkGame (arena g) (player g) (rand g) (holdPiece g) (holdUsed g) (stats g)
    (timing g) (dasState g) (gameOver g) b (timeouts g).
Definition set_timeouts (l : list float) (g : Game) : Game :=
  mkGame (arena g) (player g) (rand g) (holdPiece g) (holdUsed g) (stats g)
    (timing g) (dasState g) (gameOver g) (paused g) l.

(** ** The 7-bag randomizer *)

(** [[l[i], l[j]] = [l[j], l[i]]] for indices inside the array (the
    shuffle only produces [j <= i < l.length]). *)
Definition swap {A : Type} (l : list A) (i j : nat) : list A :=
  match l !! i, l !! j with
  | Some a, Some b => <[j := a]> (<[i := b]> l)
  | _, _ => l
  end.

(** [Math.floor(Math.random() * n)] at the [c]-th call. *)
Definition random_below (random : nat -> Unit01) (c : nat) (n : nat) : nat :=
  Z.to_nat (Qfloor (u_val (random c) * inject_Z (Z.of_nat n))).

(** The loop of [shuffleBag]: [for (i = bag.length - 1; i > 0; --i)]. *)
Fixpoint shuffle_loop (random : nat -> Unit01) (c : nat) (b : list Kind)
    (i : nat) : list Kind * nat :=
  match i with
  | O => (b, c)
  | S i' =>
      let j := random_below random c (i + 1) in
      shuffle_loop random (S c) (swap b i j) i'
  end.

Definition shuffleBag (random : nat -> Unit01) (c : nat)
    : list Kind * nat :=
  shuffle_loop random c all_kinds (length all_kinds - 1).

(** One iteration of the loop in the first declaration of
    [refillQueue] (lines 212-220): take a fresh bag when there is none
    or it is used up, then push [bag[index++]]. *)
Definition refill_step (r : Randomizer) : Randomizer :=
  let '(b, i, c) :=
    match bag r with
    | Some b =>
        if (length b <=? index r)%nat
        then let '(b', c') := shuffleBag (random r) (calls r) in (b', O, c')
        else (b, index r, calls r)
    | None =>
        let '(b', c') := shuffleBag (random r) (calls r) in (b', O, c')
    end in
  mkRandomizer
    (match b !! i with
     | Some k => nextQueue r ++ [k]
     | None => nextQueue r        (* not reached: [i < length b] *)
     end)
    (Some b) (S i) (random r) c.

(** The first declaration of [refillQueue], lines 212-220:
    [while (nextQueue.length < QUEUE_SIZE)], one iteration per missing
    element.  No call of the script reaches it. *)
Module Shadowed.

Definition refillQueue (r : Randomizer) : Randomizer :=
  Nat.iter (QUEUE_SIZE - length (nextQueue r)) refill_step r.

End Shadowed.

(** [refillQueue] as the script binds it: the declaration of line 726,
    [function refillQueue() { }], which replaces the first one.  It
    pushes nothing; the properties [refillQueue.bag] and
    [refillQueue.index] that the script writes stay where they are. *)
Definition refillQueue (r : Randomizer) : Randomizer := r.

(** ** Rotation *)

(** [m[y][x] = v] inside the matrix. *)
Definition set2 (m : Matrix) (y x : nat) (v : Z) : Matrix :=
  match m !! y with
  | Some row => <[y := <[x := v]> row]> m
  | None => m
  end.

(** [[m[x][y], m[y][x]] = [m[y][x], m[x][y]]].  On a square matrix both
    cells exist; a ragged matrix is outside the model and left alone. *)
Definition swap_cells (m : Matrix) (x y : nat) : Matrix :=
  match Js.at2 m y x, Js.at2 m x y with
  | Some a, Some b => set2 (set2 m x y a) y x b
  | _, _ => m
  end.

(** The two nested loops of [rotateMatrix]. *)
Definition transpose_row (m : Matrix) (y : nat) : Matrix :=
  fold_left (fun m' x => swap_cells m' x y) (seq 0 y) m.

Definition transpose (m : Matrix) : Matrix :=
  fold_left transpose_row (seq 0 (length m)) m.

(** [rotateMatrix(matrix, dir)]: transposition, then every row is
    reversed when [dir > 0], the order of the rows otherwise. *)
Definition rotateMatrix (m : Matrix) (dir : Z) : Matrix :=
  let t := transpose m in
  if 0 <? dir then reverse <$> t else reverse t.

(** ** Merge *)

(** [arena[ay][ax] = v].  [None]: the write falls outside the board (in
    JavaScript a TypeError on a missing row, or a row that grows). *)
Definition write (arena : Matrix) (ay ax : Z) (v : Z) : option Matrix :=
  if (0 <=? ay) && (0 <=? ax) then
    match arena !! Z.to_nat ay with
    | Some row =>
        if (Z.to_nat ax <? length row)%nat
        then Some (<[Z.to_nat ay := <[Z.to_nat ax := v]> row]> arena)
        else None
    | None => None
    end
  else None.

Fixpoint merge_row (arena : Matrix) (posX ay : Z) (row : list Z) (x : nat)
    : option Matrix :=
  match row with
  | [] => Some arena
  | v :: row' =>
      if v =? 0 then merge_row arena posX ay row' (S x)
      else
        let ax := Z.of_nat x + posX in
        if (ay >=? 0) && (ay <? ROWS) && (ax >=? 0) && (ax <? COLS)
        then arena' ← write arena ay ax v;
             merge_row arena' posX ay row' (S x)
        else merge_row arena posX ay row' (S x)
  end.

Fixpoint merge_rows (arena : Matrix) (posX posY : Z) (m : Matrix) (y : nat)
    : option Matrix :=
  match m with
  | [] => Some arena
  | row :: m' =>
      arena' ← merge_row arena posX (Z.of_nat y + posY) row 0;
      merge_rows arena' posX posY m' (S y)
  end.

(** [mergeToArena()]; [None] is the TypeError of reading
    [player.matrix.length] on [null], or a write outside the board. *)
Definition mergeToArena (g : Game) : option Game :=
  match matrix (player g) with
  | None => None
  | Some m =>
      arena' ← merge_rows (arena g) (pos_x (player g))
                 (Js.Math_floor (pos_y (player g))) m 0;
      Some (set_arena arena' g)
  end.

(** ** Sweep and score *)

(** The inner loop of [sweep]: no [x < COLS] has [arena[y][x] === 0]. *)
Definition row_full (row : list Z) : bool :=
  forallb (fun x => match row !! x with
                    | Some v => negb (v =? 0)
                    | None => true
                    end)
          (seq 0 (Z.to_nat COLS)).

(** The labelled loop of [sweep] at row index [y] with [cleared] rows
    removed so far.  [None]: [arena[y]] is [undefined] (TypeError), or
    the iteration bound of the model is exhausted. *)
Fixpoint sweep_loop (fuel : nat) (arena : Matrix) (y : Z) (cleared : Z)
    : option (Matrix * Z) :=
  match fuel with
  | O => None
  | S fuel' =>
      if y >=? 0 then
        match arena !! Z.to_nat y with
        | None => None
        | Some row =>
            if row_full row then
              (* splice(y, 1); unshift(fresh row); cleared++; y++; --y *)
              sweep_loop fuel'
                (replicate (Z.to_nat COLS) 0 :: delete (Z.to_nat y) arena)
                (y + 1 - 1) (cleared + 1)
            else sweep_loop fuel' arena (y - 1) cleared
        end
      else Some (arena, cleared)
  end.

(** Every iteration either moves up a row or removes a full row, so
    twice the height of the board plus the final test bounds the loop. *)
Definition sweep_rows (arena : Matrix) : option (Matrix * Z) :=
  sweep_loop (S (2 * Z.to_nat ROWS)) arena (ROWS - 1) 0.

(** [lineScores[cleared] || 0]. *)
Definition lineScores : list Z := [0; 40; 100; 300; 1200].

Definition line_score (cleared : Z) : Z :=
  if cleared <? 0 then 0 else nth (Z.to_nat cleared) lineScores 0.

(** The scoring block of [sweep], run when [cleared > 0]. *)
Definition award (cleared : Z) (s : Stats) : Stats :=
  let score' := score s + line_score cleared * (level s + 1) in
  let lines' := lines s + cleared in
  let level' := lines' / 10 in
  mkStats score' level' lines'
    (if highscore s <? score' then score' else highscore s).

(** [sweep()].  The function has no return statement: the count of its
    loop goes to the scoring block and, through it, into the lines. *)
Definition sweep (g : Game) : option Game :=
  match sweep_rows (arena g) with
  | None => None
  | Some (arena', cleared) =>
      let g' := set_arena arena' g in
      Some (if cleared >? 0 then set_stats (award cleared (stats g)) g'
            else g')
  end.

(** ** Player lifecycle *)

Definition set_queue (q : list Kind) (r : Randomizer) : Randomizer :=
  mkRandomizer q (bag r) (index r) (random r) (calls r).

(** [spawnPlayer()] as installed by [finalizeSetup].  [None] is a
    TypeError: on an empty queue [nextQueue.shift()] gives [undefined],
    [createPiece(undefined)] gives [null], and reading [matrix.length]
    throws before anything is written; or the shape has no first row.
    Every identifier is truthy, so [PIECE_IDS[type] || 1] is
    [PIECE_IDS[type]]. *)
Definition spawnPlayer (g : Game) : option Game :=
  let r1 := refillQueue (rand g) in
  match nextQueue r1 with
  | [] => None
  | type :: q =>
      let r2 := refillQueue (set_queue q r1) in
      let id := PIECE_IDS type in
      let matrix := stamp id (createPiece type) in
      match matrix with
      | [] => None
      | row0 :: _ =>
          let x := COLS / 2 - Z.of_nat (length row0) / 2 in
          let y := -1 in
          let g1 :=
            set_timing (set_lock 0 false (timing g))
              (set_hold (holdPiece g) false
                 (set_player (mkPlayer x y (Some matrix) id)
                    (set_rand r2 g))) in
          if collide (arena g1) x (Js.Math_floor y) matrix
          then Some (set_timeouts (timeouts g1 ++ [800%float])
                       (set_gameOver true g1))
          else Some g1
      end
  end.

(** The scan of [hardDrop] and [computeGhostY]:
    [while (!collide(..., y + drop + 1, ...)) drop++].  [None]: the
    iteration bound is exhausted (a shape without an occupied cell never
    collides and the scan does not end). *)
Fixpoint drop_scan (fuel : nat) (arena : Matrix) (x y : Z) (m : Matrix)
    (drop : Z) : option Z :=
  match fuel with
  | O => None
  | S fuel' =>
      if collide arena x (Js.Math_floor (y + drop + 1)) m then Some drop
      else drop_scan fuel' arena x y m (drop + 1)
  end.

(** The scan from [drop = 0].  A shape with an occupied cell collides
    once that cell is under the floor, which bounds the scan by the
    rows between the piece and the floor. *)
Definition landing_drop (arena : Matrix) (x y : Z) (m : Matrix) : option Z :=
  drop_scan (S (Z.to_nat (ROWS - y))) arena x y m 0.

(** [hardDrop()]. *)
Definition hardDrop (g : Game) : option Game :=
  match matrix (player g) with
  | None => Some g
  | Some m =>
      if gameOver g || paused g then Some g
      else
        match landing_drop (arena g) (pos_x (player g)) (pos_y (player g)) m
        with
        | None => None
        | Some drop =>
            let g1 := set_player
                        (set_pos_y (pos_y (player g) + drop) (player g)) g in
            g2 ← mergeToArena g1;
            g3 ← sweep g2;
            g4 ← spawnPlayer g3;
            Some (set_timing (set_dropAccumulator 0 (timing g4)) g4)
        end
  end.

(** [moveOnce(dir)]. *)
Definition moveOnce (dir : Z) (g : Game) : Game :=
  match matrix (player g) with
  | None => g
  | Some m =>
      if paused g || gameOver g then g
      else
        let x' := pos_x (player g) + dir in
        if collide (arena g) x' (Js.Math_floor (pos_y (player g))) m
        then set_player (set_pos_x (x' - dir) (set_pos_x x' (player g))) g
        else set_timing (set_lock 0 false (timing g))
               (set_player (set_pos_x x' (player g)) g)
  end.

(** The offsets [rotatePlayer] tries, in this order. *)
Definition kicks : list Z := [0; 1; -1; 2; -2].

(** The loop of [rotatePlayer] over the remaining kick offsets; the
    result is the accepted column. *)
Fixpoint try_kicks (arena : Matrix) (originalX y : Z) (m : Matrix)
    (ks : list Z) : option Z :=
  match ks with
  | [] => None
  | k :: ks' =>
      let x := originalX + k in
      if negb (collide arena x (Js.Math_round y) m) then Some x
      else try_kicks arena originalX y m ks'
  end.

(** [rotatePlayer(dir)].  A failed attempt puts back the copy [old] of
    the shape and the column. *)
Definition rotatePlayer (dir : Z) (g : Game) : Game :=
  match matrix (player g) with
  | None => g
  | Some old =>
      let rotated := rotateMatrix old dir in
      let originalX := pos_x (player g) in
      match try_kicks (arena g) originalX (pos_y (player g)) rotated kicks
      with
      | Some x =>
          set_timing (set_lock 0 false (timing g))
            (set_player (mkPlayer x (pos_y (player g)) (Some rotated)
                           (id (player g))) g)
      | None =>
          set_player (mkPlayer originalX (pos_y (player g)) (Some old)
                        (id (player g))) g
      end
  end.

(** [holdSwap()]; the held kind is recovered from [player.id]. *)
Definition holdSwap (g : Game) : option Game :=
  match matrix (player g) with
  | None => Some g
  | Some _ =>
      if holdUsed g || gameOver g || paused g then Some g
      else
        match holdPiece g with
        | None =>
            match kind_of_id (id (player g)) with
            | None =>
                (* [holdPiece] stays [undefined]; the piece respawns *)
                g1 ← spawnPlayer g;
                Some (set_hold None true g1)
            | Some cur =>
                g1 ← spawnPlayer (set_hold (Some cur) (holdUsed g) g);
                Some (set_hold (Some cur) true g1)
            end
        | Some holdType =>
            let matrix := stamp (PIECE_IDS holdType) (createPiece holdType) in
            match matrix with
            | [] => None
            | row0 :: _ =>
                let x := COLS / 2 - Z.of_nat (length row0) / 2 in
                Some (set_hold (kind_of_id (id (player g))) true
                        (set_player
                           (mkPlayer x (-1) (Some matrix)
                              (PIECE_IDS holdType)) g))
            end
        end
  end.

(** ** The frame callback *)

(** [Math.max(a, b)]: [NaN] when an argument is [NaN], and [+0] is
    larger than [-0]. *)
Definition Math_max (a b : float) : float :=
  if is_nan a || is_nan b then nan
  else if (a <? b)%float then b
  else if (b <? a)%float then a
  else if get_sign a then b else a.

(** [!x] for a number: [0], [-0] and [NaN] are falsy. *)
Definition falsy (x : float) : bool := is_zero x || is_nan x.

Definition set_nextMoveAt (t : float) (d : Das) : Das :=
  mkDas (das_left d) (das_right d) (holdStart d) t.

(** [while (dropAccumulator >= msPerCell)].  [None]: the TypeError of
    [collide] on a [null] matrix, or the iteration bound is exhausted. *)
Fixpoint gravity_loop (fuel : nat) (msPerCell : float) (g : Game)
    : option Game :=
  if (msPerCell <=? dropAccumulator (timing g))%float then
    match fuel with
    | O => None
    | S fuel' =>
        let g1 :=
          set_timing
            (set_dropAccumulator (dropAccumulator (timing g) - msPerCell)
               (timing g))
            (set_player (set_pos_y (pos_y (player g) + 1) (player g)) g) in
        match matrix (player g1) with
        | None => None
        | Some m =>
            if collide (arena g1) (pos_x (player g1))
                 (Js.Math_floor (pos_y (player g1))) m
            then
              let g2 := set_player
                          (set_pos_y (pos_y (player g1) - 1) (player g1))
                          g1 in
              Some (if onGround (timing g2) then g2
                    else set_timing (set_lock 0 true (timing g2)) g2)
            else
              gravity_loop fuel' msPerCell
                (set_timing (set_lock 0 false (timing g1)) g1)
        end
    end
  else Some g.

(** [msPerCell] for the current gravity and soft-drop key; [0.001] is
    the double nearest to it. *)
Definition msPerCell (t : Timing) : float :=
  let gravity :=
    if soft t then (gravityCPS t * SOFT_DROP_MULT)%float else gravityCPS t in
  (1000 / Math_max 0x1.0624dd2f1a9fcp-10 gravity)%float.

(** The whole part of a positive finite double, [0] for any other
    number. *)
Definition whole (x : float) : Z :=
  match Prim2SF x with
  | S754_finite false m e => Z.shiftl (Z.pos m) e
  | _ => 0
  end.

(** A bound on the iterations of the loop, when it ends.  A shape with
    a block collides at the latest when that block is under the floor,
    that is within [ROWS - y + 1] iterations.  A shape without a block
    never collides, and the loop is left through the accumulator alone:
    a subtraction that changes the accumulator takes at least half of
    [msPerCell] off it, so the iterations are at most twice the
    quotient of the two (and are without end when the subtraction does
    not change the accumulator). *)
Definition gravity_bound (ms : float) (g : Game) : nat :=
  S (Z.to_nat (ROWS - pos_y (player g)))
  + Z.to_nat (2 * whole (dropAccumulator (timing g) / ms) + 4).

(** The gravity phase: accumulate [delta] and run the loop. *)
Definition gravity_phase (delta : float) (g : Game) : option Game :=
  let ms := msPerCell (timing g) in
  let g1 :=
    set_timing
      (set_dropAccumulator (dropAccumulator (timing g) + delta) (timing g))
      g in
  gravity_loop (gravity_bound ms g1) ms g1.

(** The auto-repeat phase; [now] is [performance.now()]. *)
Definition das_phase (now : float) (g : Game) : Game :=
  let d := dasState g in
  if das_left d || das_right d then
    if (nextMoveAt d <=? now)%float then
      let dir := if das_left d then -1 else 1 in
      let g1 := moveOnce dir g in
      set_dasState (set_nextMoveAt (now + ARR) (dasState g1)) g1
    else g
  else g.

(** The lock: merge, sweep, spawn, then reset the counters. *)
Definition lock_piece (g : Game) : option Game :=
  g1 ← mergeToArena g;
  g2 ← sweep g1;
  g3 ← spawnPlayer g2;
  Some (set_timing
          (set_lock 0 false (set_dropAccumulator 0 (timing g3))) g3).

(** The lock-delay phase. *)
Definition lock_phase (delta : float) (g : Game) : option Game :=
  if onGround (timing g) then
    let g1 :=
      set_timing (set_lock (lockTimer (timing g) + delta) true (timing g))
        g in
    if (LOCK_DELAY <=? lockTimer (timing g1))%float then lock_piece g1
    else Some g1
  else Some (set_timing (set_lock 0 false (timing g)) g).

(** The time since the previous frame, as [update] computes it:
    [if (!lastTime) lastTime = time; delta = time - lastTime]. *)
Definition frame_delta (time : float) (g : Game) : float :=
  let last :=
    if falsy (lastTime (timing g)) then time else lastTime (timing g) in
  (time - last)%float.

(** [update(time)]; rendering has no effect on the state. *)
Definition update (time now : float) (g : Game) : option Game :=
  let delta := frame_delta time g in
  let g0 := set_timing (set_lastTime time (timing g)) g in
  if negb (paused g0) && negb (gameOver g0) then
    g1 ← gravity_phase delta g0;
    lock_phase delta (das_phase now g1)
  else Some g0.

(** ** Game control *)

(** [for (y = 0; y < ROWS; ++y) arena[y].fill(0)]; [None] is the
    TypeError on a board with fewer than [ROWS] rows. *)
Definition clear_arena (arena : Matrix) : option Matrix :=
  if (length arena <? Z.to_nat ROWS)%nat then None
  else Some (map (map (fun _ => 0)) (take (Z.to_nat ROWS) arena)
               ++ drop (Z.to_nat ROWS) arena).

(** [resetGame()]: empty board, empty queue, the bag properties reset,
    the call of [refillQueue] that pushes nothing, zero score, no held
    piece, and a spawn. *)
Definition resetGame (g : Game) : option Game :=
  arena' ← clear_arena (arena g);
  let r := refillQueue
             (mkRandomizer [] None O (random (rand g)) (calls (rand g))) in
  let s := mkStats 0 0 0 (highscore (stats g)) in
  spawnPlayer
    (set_gameOver false
       (set_hold None false
          (set_stats s (set_rand r (set_arena arena' g))))).

(** [refillQueue.bag = null; refillQueue.index = 0]. *)
Definition reset_bag (r : Randomizer) : Randomizer :=
  mkRandomizer (nextQueue r) None O (random r) (calls r).

(** The start of the script: the bag properties are reset and
    [refillQueue] is called three times over (at top level, in
    [finalizeSetup] and in [init]) before [init] spawns the first
    piece. *)
Definition startup (r : Randomizer) : Randomizer :=
  refillQueue (reset_bag (refillQueue (reset_bag (refillQueue (reset_bag r))))).

(** [dasStart(dir)] and [dasStop(dir)]; [now] stands for the two
    readings of [performance.now()] in [dasStart]. *)
Definition dasStart (left : bool) (now : float) (g : Game) : Game :=
  let d := dasState g in
  set_dasState
    (mkDas (if left then true else das_left d)
       (if left then das_right d else true) now (now + DAS_DELAY)%float) g.

Definition dasStop (left : bool) (g : Game) : Game :=
  let d := dasState g in
  set_dasState
    (mkDas (if left then false else das_left d)
       (if left then das_right d else false) 0 0) g.

(** What the browser delivers to the program: key presses, a click on
    the restart button, animation frames and the reset timer. *)
Inductive Event :=
| KeyDownLeft (now : float)
| KeyDownRight (now : float)
| KeyUpLeft
| KeyUpRight
| KeyDownSoft
| KeyUpSoft
| KeyRotate
| KeyHardDrop
| KeyHold
| KeyPause
| KeyEscape
| ClickRestart
| Frame (time now : float)
| TimerFires.

(** One handler run.  [TimerFires] is the callback of the oldest
    pending [setTimeout(resetGame, 800)]. *)
Definition step (e : Event) (g : Game) : option Game :=
  match e with
  | KeyDownLeft now => Some (moveOnce (-1) (dasStart true now g))
  | KeyDownRight now => Some (moveOnce 1 (dasStart false now g))
  | KeyUpLeft => Some (dasStop true g)
  | KeyUpRight => Some (dasStop false g)
  | KeyDownSoft => Some (set_timing (set_soft true (timing g)) g)
  | KeyUpSoft => Some (set_timing (set_soft false (timing g)) g)
  | KeyRotate => Some (rotatePlayer 1 g)
  | KeyHardDrop => hardDrop g
  | KeyHold => holdSwap g
  | KeyPause => Some (set_paused (negb (paused g)) g)
  | KeyEscape => Some (set_paused true g)
  | ClickRestart => resetGame g
  | Frame time now => update time now g
  | TimerFires =>
      match timeouts g with
      | [] => Some g
      | _ :: rest => resetGame (set_timeouts rest g)
      end
  end.

(** Running a sequence of events, stopping at the first error. *)
Fixpoint run (es : list Event) (g : Game) : option Game :=
  match es with
  | [] => Some g
  | e :: es' => g' ← step e g; run es' g'
  end.

(** ** The ghost piece and the kind of an identifier *)

(** [computeGhostY()]: the row on which the piece would land. *)
Definition computeGhostY (g : Game) : option Z :=
  match matrix (player g) with
  | None => Some (Js.Math_floor (pos_y (player g)))
  | Some m =>
      drop ← landing_drop (arena g) (pos_x (player g)) (pos_y (player g)) m;
      Some (Js.Math_floor (pos_y (player g) + drop))
  end.

(** [Object.keys(PIECE_IDS)] and [Object.values(PIECE_IDS)], in the
    order of the object literal. *)
Definition PIECE_KEYS : list Kind := [kI; kO; kT; kS; kZ; kJ; kL].
Definition PIECE_VALUES : list Z := [1; 2; 3; 4; 5; 6; 7].

(** [l.indexOf(v)]; [None] is [-1]. *)
Fixpoint indexOf (l : list Z) (v : Z) : option nat :=
  match l with
  | [] => None
  | x :: l' => if x =? v then Some O else S <$> indexOf l' v
  end.

(** [Object.keys(PIECE_IDS)[Object.values(PIECE_IDS).indexOf(id)]],
    evaluated step by step; reading index [-1] gives [undefined]. *)
Definition key_of_id (id : Z) : option Kind :=
  i ← indexOf PIECE_VALUES id; PIECE_KEYS !! i.

(** ** The two smaller variants of the script

    Only the functions that the properties below compare with their
    counterparts of the full script. *)

Module Legacy.

(** [(arena[ay] && arena[ay][ax]) !== 0]: a missing row or a missing
    cell is [undefined], which is not [0]. *)
Definition blocked (arena : Matrix) (ay ax : Z) : bool :=
  match (if 0 <=? ay then arena !! Z.to_nat ay else None) with
  | None => true
  | Some row =>
      match (if 0 <=? ax then row !! Z.to_nat ax else None) with
      | None => true
      | Some v => negb (v =? 0)
      end
  end.

(** [collide(arena, player)] with [m = player.matrix] and
    [o = player.pos]. *)
Definition collide (arena : Matrix) (ox oy : Z) (m : Matrix) : bool :=
  existsb
    (fun '(y, row) =>
       existsb
         (fun '(x, v) =>
            negb (v =? 0)
            && blocked arena (Z.of_nat y + oy) (Z.of_nat x + ox))
         (imap pair row))
    (imap pair m).

(** The loop of [arenaSweep] in the variant that recycles the removed
    row: [for (y = arena.length - 1; y > 0; --y)]. *)
Fixpoint arenaSweep_loop (fuel : nat) (arena : Matrix) (y : Z)
    : option Matrix :=
  match fuel with
  | O => None
  | S fuel' =>
      if y >? 0 then
        match arena !! Z.to_nat y with
        | None => None
        | Some row =>
            if forallb (fun v => negb (v =? 0)) row then
              arenaSweep_loop fuel'
                (((fun _ => 0) <$> row) :: delete (Z.to_nat y) arena)
                (y + 1 - 1)
            else arenaSweep_loop fuel' arena (y - 1)
        end
      else Some arena
  end.

Definition arenaSweep (arena : Matrix) : option Matrix :=
  arenaSweep_loop (S (2 * length arena)) arena (Z.of_nat (length arena) - 1).

(** The loop of [arenaSweep] in the variant that tests a row with
    [every]: [for (y = arena.length - 1; y >= 0; --y)].  The fresh row
    is as long as the first row left after the removal; [None] is the
    TypeError of reading [arena[y]] or [arena[0]] when it is
    [undefined], or the exhausted iteration bound. *)
Fixpoint arenaSweep_every_loop (fuel : nat) (arena : Matrix) (y : Z)
    : option Matrix :=
  match fuel with
  | O => None
  | S fuel' =>
      if y >=? 0 then
        match arena !! Z.to_nat y with
        | None => None
        | Some row =>
            if forallb (fun v => negb (v =? 0)) row then
              match delete (Z.to_nat y) arena with
              | [] => None
              | row0 :: rest =>
                  arenaSweep_every_loop fuel'
                    (replicate (length row0) 0 :: row0 :: rest) (y + 1 - 1)
              end
            else arenaSweep_every_loop fuel' arena (y - 1)
        end
      else Some arena
  end.

Definition arenaSweep_every (arena : Matrix) : option Matrix :=
  arenaSweep_every_loop (S (2 * length arena)) arena
    (Z.of_nat (length arena) - 1).

End Legacy.

(** * Specification vocabulary

    The notions the properties are stated with.  None of them is part
    of the program. *)

(** ** Merging *)

(** The value the shape row [row], whose first remaining cell sits at
    shape column [x0], puts on board column [c]. *)
Definition row_val (row : list Z) (x0 : nat) (posX c : Z) : option Z :=
  if Z.of_nat x0 + posX <=? c then
    match row !! Z.to_nat (c - Z.of_nat x0 - posX) with
    | Some v => if v =? 0 then None else Some v
    | None => None
    end
  else None.

(** [(r, c)] is a cell of the board. *)
Definition in_board (r c : Z) : Prop := 0 <= r < ROWS /\ 0 <= c < COLS.

(** The value the shape [m], whose first remaining row is shape row
    [y0], puts on board cell [(r, c)]. *)
Definition shape_val (m : Matrix) (y0 : nat) (posX posY r c : Z) : option Z :=
  if Z.of_nat y0 + posY <=? r then
    match m !! Z.to_nat (r - Z.of_nat y0 - posY) with
    | Some row => row_val row 0 posX c
    | None => None
    end
  else None.

(** An occupied cell of the shape [m] placed at [(posX, posY)] lies on
    the board cell [(r, c)]. *)
Definition covers (m : Matrix) (posX posY r c : Z) : Prop :=
  exists y x, occupied m y x /\
              Z.of_nat y + posY = r /\ Z.of_nat x + posX = c.

(** ** Sweeping *)

(** [new Array(COLS).fill(0)]. *)
Definition empty_row : list Z := replicate (Z.to_nat COLS) 0.

Definition not_full (row : list Z) : bool := negb (row_full row).

(** The number of full rows of a board. *)
Definition full_count (rows : Matrix) : nat :=
  length (List.filter row_full rows).

(** ** Rotating *)

(** An [n] by [n] matrix. *)
Definition square (n : nat) (m : Matrix) : Prop :=
  length m = n /\ Forall (fun row => length row = n) m.

(** Four rotations in the direction [dir]. *)
Definition rotate4 (m : Matrix) (dir : Z) : Matrix :=
  rotateMatrix (rotateMatrix (rotateMatrix (rotateMatrix m dir) dir) dir) dir.

(** The kick offset [k] leaves the rotated shape free of collisions. *)
Definition kick_free (arena : Matrix) (x y : Z) (m : Matrix) (k : Z) : Prop :=
  collide arena (x + k) y m = false.

(** ** Drawing *)

(** The randomizer stands at a bag boundary: the next draw shuffles. *)
Definition at_boundary (r : Randomizer) : Prop :=
  match bag r with
  | None => True
  | Some b => (length b <= index r)%nat
  end.

(** The elements pushed by [n] iterations of the loop in the first
    declaration of [refillQueue]. *)
Definition draws (n : nat) (r : Randomizer) : list Kind :=
  drop (length (nextQueue r)) (nextQueue (Nat.iter n refill_step r)).

(** The successive bags shuffled from the [c]-th call of [Math.random]. *)
Fixpoint bags (random : nat -> Unit01) (c : nat) (k : nat)
    : list (list Kind) :=
  match k with
  | O => []
  | S k' =>
      (shuffleBag random c).1 :: bags random (shuffleBag random c).2 k'
  end.

(** Two values of [Math.random()], and a source of randomness that
    answers [0] at its call number 6 and [99/100] at every other call:
    it leaves the first bag in its initial order and exchanges the two
    ends of the second. *)
Definition nearly_one : Unit01 := mkUnit01 (99 # 100) eq_refl.
Definition zero01 : Unit01 := mkUnit01 0 eq_refl.
Definition repeat_across (n : nat) : Unit01 :=
  if (n =? 6)%nat then zero01 else nearly_one.

(** The identifiers of the next [n] pieces [spawnPlayer] hands out. *)
Fixpoint spawn_ids (n : nat) (g : Game) : list Z :=
  match n with
  | O => []
  | S n' =>
      match spawnPlayer g with
      | Some g' => id (player g') :: spawn_ids n' g'
      | None => []
      end
  end.

(** ** Spawning and dropping *)

(** The spawn column of a piece of kind [type]. *)
Definition spawn_x (type : Kind) : Z :=
  match createPiece type with
  | [] => 0
  | row0 :: _ => COLS / 2 - Z.of_nat (length row0) / 2
  end.

(** The shape of kind [type] with its identifier in every occupied
    cell. *)
Definition spawn_matrix (type : Kind) : Matrix :=
  stamp (PIECE_IDS type) (createPiece type).

(** The state [spawnPlayer] builds before it tests for game over. *)
Definition spawned (type : Kind) (r : Randomizer) (g : Game) : Game :=
  set_timing (set_lock 0 false (timing g))
    (set_hold (holdPiece g) false
       (set_player
          (mkPlayer (spawn_x type) (-1) (Some (spawn_matrix type))
             (PIECE_IDS type))
          (set_rand r g))).

(** The lowest occupied row of a shape. *)
Definition lowest (m : Matrix) (L : nat) : Prop :=
  (exists c, occupied m L c) /\ forall r c, occupied m r c -> (r <= L)%nat.

(** ** Frames *)

(** What a frame leaves untouched as long as no piece locks. *)
Definition same_piece (g g' : Game) : Prop :=
  arena g' = arena g /\ matrix (player g') = matrix (player g) /\
  rand g' = rand g /\ stats g' = stats g /\
  paused g' = paused g /\ gameOver g' = gameOver g /\
  gravityCPS (timing g') = gravityCPS (timing g) /\
  soft (timing g') = soft (timing g).

(** The lock-delay counter of [g'] is that of [g], or was set to [0]. *)
Definition counter_kept (g g' : Game) : Prop :=
  lockTimer (timing g') = lockTimer (timing g) \/
  lockTimer (timing g') = 0%float.

(** No direction key is held. *)
Definition das_idle (g : Game) : Prop :=
  das_left (dasState g) = false /\ das_right (dasState g) = false.

(** The piece [m] of [g] rests on a supporting surface, the game runs,
    and the frame callback has noticed the contact. *)
Definition resting (g : Game) (m : Matrix) : Prop :=
  wf_arena (arena g) /\
  matrix (player g) = Some m /\
  paused g = false /\ gameOver g = false /\
  collide (arena g) (pos_x (player g)) (pos_y (player g) + 1) m = true /\
  onGround (timing g) = true.

(** The state after a frame in which the resting piece stays put. *)
Definition rested (g : Game) (acc last lt : float) : Game :=
  set_timing
    (mkTiming (gravityCPS (timing g)) (soft (timing g)) acc last lt true) g.

(** The state a frame leaves a resting piece in, when it does not
    lock it: the accumulator, the time stamp, the lock-delay counter
    and the schedule of the auto-repeat are all that changed. *)
Definition waited (g : Game) (acc last lt nm : float) : Game :=
  set_dasState (set_nextMoveAt nm (dasState g)) (rested g acc last lt).

(** The frame time [update] computes from the previous time stamp. *)
Definition delta_since (last time : float) : float :=
  (time - (if falsy last then time else last))%float.

(** The lock-delay counter stays below the threshold through [frames]
    (pairs of the frame time stamp and [performance.now()]), starting
    from the counter value [lt] and the previous time stamp [last]: at
    no frame does the counter, grown by the frame time as [update]
    computes it, pass the test [lockTimer >= LOCK_DELAY]. *)
Fixpoint below_threshold (lt last : float) (frames : list (float * float))
    : Prop :=
  match frames with
  | [] => True
  | (time, _) :: frames' =>
      (LOCK_DELAY <=? lt + delta_since last time)%float = false /\
      below_threshold (lt + delta_since last time)%float time frames'
  end.

(** The ground-contact time accumulated through [frames]. *)
Fixpoint contact_time (lt last : float) (frames : list (float * float))
    : float :=
  match frames with
  | [] => lt
  | (time, _) :: frames' =>
      contact_time (lt + delta_since last time)%float time frames'
  end.

(** The time stamp of the last of [frames]. *)
Fixpoint last_frame_time (last : float) (frames : list (float * float))
    : float :=
  match frames with
  | [] => last
  | (time, _) :: frames' => last_frame_time time frames'
  end.

(** The frames as events. *)
Definition frame_events (frames : list (float * float)) : list Event :=
  map (fun f => Frame f.1 f.2) frames.

(** The side the auto-repeat shifts to: the left one when both keys
    are held. *)
Definition das_dir (g : Game) : Z :=
  if das_left (dasState g) then -1 else 1.

(** The auto-repeat does not shift the piece [m] of [g] during
    [frames]: no direction key is held, or the piece is blocked on the
    side it would shift to, or no frame reaches the scheduled time. *)
Definition das_still (g : Game) (m : Matrix) (frames : list (float * float))
    : Prop :=
  das_idle g \/
  collide (arena g) (pos_x (player g) + das_dir g) (pos_y (player g)) m
    = true \/
  Forall (fun f => (nextMoveAt (dasState g) <=? f.2)%float = false) frames.

(** ** Sample states *)

(** A source of randomness that always answers [0]. *)
Definition constant_random : nat -> Unit01 := fun _ => zero01.

Definition empty_board : Matrix := createMatrix COLS ROWS.

(** A board whose bottom row is full. *)
Definition bottom_full_board : Matrix :=
  replicate 19 empty_row ++ [replicate 12 1].

(** A board on which exactly rows 2 and 5 are full; the other rows hold
    a single block in column [y mod 12], which tells them apart. *)
Definition marked_row (y : nat) : list Z :=
  <[(y mod 12)%nat := 1]> empty_row.

Definition two_full_board : Matrix :=
  (fun y => if (y =? 2)%nat || (y =? 5)%nat then replicate 12 1
            else marked_row y) <$> seq 0 20.

(** An O piece at column 5 and row [y] of [board], in a running game
    whose frame callback has noticed ground contact.  The queue is
    empty, as it is in the script at all times. *)
Definition sample_game (board : Matrix) (y : Z) : Game :=
  mkGame board (mkPlayer 5 y (Some (spawn_matrix kO)) 2)
    (mkRandomizer [] None 0 constant_random 0) None false
    (mkStats 0 0 0 0) (mkTiming 1 false 0 1000 0 true)
    (mkDas false false 0 0) false false [].

(** The same game with the kinds of [queue] waiting. *)
Definition stocked_game (queue : list Kind) (board : Matrix) (y : Z)
    : Game :=
  set_rand (mkRandomizer queue None 0 constant_random 0)
    (sample_game board y).

(** ** The piece on the board *)

(** The shape has an occupied cell. *)
Definition has_block (m : Matrix) : Prop := exists y x, occupied m y x.

(** The piece of a running game does not overlap the board or leave it
    sideways or through the floor. *)
Definition legal (g : Game) : Prop :=
  gameOver g = false ->
  forall m, matrix (player g) = Some m ->
    collide (arena g) (pos_x (player g)) (pos_y (player g)) m = false.

(** What [hardDrop] and the lock of [update] do once the piece stands
    where it locks: merge, sweep and spawn. *)
Definition lock_here (g : Game) : option Game :=
  g1 ← mergeToArena g; g2 ← sweep g1; spawnPlayer g2.

(** ** A game in progress *)






(** ** The score book and the speed *)

(** A state of a game in progress to run examples from: the T piece at
    its spawn position over the empty board. *)
Definition started_game : Game :=
  mkGame empty_board (mkPlayer 4 (-1) (Some (spawn_matrix kT)) 3)
    (mkRandomizer [kI; kL; kJ; kO; kS] None 0 constant_random 0) None false
    (mkStats 0 0 0 0) (mkTiming 1 false 0 0 0 false)
    (mkDas false false 0 0) false false [].

(** The same game over a board whose bottom row lacks the three cells
    under the T piece: a hard drop completes the row. *)
Definition gap_game : Game :=
  set_arena (replicate 19 empty_row ++ [[1; 1; 1; 1; 0; 0; 0; 1; 1; 1; 1; 1]])
    started_game.

(** The score book is consistent: the level is a tenth of the lines,
    rounded down, and the score lies between 0 and the high score. *)
Definition stats_ok (s : Stats) : Prop :=
  level s = lines s / 10 /\ 0 <= lines s /\ 0 <= score s <= highscore s.

(** From [s] to [s'] the score book stays consistent and the high score
    does not fall. *)
Definition grows (s s' : Stats) : Prop :=
  stats_ok s -> stats_ok s' /\ highscore s <= highscore s'.

(** Moreover neither the score nor the lines fall. *)
Definition rises (s s' : Stats) : Prop :=
  stats_ok s ->
  stats_ok s' /\ highscore s <= highscore s' /\
  score s <= score s' /\ lines s <= lines s'.

(** [g'] has the gravity setting and the soft-drop flag of [g]. *)
Definition same_speed (g g' : Game) : Prop :=
  gravityCPS (timing g') = gravityCPS (timing g) /\
  soft (timing g') = soft (timing g).

(** ** Shuffling *)

(** The six indices [Math.floor(Math.random() * (i + 1))] one shuffle
    draws, for [i] from 6 down to 1, from the [c]-th call on. *)
Definition shuffle_choices (random : nat -> Unit01) (c : nat) : list nat :=
  (fun t => random_below random (c + t) (6 - t + 1)) <$> seq 0 6.

(** The swaps of the shuffle for given indices. *)
Fixpoint shuffle_by (js : list nat) (b : list Kind) (i : nat) : list Kind :=
  match i, js with
  | S i', j :: js' => shuffle_by js' (swap b i j) i'
  | _, _ => b
  end.

(** The place of [k] in [b]. *)
Fixpoint position (k : Kind) (b : list Kind) : nat :=
  match b with
  | [] => 0
  | k' :: b' => if decide (k = k') then 0 else S (position k b')
  end.

(** The indices that shuffle [b] into [p]: at each step the kind that
    [p] has at place [i] is fetched from where it stands. *)
Fixpoint unshuffle (p b : list Kind) (i : nat) : list nat :=
  match i with
  | O => []
  | S i' =>
      match p !! i with
      | Some k => let j := position k b in j :: unshuffle p (swap b i j) i'
      | None => []
      end
  end.

(** Six indices within their ranges [0..6], [0..5], ..., [0..1]. *)
Definition in_ranges (js : list nat) : bool :=
  match js with
  | [j0; j1; j2; j3; j4; j5] =>
      (j0 <=? 6)%nat && (j1 <=? 5)%nat && (j2 <=? 4)%nat && (j3 <=? 3)%nat
      && (j4 <=? 2)%nat && (j5 <=? 1)%nat
  | _ => false
  end.

(** All such index lists. *)
Definition all_choices : list (list nat) :=
  j0 ← seq 0 7; j1 ← seq 0 6; j2 ← seq 0 5; j3 ← seq 0 4; j4 ← seq 0 3;
  j5 ← seq 0 2; [[j0; j1; j2; j3; j4; j5]].

(** A number in [0, 1), or [0] when [q] is not one. *)
Definition to_unit01 (q : Q) : Unit01 :=
  match Sumbool.sumbool_of_bool (Qle_bool 0 q && negb (Qle_bool 1 q)) with
  | left H => mkUnit01 q H
  | right _ => zero01
  end.

(** A value of [Math.random()] that makes
    [Math.floor(Math.random() * n)] equal to [j]. *)
Definition pick (j n : nat) : Unit01 :=
  to_unit01 ((2 * Z.of_nat j + 1) # Pos.of_nat (2 * n)).

(** A source of randomness that answers the indices [js] from the
    [c]-th call on. *)
Definition random_for (js : list nat) (c : nat) : nat -> Unit01 :=
  fun k => pick (nth (k - c) js 0%nat) (6 - (k - c) + 1).

(** * Properties *)

(** A concrete board has [ROWS] rows of [COLS] cells. *)
Ltac wf_by_computation := split; [reflexivity | repeat constructor].

(** ** Collision *)

Lemma truthy_filled arena ay ax :
  0 <= ay -> 0 <= ax ->
  Js.truthy (Js.cell arena ay ax) = true <-> filled arena ay ax.
Proof.
  intros Hy Hx. unfold filled, Js.truthy.
  destruct (Js.cell arena ay ax) as [v|]; split.
  - intros H. exists v. split; [done|]. intros ->. discriminate.
  - intros (w & [= <-] & Hw). apply negb_true_iff, Z.eqb_neq, Hw.
  - discriminate.
  - intros (w & Hw & _). discriminate.
Qed.

Lemma hits_test arena ax ay :
  ((ax <? 0) || (ax >=? COLS) || (ay >=? ROWS)
   || ((ay >=? 0) && Js.truthy (Js.cell arena ay ax))) = true
  <-> hits arena ax ay.
Proof.
  unfold hits. rewrite !orb_true_iff, andb_true_iff.
  rewrite Z.ltb_lt, !Z.geb_le.
  split.
  - intros [[[H|H]|H]|[H1 H2]]; [tauto|tauto|tauto|].
    destruct (Z_lt_dec ax 0); [tauto|].
    right. right. split; [done|]. apply truthy_filled; [done|lia|done].
  - intros [[H|H]|[H|[H1 H2]]]; [tauto|tauto|tauto|].
    destruct (Z_lt_dec ax 0); [tauto|].
    right. split; [done|]. apply truthy_filled; [done|lia|done].
Qed.

Lemma collide_row_spec arena playerX ay row x0 :
  collide_row arena playerX ay row x0 = true <->
  exists i v, row !! i = Some v /\ v <> 0 /\
              hits arena (Z.of_nat (x0 + i) + playerX) ay.
Proof.
  revert x0. induction row as [|v row IH]; intros x0; simpl.
  - split; [discriminate|]. intros (i & v & Hi & _). by destruct i.
  - destruct (Z.eqb_spec v 0) as [->|Hv].
    + rewrite IH. split.
      * intros (i & w & Hi & Hw & Hh). exists (S i), w.
        repeat split; [done|done|].
        by replace (x0 + S i)%nat with (S x0 + i)%nat by lia.
      * intros (i & w & Hi & Hw & Hh). destruct i as [|i]; simpl in Hi.
        { by injection Hi as <-. }
        exists i, w. repeat split; [done|done|].
        by replace (S x0 + i)%nat with (x0 + S i)%nat by lia.
    + pose proof (hits_test arena (Z.of_nat x0 + playerX) ay) as Ht.
      destruct ((Z.of_nat x0 + playerX <? 0) || (Z.of_nat x0 + playerX >=? COLS)
                || (ay >=? ROWS)) eqn:E1.
      { split; [|done]. intros _. exists 0%nat, v. repeat split; [done|].
        replace (x0 + 0)%nat with x0 by lia. apply Ht. by rewrite orb_true_l. }
      destruct ((ay >=? 0)
                && Js.truthy (Js.cell arena ay (Z.of_nat x0 + playerX)))
        eqn:E2.
      { split; [|done]. intros _. exists 0%nat, v. repeat split; [done|].
        replace (x0 + 0)%nat with x0 by lia. apply Ht. by rewrite orb_true_r. }
      rewrite IH. split.
      * intros (i & w & Hi & Hw & Hh). exists (S i), w.
        repeat split; [done|done|].
        by replace (x0 + S i)%nat with (S x0 + i)%nat by lia.
      * intros (i & w & Hi & Hw & Hh). destruct i as [|i]; simpl in Hi.
        { replace (x0 + 0)%nat with x0 in Hh by lia.
          apply Ht in Hh. simpl in Hh. discriminate. }
        exists i, w. repeat split; [done|done|].
        by replace (S x0 + i)%nat with (x0 + S i)%nat by lia.
Qed.

Lemma collide_rows_spec arena playerX playerY m y0 :
  collide_rows arena playerX playerY m y0 = true <->
  exists j i, occupied m j i /\
              hits arena (Z.of_nat i + playerX) (Z.of_nat (y0 + j) + playerY).
Proof.
  revert y0. induction m as [|row m IH]; intros y0; simpl.
  - split; [discriminate|]. intros (j & i & (v & Hv & _) & _).
    unfold Js.at2 in Hv. by destruct j.
  - destruct (collide_row arena playerX (Z.of_nat y0 + playerY) row 0) eqn:E.
    + split; [|done]. intros _.
      apply collide_row_spec in E as (i & v & Hi & Hv & Hh).
      exists 0%nat, i. split; [by exists v|].
      by replace (y0 + 0)%nat with y0 by lia.
    + rewrite IH. split.
      * intros (j & i & Ho & Hh). exists (S j), i. split; [done|].
        by replace (y0 + S j)%nat with (S y0 + j)%nat by lia.
      * intros (j & i & Ho & Hh). destruct j as [|j].
        { destruct Ho as (v & Hv & Hnz). unfold Js.at2 in Hv. simpl in Hv.
          assert (collide_row arena playerX (Z.of_nat y0 + playerY) row 0
                  = true) as E'.
          { apply collide_row_spec. exists i, v. repeat split; [done|done|].
            by replace (y0 + 0)%nat with y0 in Hh by lia. }
          congruence. }
        exists j, i. split; [done|].
        by replace (S y0 + j)%nat with (y0 + S j)%nat by lia.
Qed.

Lemma above_top_never_hits arena ax ay :
  0 <= ax < COLS -> ay < 0 -> ~ hits arena ax ay.
Proof.
  intros Hx Hy. assert (ROWS = 20) as HR by reflexivity.
  intros [[?|?]|[?|[? _]]]; lia.
Qed.

(** C1.  On every board, [collide] answers [true] exactly when some
    occupied shape cell lands left or right of the columns
    [0 .. COLS-1], on or below row [ROWS], or on a non-empty board cell
    of a row [>= 0].  A cell above the top of the board (negative row)
    inside the columns never counts: a shape all of whose occupied cells
    are such cells does not collide. *)
Theorem collide_iff_hits arena playerX playerY m :
  wf_arena arena ->
  (collide arena playerX playerY m = true <->
   exists y x, occupied m y x /\
               hits arena (Z.of_nat x + playerX) (Z.of_nat y + playerY))
  /\
  (forall ax ay, 0 <= ax < COLS -> ay < 0 -> ~ hits arena ax ay)
  /\
  ((forall y x, occupied m y x ->
      0 <= Z.of_nat x + playerX < COLS /\ Z.of_nat y + playerY < 0) ->
   collide arena playerX playerY m = false).
Proof.
  intros _. unfold collide. split; [apply collide_rows_spec|].
  split; [intros; by apply above_top_never_hits|].
  intros Habove. apply not_true_is_false. intros Hc.
  apply collide_rows_spec in Hc as (j & i & Ho & Hh).
  destruct (Habove j i Ho) as [Hx Hy].
  by apply (above_top_never_hits arena _ _ Hx Hy).
Qed.

Lemma collide_iff_hits_witness :
  wf_arena empty_board /\ collide empty_board 5 19 (spawn_matrix kO) = true.
Proof.
  assert (wf_arena empty_board) as Hwf by wf_by_computation.
  split; [exact Hwf|].
  apply (proj1 (collide_iff_hits empty_board 5 19 (spawn_matrix kO) Hwf)).
  exists 1%nat, 0%nat. split.
  - exists 2. split; [reflexivity|lia].
  - right. left. unfold ROWS. lia.
Defined.

(** A piece spawned one row above the board does not collide with the
    empty board, and it does once row 0 is occupied under it. *)
Example collide_spawn_row :
  collide empty_board 5 (-1) (spawn_matrix kT) = false /\
  collide (<[0%nat := replicate 12 1]> empty_board) 5 (-1) (spawn_matrix kT)
    = true.
Proof. split; reflexivity. Qed.

(** The smaller variants answer differently above the top of the board:
    a cell in row [-1] is a collision there. *)
Example legacy_collide_above_top :
  Legacy.collide empty_board 5 (-1) (createPiece kT) = true /\
  collide empty_board 5 (-1) (createPiece kT) = false.
Proof. split; reflexivity. Qed.

(** ** Merge *)

Lemma wf_arena_lookup arena r :
  wf_arena arena -> 0 <= r < ROWS ->
  exists row, arena !! Z.to_nat r = Some row /\ length row = Z.to_nat COLS.
Proof.
  intros [Hlen Hrows] Hr.
  destruct (lookup_lt_is_Some_2 arena (Z.to_nat r)) as [row Hrow]; [lia|].
  exists row. split; [done|].
  by apply (Forall_lookup_1 _ _ _ _ Hrows Hrow).
Qed.

Lemma wf_arena_insert arena i row :
  wf_arena arena -> length row = Z.to_nat COLS -> wf_arena (<[i := row]> arena).
Proof.
  intros [Hlen Hrows] Hrow. split.
  - by rewrite length_insert.
  - by apply Forall_insert.
Qed.

Lemma cell_insert arena ay ax v row r c :
  arena !! Z.to_nat ay = Some row ->
  (Z.to_nat ax < length row)%nat ->
  0 <= ay -> 0 <= ax ->
  Js.cell (<[Z.to_nat ay := <[Z.to_nat ax := v]> row]> arena) r c =
  if decide (r = ay /\ c = ax) then Some v else Js.cell arena r c.
Proof.
  intros Hrow Hax Hy Hx. unfold Js.cell, Js.at2.
  destruct (Z.leb_spec 0 r), (Z.leb_spec 0 c); simpl;
    try (case_decide; [lia|done]).
  destruct (decide (Z.to_nat r = Z.to_nat ay)) as [E|N].
  - rewrite E, list_lookup_insert_eq by (by eapply lookup_lt_Some).
    destruct (decide (Z.to_nat c = Z.to_nat ax)) as [E'|N'].
    + rewrite E', list_lookup_insert_eq by done.
      case_decide; [done|lia].
    + rewrite list_lookup_insert_ne by done. rewrite Hrow.
      case_decide; [lia|done].
  - rewrite list_lookup_insert_ne by done.
    case_decide; [lia|done].
Qed.

Lemma write_ok arena ay ax v :
  wf_arena arena -> 0 <= ay < ROWS -> 0 <= ax < COLS ->
  exists arena', write arena ay ax v = Some arena' /\ wf_arena arena' /\
    forall r c, Js.cell arena' r c =
                if decide (r = ay /\ c = ax) then Some v else Js.cell arena r c.
Proof.
  intros Hwf Hy Hx.
  destruct (wf_arena_lookup _ _ Hwf Hy) as (row & Hrow & Hlen).
  unfold write. rewrite Hrow.
  destruct (Z.leb_spec 0 ay); [|lia]. destruct (Z.leb_spec 0 ax); [|lia]. simpl.
  destruct (Nat.ltb_spec (Z.to_nat ax) (length row)); [|lia].
  eexists. split; [done|]. split.
  - apply wf_arena_insert; [done|]. by rewrite length_insert.
  - intros r c. apply cell_insert; [done|done|lia|lia].
Qed.

Lemma row_val_cons v row x0 posX c :
  row_val (v :: row) x0 posX c =
  if c =? Z.of_nat x0 + posX then (if v =? 0 then None else Some v)
  else row_val row (S x0) posX c.
Proof.
  unfold row_val.
  destruct (Z.eqb_spec c (Z.of_nat x0 + posX)) as [->|Hne].
  - rewrite Z.leb_refl.
    by replace (Z.of_nat x0 + posX - Z.of_nat x0 - posX) with 0 by lia.
  - destruct (Z.leb_spec (Z.of_nat x0 + posX) c),
             (Z.leb_spec (Z.of_nat (S x0) + posX) c); try lia; try done.
    replace (Z.to_nat (c - Z.of_nat x0 - posX))
      with (S (Z.to_nat (c - Z.of_nat (S x0) - posX))) by lia. done.
Qed.

Lemma merge_row_spec arena posX ay row x0 :
  wf_arena arena ->
  exists arena', merge_row arena posX ay row x0 = Some arena' /\
    wf_arena arena' /\
    forall r c, in_board r c ->
      Js.cell arena' r c =
      if decide (r = ay) then
        match row_val row x0 posX c with
        | Some v => Some v
        | None => Js.cell arena r c
        end
      else Js.cell arena r c.
Proof.
  revert arena x0. induction row as [|v row IH]; intros arena x0 Hwf; simpl.
  - exists arena. split; [done|]. split; [done|]. intros r c _.
    unfold row_val. rewrite lookup_nil. by repeat case_match.
  - destruct (Z.eqb_spec v 0) as [->|Hv].
    + destruct (IH arena (S x0) Hwf) as (a' & Hm & Hwf' & Hc).
      exists a'. split; [done|]. split; [done|]. intros r c Hb.
      rewrite (Hc r c Hb), row_val_cons. simpl.
      case_decide; [|done].
      destruct (Z.eqb_spec c (Z.of_nat x0 + posX)); [|done].
      subst c. unfold row_val.
      by destruct (Z.leb_spec (Z.of_nat (S x0) + posX)
                    (Z.of_nat x0 + posX)); [lia|].
    + destruct ((ay >=? 0) && (ay <? ROWS) && (Z.of_nat x0 + posX >=? 0)
                && (Z.of_nat x0 + posX <? COLS)) eqn:Hin.
      * rewrite !andb_true_iff, !Z.geb_le, !Z.ltb_lt in Hin.
        destruct (write_ok arena ay (Z.of_nat x0 + posX) v Hwf)
          as (a1 & Hw & Hwf1 & Hc1); [lia|lia|].
        rewrite Hw. simpl.
        destruct (IH a1 (S x0) Hwf1) as (a' & Hm & Hwf' & Hc).
        exists a'. split; [done|]. split; [done|]. intros r c Hb.
        rewrite (Hc r c Hb), row_val_cons, !Hc1.
        destruct (Z.eqb_spec v 0); [done|].
        case_decide as Hr; [|by case_decide; [lia|]].
        destruct (Z.eqb_spec c (Z.of_nat x0 + posX)) as [->|Hne].
        -- unfold row_val.
           destruct (Z.leb_spec (Z.of_nat (S x0) + posX)
                       (Z.of_nat x0 + posX)); [lia|].
           by case_decide; [|lia].
        -- destruct (row_val row (S x0) posX c); [done|].
           by case_decide; [lia|].
      * destruct (IH arena (S x0) Hwf) as (a' & Hm & Hwf' & Hc).
        exists a'. split; [done|]. split; [done|]. intros r c Hb.
        rewrite (Hc r c Hb), row_val_cons.
        destruct (Z.eqb_spec v 0); [done|].
        case_decide as Hr; [|done].
        destruct (Z.eqb_spec c (Z.of_nat x0 + posX)) as [->|Hne]; [|done].
        exfalso. destruct Hb as [Hb1 Hb2]. subst r.
        rewrite !andb_false_iff, !Z.geb_leb, !Z.leb_gt, !Z.ltb_ge in Hin. lia.
Qed.

Lemma shape_val_cons row m y0 posX posY r c :
  shape_val (row :: m) y0 posX posY r c =
  if r =? Z.of_nat y0 + posY then row_val row 0 posX c
  else shape_val m (S y0) posX posY r c.
Proof.
  unfold shape_val.
  destruct (Z.eqb_spec r (Z.of_nat y0 + posY)) as [->|Hne].
  - rewrite Z.leb_refl.
    by replace (Z.of_nat y0 + posY - Z.of_nat y0 - posY) with 0 by lia.
  - destruct (Z.leb_spec (Z.of_nat y0 + posY) r),
             (Z.leb_spec (Z.of_nat (S y0) + posY) r); try lia; try done.
    replace (Z.to_nat (r - Z.of_nat y0 - posY))
      with (S (Z.to_nat (r - Z.of_nat (S y0) - posY))) by lia. done.
Qed.

Lemma merge_rows_spec arena posX posY m y0 :
  wf_arena arena ->
  exists arena', merge_rows arena posX posY m y0 = Some arena' /\
    wf_arena arena' /\
    forall r c, in_board r c ->
      Js.cell arena' r c =
      match shape_val m y0 posX posY r c with
      | Some v => Some v
      | None => Js.cell arena r c
      end.
Proof.
  revert arena y0. induction m as [|row m IH]; intros arena y0 Hwf; simpl.
  - exists arena. split; [done|]. split; [done|]. intros r c _.
    unfold shape_val. rewrite lookup_nil.
    by destruct (Z.of_nat y0 + posY <=? r).
  - destruct (merge_row_spec arena posX (Z.of_nat y0 + posY) row 0 Hwf)
      as (a1 & Hm1 & Hwf1 & Hc1).
    rewrite Hm1. simpl.
    destruct (IH a1 (S y0) Hwf1) as (a' & Hm & Hwf' & Hc).
    exists a'. split; [done|]. split; [done|]. intros r c Hb.
    rewrite (Hc r c Hb), (Hc1 r c Hb), shape_val_cons.
    destruct (Z.eqb_spec r (Z.of_nat y0 + posY)) as [->|Hne].
    + unfold shape_val.
      destruct (Z.leb_spec (Z.of_nat (S y0) + posY)
                  (Z.of_nat y0 + posY)); [lia|].
      by case_decide.
    + destruct (shape_val m (S y0) posX posY r c); [done|]. by case_decide.
Qed.

Lemma shape_val_Some m posX posY r c v :
  shape_val m 0 posX posY r c = Some v <->
  exists y x, Js.at2 m y x = Some v /\ v <> 0 /\
              Z.of_nat y + posY = r /\ Z.of_nat x + posX = c.
Proof.
  unfold shape_val, row_val, Js.at2. change (Z.of_nat 0) with 0.
  rewrite !Z.add_0_l, !Z.sub_0_r. split.
  - destruct (Z.leb_spec posY r); [|done].
    destruct (m !! Z.to_nat (r - posY)) as [row|] eqn:Hr; [|done].
    destruct (Z.leb_spec posX c); [|done].
    destruct (row !! Z.to_nat (c - posX)) as [w|] eqn:Hc; [|done].
    destruct (Z.eqb_spec w 0); [done|]. intros [= <-].
    exists (Z.to_nat (r - posY)), (Z.to_nat (c - posX)).
    rewrite Hr. split; [done|]. split; [done|]. split; lia.
  - intros (y & x & Hv & Hnz & <- & <-).
    destruct (Z.leb_spec posY (Z.of_nat y + posY)); [|lia].
    replace (Z.to_nat (Z.of_nat y + posY - posY)) with y by lia.
    destruct (m !! y) as [row|]; [|done].
    destruct (Z.leb_spec posX (Z.of_nat x + posX)); [|lia].
    replace (Z.to_nat (Z.of_nat x + posX - posX)) with x by lia.
    rewrite Hv. by destruct (Z.eqb_spec v 0).
Qed.

(** C10.  On a well-formed board [mergeToArena] succeeds (no write
    falls outside the board), keeps the dimensions of the board, writes
    the piece identifier into exactly the board cells covered by an
    occupied shape cell, and leaves every other board cell as it was;
    shape cells that map outside the board cover no board cell and are
    skipped.  Nothing but the board changes. *)
Theorem mergeToArena_frame g m :
  wf_arena (arena g) ->
  matrix (player g) = Some m ->
  (forall y x v, Js.at2 m y x = Some v -> v <> 0 -> v = id (player g)) ->
  exists arena',
    mergeToArena g = Some (set_arena arena' g) /\
    wf_arena arena' /\
    forall r c, in_board r c ->
      (covers m (pos_x (player g)) (pos_y (player g)) r c ->
       Js.cell arena' r c = Some (id (player g))) /\
      (~ covers m (pos_x (player g)) (pos_y (player g)) r c ->
       Js.cell arena' r c = Js.cell (arena g) r c).
Proof.
  intros Hwf Hm Hid. unfold mergeToArena. rewrite Hm.
  destruct (merge_rows_spec (arena g) (pos_x (player g))
              (Js.Math_floor (pos_y (player g))) m 0 Hwf)
    as (a' & Hmr & Hwf' & Hc).
  rewrite Hmr. exists a'. split; [done|]. split; [done|].
  intros r c Hb. rewrite (Hc r c Hb). unfold Js.Math_floor. split.
  - intros (y & x & (v & Hv & Hnz) & Hy & Hx).
    assert (shape_val m 0 (pos_x (player g)) (pos_y (player g)) r c = Some v)
      as ->.
    { apply shape_val_Some. by exists y, x. }
    f_equal. by eapply Hid.
  - intros Hn.
    destruct (shape_val m 0 (pos_x (player g)) (pos_y (player g)) r c)
      as [v|] eqn:E; [|done].
    exfalso. apply Hn.
    apply shape_val_Some in E as (y & x & Hv & Hnz & Hy & Hx).
    exists y, x. split; [by exists v|done].
Qed.

Lemma mergeToArena_frame_witness :
  wf_arena (arena (sample_game empty_board 18)) /\
  matrix (player (sample_game empty_board 18)) = Some (spawn_matrix kO) /\
  exists arena',
    mergeToArena (sample_game empty_board 18)
      = Some (set_arena arena' (sample_game empty_board 18)) /\
    Js.cell arena' 19 5 = Some 2 /\
    Js.cell arena' 17 5 = Some 0.
Proof.
  assert (wf_arena (arena (sample_game empty_board 18))) as Hwf
    by wf_by_computation.
  split; [exact Hwf|]. split; [reflexivity|].
  destruct (mergeToArena_frame (sample_game empty_board 18)
              (spawn_matrix kO) Hwf eq_refl) as (a' & Hm & _ & Hcells).
  { intros y x v Hv Hnz. change (v = 2).
    destruct y as [|[|y]]; destruct x as [|[|x]]; vm_compute in Hv;
      congruence. }
  exists a'. split; [exact Hm|]. split.
  - apply (Hcells 19 5); [unfold in_board, ROWS, COLS; lia|].
    exists 1%nat, 0%nat. split; [|split; reflexivity].
    exists 2. split; [reflexivity|lia].
  - rewrite (proj2 (Hcells 17 5 ltac:(unfold in_board, ROWS, COLS; lia)));
      [reflexivity|].
    intros (y & x & _ & Hy & _). cbn in Hy. lia.
Defined.

(** A piece hanging over the top of the board: only the cells on the
    board are written. *)
Example merge_clips_above_top :
  merge_rows empty_board 5 (-1) (spawn_matrix kO) 0
  = Some (<[0%nat := <[6%nat := 2]> (<[5%nat := 2]> empty_row)]> empty_board).
Proof. reflexivity. Qed.

(** ** Sweep and score *)

Lemma row_full_empty_row : row_full empty_row = false.
Proof. reflexivity. Qed.

Lemma row_full_iff row :
  length row = Z.to_nat COLS ->
  row_full row = true <-> Forall (fun v => v <> 0) row.
Proof.
  intros Hlen. unfold row_full. rewrite forallb_forall, Forall_lookup.
  split.
  - intros H i v Hi.
    assert (i < Z.to_nat COLS)%nat as Hlt.
    { rewrite <- Hlen. by eapply lookup_lt_Some. }
    specialize (H i). rewrite Hi in H.
    assert (negb (v =? 0) = true) as Hv.
    { apply H. apply in_seq. lia. }
    by apply negb_true_iff, Z.eqb_neq in Hv.
  - intros H i _. destruct (row !! i) as [v|] eqn:Hi; [|done].
    apply negb_true_iff, Z.eqb_neq. by eapply H.
Qed.

Lemma replicate_snoc {A} (n : nat) (x : A) (l : list A) :
  replicate n x ++ x :: l = replicate (S n) x ++ l.
Proof. induction n as [|n IH]; simpl; [done|]. by rewrite IH. Qed.

Lemma full_count_le rows : (full_count rows <= length rows)%nat.
Proof. unfold full_count. apply filter_length_le. Qed.

Lemma sweep_loop_S fuel a y c :
  sweep_loop (S fuel) a y c =
  if y >=? 0 then
    match a !! Z.to_nat y with
    | None => None
    | Some row =>
        if row_full row
        then sweep_loop fuel (empty_row :: delete (Z.to_nat y) a)
               (y + 1 - 1) (c + 1)
        else sweep_loop fuel a (y - 1) c
    end
  else Some (a, c).
Proof. reflexivity. Qed.

Lemma full_count_snoc rows row :
  full_count (rows ++ [row]) =
  (full_count rows + if row_full row then 1 else 0)%nat.
Proof.
  unfold full_count. rewrite List.filter_app, length_app. simpl.
  by destruct (row_full row).
Qed.

Lemma not_full_snoc rows row :
  List.filter not_full (rows ++ [row]) =
  List.filter not_full rows ++ if row_full row then [] else [row].
Proof.
  rewrite List.filter_app. simpl. unfold not_full at 2.
  by destruct (row_full row).
Qed.

Lemma full_count_empty_cons rows :
  full_count (empty_row :: rows) = full_count rows.
Proof.
  unfold full_count.
  change (List.filter row_full (empty_row :: rows))
    with (if row_full empty_row then empty_row :: List.filter row_full rows
          else List.filter row_full rows).
  by rewrite row_full_empty_row.
Qed.

Lemma not_full_empty_cons rows :
  List.filter not_full (empty_row :: rows) =
  empty_row :: List.filter not_full rows.
Proof.
  change (List.filter not_full (empty_row :: rows))
    with (if negb (row_full empty_row)
          then empty_row :: List.filter not_full rows
          else List.filter not_full rows).
  by rewrite row_full_empty_row.
Qed.

Lemma sweep_loop_spec fuel a n c :
  (n <= length a)%nat ->
  (n + full_count (take n a) < fuel)%nat ->
  sweep_loop fuel a (Z.of_nat n - 1) c =
  Some (replicate (full_count (take n a)) empty_row
          ++ List.filter not_full (take n a) ++ drop n a,
        c + Z.of_nat (full_count (take n a))).
Proof.
  revert a n c. induction fuel as [|fuel IH]; intros a n c Hn Hfuel; [lia|].
  rewrite sweep_loop_S. destruct n as [|n].
  - rewrite take_0, drop_0. unfold full_count. simpl.
    by rewrite Z.add_0_r.
  - destruct (Z.geb_spec (Z.of_nat (S n) - 1) 0) as [_|]; [|lia].
    replace (Z.to_nat (Z.of_nat (S n) - 1)) with n by lia.
    destruct (lookup_lt_is_Some_2 a n) as [row Hrow]; [lia|].
    rewrite Hrow, (take_S_r _ _ _ Hrow) in *.
    rewrite full_count_snoc, not_full_snoc in *.
    destruct (row_full row) eqn:Hfull.
    + replace (Z.of_nat (S n) - 1 + 1 - 1) with (Z.of_nat (S n) - 1) by lia.
      assert (take n (delete n a) = take n a) as Htake.
      { rewrite delete_take_drop, take_app_le by (rewrite length_take; lia).
        rewrite take_take. f_equal. lia. }
      assert (drop n (delete n a) = drop (S n) a) as Hdrop.
      { rewrite delete_take_drop, drop_app_length'; [done|].
        rewrite length_take. lia. }
      rewrite IH.
      * rewrite firstn_cons, skipn_cons, Htake, Hdrop.
        rewrite full_count_empty_cons, not_full_empty_cons.
        rewrite app_nil_r, <- app_comm_cons, replicate_snoc.
        replace (full_count (take n a) + 1)%nat
          with (S (full_count (take n a))) by lia.
        do 2 f_equal. lia.
      * simpl. rewrite length_delete by (by eexists). lia.
      * rewrite firstn_cons, Htake, full_count_empty_cons. lia.
    + replace (Z.of_nat (S n) - 1 - 1) with (Z.of_nat n - 1) by lia.
      rewrite IH by lia.
      rewrite !Nat.add_0_r, <- !app_assoc. simpl.
      by rewrite (drop_S _ _ _ Hrow).
Qed.

Lemma sweep_rows_eq arena :
  wf_arena arena ->
  sweep_rows arena =
    Some (replicate (full_count arena) empty_row
            ++ List.filter not_full arena,
          Z.of_nat (full_count arena)).
Proof.
  intros [Hlen Hrows]. unfold sweep_rows.
  replace (ROWS - 1) with (Z.of_nat (length arena) - 1)
    by (rewrite Hlen; unfold ROWS; lia).
  rewrite sweep_loop_spec.
  - by rewrite firstn_all, skipn_all, app_nil_r.
  - lia.
  - rewrite firstn_all. pose proof (full_count_le arena). lia.
Qed.

Lemma sweep_arena g :
  wf_arena (arena g) ->
  exists g',
    sweep g = Some g' /\
    arena g' =
      replicate (full_count (arena g)) empty_row
        ++ List.filter not_full (arena g).
Proof.
  intros Hwf. unfold sweep. rewrite (sweep_rows_eq _ Hwf).
  eexists. split; [done|]. by destruct (_ >? 0).
Qed.

(** C2.  The loop of [sweep], which walks from the bottom row up and
    looks again at the same index after a removal, ends on every
    well-formed board; a row counts as full exactly when none of its
    cells is empty; the board it leaves consists of one fresh empty row
    per full row (the top row included, consecutive full rows
    included), stacked on top of the rows that were not full, in their
    original order; and the count it yields is the number of full rows
    ([0] when there is none).  The board [sweep] leaves is that
    board. *)
Theorem sweep_rows_clears_full g :
  wf_arena (arena g) ->
  sweep_rows (arena g) =
    Some (replicate (full_count (arena g)) empty_row
            ++ List.filter not_full (arena g),
          Z.of_nat (full_count (arena g)))
  /\ (forall row, row ∈ arena g ->
        row_full row = true <-> Forall (fun v => v <> 0) row)
  /\ (exists g',
        sweep g = Some g' /\
        arena g' =
          replicate (full_count (arena g)) empty_row
            ++ List.filter not_full (arena g)).
Proof.
  intros Hwf. split; [by apply sweep_rows_eq|]. split.
  - intros row Hin. apply row_full_iff. destruct Hwf as [_ Hrows].
    rewrite Forall_forall in Hrows. by apply Hrows.
  - by apply sweep_arena.
Qed.

Lemma sweep_rows_clears_full_witness :
  wf_arena (arena (sample_game bottom_full_board 10)) /\
  sweep_rows bottom_full_board = Some (empty_board, 1).
Proof.
  assert (wf_arena (arena (sample_game bottom_full_board 10))) as Hwf
    by wf_by_computation.
  split; [exact Hwf|].
  change bottom_full_board with (arena (sample_game bottom_full_board 10)).
  rewrite (proj1 (sweep_rows_clears_full _ Hwf)).
  reflexivity.
Defined.

(** Rows 2 and 5 full, the others partial: two rows are cleared, two
    empty rows appear on top, the eighteen others keep their order. *)
Example sweep_rows_two_and_five :
  sweep_rows two_full_board =
  Some ([empty_row; empty_row]
          ++ (marked_row <$> [0; 1; 3; 4]%nat)
          ++ (marked_row <$> seq 6 14),
        2).
Proof. reflexivity. Qed.

(** A full top row is cleared as well; the smaller variant whose loop
    runs while [y > 0] leaves it. *)
Example sweep_rows_top_row :
  sweep_rows (replicate 12 1 :: replicate 19 empty_row)
  = Some (empty_board, 1).
Proof. reflexivity. Qed.

Example legacy_sweep_keeps_top_row :
  Legacy.arenaSweep (replicate 12 1 :: replicate 19 empty_row)
  = Some (replicate 12 1 :: replicate 19 empty_row) /\
  Legacy.arenaSweep bottom_full_board = Some empty_board.
Proof. split; reflexivity. Qed.

Lemma sweep_wf arena arena' n :
  wf_arena arena -> sweep_rows arena = Some (arena', n) -> wf_arena arena'.
Proof.
  intros Hwf Hs. pose proof (sweep_rows_eq arena Hwf) as Heq.
  rewrite Heq in Hs. injection Hs as <- <-.
  destruct Hwf as [Hlen Hrows]. split.
  - rewrite length_app, length_replicate, <- Hlen.
    pose proof (filter_length row_full arena) as H.
    unfold full_count, not_full. lia.
  - apply Forall_app. split.
    + apply Forall_replicate. unfold empty_row. by rewrite length_replicate.
    + rewrite Forall_forall in *. intros row Hin.
      apply list_elem_of_In, filter_In in Hin as [Hin _].
      apply Hrows. by apply list_elem_of_In.
Qed.

(** C7.  When [sweep] clears [k > 0] rows, the score grows by
    [lineScores[k] * (level + 1)] with the table [0, 40, 100, 300, 1200]
    and the level read before the update ([0] for a count outside the
    table), [k] is added to the lines, and the level becomes
    [floor(lines / 10)].  So one row at level 0 gives 40, four rows at
    level 0 give 1200, one row at level 1 gives 80. *)
Theorem sweep_awards_score g :
  wf_arena (arena g) ->
  0 < Z.of_nat (full_count (arena g)) ->
  exists g',
    sweep g = Some g' /\
    score (stats g') =
      score (stats g)
      + nth (full_count (arena g)) [0; 40; 100; 300; 1200] 0
        * (level (stats g) + 1) /\
    lines (stats g') = lines (stats g) + Z.of_nat (full_count (arena g)) /\
    level (stats g') = lines (stats g') / 10 /\
    (level (stats g) = 0 -> full_count (arena g) = 1%nat ->
     score (stats g') = score (stats g) + 40) /\
    (level (stats g) = 0 -> full_count (arena g) = 4%nat ->
     score (stats g') = score (stats g) + 1200) /\
    (level (stats g) = 1 -> full_count (arena g) = 1%nat ->
     score (stats g') = score (stats g) + 80).
Proof.
  intros Hwf Hk. pose proof (sweep_rows_eq _ Hwf) as Heq.
  unfold sweep. rewrite Heq.
  destruct (Z.gtb_spec (Z.of_nat (full_count (arena g))) 0) as [_|]; [|lia].
  eexists. split; [done|]. cbn [stats set_stats award score lines level].
  unfold line_score.
  destruct (Z.ltb_spec (Z.of_nat (full_count (arena g))) 0); [lia|].
  rewrite Nat2Z.id. split; [done|]. split; [done|]. split; [done|].
  split; [|split]; intros -> ->; simpl; lia.
Qed.

Lemma sweep_awards_score_witness :
  wf_arena (arena (sample_game bottom_full_board 10)) /\
  0 < Z.of_nat (full_count (arena (sample_game bottom_full_board 10))) /\
  exists g',
    sweep (sample_game bottom_full_board 10) = Some g' /\
    score (stats g') = 40.
Proof.
  assert (wf_arena (arena (sample_game bottom_full_board 10))) as Hwf
    by wf_by_computation.
  assert (0 < Z.of_nat (full_count (arena (sample_game bottom_full_board 10))))
    as Hk by (vm_compute; reflexivity).
  split; [exact Hwf|]. split; [exact Hk|].
  destruct (sweep_awards_score _ Hwf Hk) as (g' & Hs & Hsc & _).
  exists g'. split; [exact Hs|]. rewrite Hsc. reflexivity.
Defined.

(** ** Rotation *)

Section Square.
Context (n : nat).
Implicit Types m : Matrix.

Lemma square_row m y :
  square n m -> (y < n)%nat ->
  exists row, m !! y = Some row /\ length row = n.
Proof.
  intros [Hlen Hrows] Hy.
  destruct (lookup_lt_is_Some_2 m y) as [row Hrow]; [lia|].
  exists row. split; [done|]. by apply (Forall_lookup_1 _ _ _ _ Hrows Hrow).
Qed.

Lemma square_at2 m y x :
  square n m -> (y < n)%nat -> (x < n)%nat -> is_Some (Js.at2 m y x).
Proof.
  intros Hsq Hy Hx. destruct (square_row m y Hsq Hy) as (row & Hrow & Hlen).
  unfold Js.at2. rewrite Hrow. apply lookup_lt_is_Some_2. lia.
Qed.

Lemma square_ext m1 m2 :
  square n m1 -> square n m2 ->
  (forall i j, (i < n)%nat -> (j < n)%nat -> Js.at2 m1 i j = Js.at2 m2 i j) ->
  m1 = m2.
Proof.
  intros Hs1 Hs2 Heq. apply list_eq. intros i.
  destruct (decide (i < n)%nat) as [Hi|Hi].
  - destruct (square_row m1 i Hs1 Hi) as (r1 & Hr1 & Hl1).
    destruct (square_row m2 i Hs2 Hi) as (r2 & Hr2 & Hl2).
    rewrite Hr1, Hr2. f_equal. apply list_eq. intros j.
    destruct (decide (j < n)%nat) as [Hj|Hj].
    + specialize (Heq i j Hi Hj). unfold Js.at2 in Heq.
      by rewrite Hr1, Hr2 in Heq.
    + rewrite !lookup_ge_None_2; [done|lia|lia].
  - destruct Hs1 as [H1 _], Hs2 as [H2 _].
    rewrite !lookup_ge_None_2; [done|lia|lia].
Qed.

Lemma set2_square m y x v : square n m -> square n (set2 m y x v).
Proof.
  intros [Hlen Hrows]. unfold set2.
  destruct (m !! y) as [row|] eqn:Hrow; [|done]. split.
  - by rewrite length_insert.
  - apply Forall_insert; [done|]. rewrite length_insert.
    by apply (Forall_lookup_1 _ _ _ _ Hrows Hrow).
Qed.

Lemma at2_set2 m y x v i j :
  square n m -> (y < n)%nat -> (x < n)%nat ->
  Js.at2 (set2 m y x v) i j =
  if decide (i = y /\ j = x) then Some v else Js.at2 m i j.
Proof.
  intros Hsq Hy Hx. destruct (square_row m y Hsq Hy) as (row & Hrow & Hlen).
  unfold set2, Js.at2. rewrite Hrow.
  destruct (decide (i = y)) as [->|Hne].
  - rewrite list_lookup_insert_eq by (by eapply lookup_lt_Some).
    destruct (decide (j = x)) as [->|Hne'].
    + rewrite list_lookup_insert_eq by lia. by case_decide; [|tauto].
    + rewrite list_lookup_insert_ne by done. rewrite Hrow.
      by case_decide; [tauto|].
  - rewrite list_lookup_insert_ne by done. by case_decide; [tauto|].
Qed.

Lemma swap_cells_square m x y : square n m -> square n (swap_cells m x y).
Proof.
  intros Hsq. unfold swap_cells. repeat case_match; try done.
  by do 2 apply set2_square.
Qed.

Lemma at2_swap_cells m x y i j :
  square n m -> (x < n)%nat -> (y < n)%nat -> x <> y ->
  Js.at2 (swap_cells m x y) i j =
  if decide (i = x /\ j = y) then Js.at2 m y x
  else if decide (i = y /\ j = x) then Js.at2 m x y
  else Js.at2 m i j.
Proof.
  intros Hsq Hx Hy Hne. unfold swap_cells.
  destruct (square_at2 m y x Hsq Hy Hx) as [a Ha].
  destruct (square_at2 m x y Hsq Hx Hy) as [b Hb].
  rewrite Ha, Hb.
  rewrite at2_set2 by (try apply set2_square; done).
  rewrite at2_set2 by done.
  repeat case_decide; try done; lia.
Qed.

Lemma transpose_row_spec m y k :
  square n m -> (y < n)%nat -> (k <= y)%nat ->
  square n (fold_left (fun m' x => swap_cells m' x y) (seq 0 k) m) /\
  forall i j,
    Js.at2 (fold_left (fun m' x => swap_cells m' x y) (seq 0 k) m) i j =
    if decide ((j = y /\ i < k)%nat \/ (i = y /\ j < k)%nat)
    then Js.at2 m j i else Js.at2 m i j.
Proof.
  intros Hsq Hy. induction k as [|k IH]; intros Hk.
  - split; [done|]. intros i j. by case_decide; [lia|].
  - rewrite seq_S, fold_left_app.
    destruct IH as [Hsq' Hat]; [lia|]. split.
    + by apply swap_cells_square.
    + intros i j. cbn [fold_left]. rewrite at2_swap_cells by (done || lia).
      rewrite !Hat. change (0 + k)%nat with k.
      repeat case_decide; try done; try lia.
      all: destruct_and?; destruct_or?; destruct_and?; subst; try done; lia.
Qed.

Lemma transpose_spec_upto m k :
  square n m -> (k <= n)%nat ->
  square n (fold_left transpose_row (seq 0 k) m) /\
  forall i j,
    Js.at2 (fold_left transpose_row (seq 0 k) m) i j =
    if decide (i < k /\ j < k)%nat then Js.at2 m j i else Js.at2 m i j.
Proof.
  intros Hsq. induction k as [|k IH]; intros Hk.
  - split; [done|]. intros i j. by case_decide; [lia|].
  - rewrite seq_S, fold_left_app.
    destruct IH as [Hsq' Hat]; [lia|]. cbn [fold_left].
    change (0 + k)%nat with k. unfold transpose_row at 1 3.
    destruct (transpose_row_spec _ k k Hsq') as [Hsq2 Hat2]; [lia|lia|].
    split; [done|]. intros i j. rewrite Hat2, !Hat.
    repeat case_decide; try done; try lia.
    all: try (assert (i = j) as -> by lia; done).
Qed.

Lemma transpose_square m : square n m -> square n (transpose m).
Proof.
  intros Hsq. unfold transpose. destruct Hsq as [Hlen Hrows].
  rewrite Hlen. by apply transpose_spec_upto.
Qed.

Lemma at2_transpose m i j :
  square n m -> Js.at2 (transpose m) i j = Js.at2 m j i.
Proof.
  intros Hsq. unfold transpose. destruct (Hsq) as [Hlen Hrows].
  rewrite Hlen. destruct (transpose_spec_upto m n Hsq) as [_ ->]; [lia|].
  case_decide as Hij; [done|].
  unfold Js.at2.
  destruct (decide (i < n)%nat) as [Hi|Hi].
  - destruct (square_row m i Hsq Hi) as (row & -> & Hl).
    rewrite (lookup_ge_None_2 row j) by lia.
    by rewrite (lookup_ge_None_2 m j) by lia.
  - rewrite (lookup_ge_None_2 m i) by lia.
    destruct (m !! j) as [row|] eqn:Hrow; [|done].
    rewrite lookup_ge_None_2; [done|].
    rewrite (Forall_lookup_1 _ _ _ _ Hrows Hrow). lia.
Qed.
End Square.

Lemma rotateMatrix_square n m dir :
  square n m -> square n (rotateMatrix m dir).
Proof.
  intros Hsq. apply transpose_square in Hsq as [Hlen Hrows].
  unfold rotateMatrix. destruct (0 <? dir); split.
  - by rewrite length_fmap.
  - apply Forall_fmap. eapply Forall_impl; [done|].
    intros row Hrow. simpl. by rewrite length_reverse.
  - by rewrite length_reverse.
  - by apply Forall_reverse.
Qed.

Lemma at2_rotateMatrix n m dir i j :
  square n m -> (i < n)%nat -> (j < n)%nat ->
  Js.at2 (rotateMatrix m dir) i j =
  if 0 <? dir then Js.at2 m (n - S j) i else Js.at2 m j (n - S i).
Proof.
  intros Hsq Hi Hj. pose proof (transpose_square n m Hsq) as Hsqt.
  unfold rotateMatrix. destruct (0 <? dir).
  - rewrite <- (at2_transpose n m i (n - S j) Hsq).
    destruct (square_row n _ i Hsqt Hi) as (row & Hrow & Hlen).
    unfold Js.at2. rewrite list_lookup_fmap, Hrow. simpl.
    rewrite reverse_lookup by lia. by rewrite Hlen.
  - rewrite <- (at2_transpose n m (n - S i) j Hsq).
    unfold Js.at2. destruct Hsqt as [Hlen _].
    rewrite reverse_lookup by lia. by rewrite Hlen.
Qed.

(** C8.  On every square matrix, four rotations in the same direction
    give the matrix back.  One rotation is the in-place exchange of
    [m[x][y]] and [m[y][x]] below the diagonal, which is the
    transposition, followed by the reversal of each row (clockwise,
    [dir > 0]) or of the order of the rows (counter-clockwise). *)
Theorem rotateMatrix_order_four n m dir :
  square n m ->
  rotate4 m dir = m /\
  (forall i j, Js.at2 (transpose m) i j = Js.at2 m j i) /\
  rotateMatrix m dir =
    (if 0 <? dir then reverse <$> transpose m else reverse (transpose m)).
Proof.
  intros Hsq. split; [|split; [intros; by eapply at2_transpose|done]].
  pose proof (rotateMatrix_square n m dir Hsq) as H1.
  pose proof (rotateMatrix_square n _ dir H1) as H2.
  pose proof (rotateMatrix_square n _ dir H2) as H3.
  pose proof (rotateMatrix_square n _ dir H3) as H4.
  apply (square_ext n); [done|done|]. intros i j Hi Hj. unfold rotate4.
  rewrite (at2_rotateMatrix n) by done.
  destruct (0 <? dir) eqn:Hdir.
  - rewrite (at2_rotateMatrix n), Hdir by (done || lia).
    rewrite (at2_rotateMatrix n), Hdir by (done || lia).
    rewrite (at2_rotateMatrix n), Hdir by (done || lia).
    f_equal; lia.
  - rewrite (at2_rotateMatrix n), Hdir by (done || lia).
    rewrite (at2_rotateMatrix n), Hdir by (done || lia).
    rewrite (at2_rotateMatrix n), Hdir by (done || lia).
    f_equal; lia.
Qed.

Lemma rotateMatrix_order_four_witness :
  square 3 (createPiece kT) /\ rotate4 (createPiece kT) 1 = createPiece kT.
Proof.
  assert (square 3 (createPiece kT)) as Hsq
    by (split; [reflexivity | repeat constructor]).
  split; [exact Hsq|].
  exact (proj1 (rotateMatrix_order_four 3 (createPiece kT) 1 Hsq)).
Defined.

(** One clockwise and one counter-clockwise turn of the T piece. *)
Example rotateMatrix_T :
  rotateMatrix (createPiece kT) 1 = [[0;1;0];[0;1;1];[0;1;0]] /\
  rotateMatrix (createPiece kT) (-1) = [[0;1;0];[1;1;0];[0;1;0]].
Proof. split; reflexivity. Qed.

(** ** Rotation with kicks *)

Lemma try_kicks_first arena x y m pre k post :
  Forall (fun k' => ~ kick_free arena x y m k') pre ->
  kick_free arena x y m k ->
  try_kicks arena x y m (pre ++ k :: post) = Some (x + k).
Proof.
  unfold kick_free, Js.Math_round. intros Hpre Hk.
  induction Hpre as [|k' pre Hk' _ IH]; simpl.
  - unfold Js.Math_round. by rewrite Hk.
  - unfold Js.Math_round.
    destruct (collide arena (x + k') y m) eqn:E; [done|]. by destruct Hk'.
Qed.

Lemma try_kicks_none arena x y m ks :
  Forall (fun k' => ~ kick_free arena x y m k') ks ->
  try_kicks arena x y m ks = None.
Proof.
  unfold kick_free. intros Hks.
  induction Hks as [|k' pre Hk' _ IH]; simpl; [done|].
  unfold Js.Math_round.
  destruct (collide arena (x + k') y m) eqn:E; [done|]. by destruct Hk'.
Qed.

(** C9.  [rotatePlayer] rotates the shape and tries the column offsets
    [0, +1, -1, +2, -2] in this order on the unchanged row.  The first
    offset at which the rotated shape does not collide is taken: the
    piece gets the rotated shape and the shifted column, the lock timer
    is set to [0] and the ground flag is cleared.  When every offset
    collides, the whole state, shape and position included, is what it
    was before the call. *)
Theorem rotatePlayer_kicks dir g old :
  wf_arena (arena g) ->
  matrix (player g) = Some old ->
  kicks = [0; 1; -1; 2; -2] /\
  (forall pre k post,
     kicks = pre ++ k :: post ->
     Forall (fun k' => ~ kick_free (arena g) (pos_x (player g))
                         (pos_y (player g)) (rotateMatrix old dir) k') pre ->
     kick_free (arena g) (pos_x (player g)) (pos_y (player g))
       (rotateMatrix old dir) k ->
     rotatePlayer dir g =
     set_timing (set_lock 0 false (timing g))
       (set_player
          (mkPlayer (pos_x (player g) + k) (pos_y (player g))
             (Some (rotateMatrix old dir)) (id (player g))) g)) /\
  (Forall (fun k' => ~ kick_free (arena g) (pos_x (player g))
                       (pos_y (player g)) (rotateMatrix old dir) k') kicks ->
   rotatePlayer dir g = g).
Proof.
  intros _ Hm. split; [done|]. split.
  - intros pre k post Hks Hpre Hk. unfold rotatePlayer. rewrite Hm, Hks.
    by rewrite (try_kicks_first _ _ _ _ pre k post Hpre Hk).
  - intros Hall. unfold rotatePlayer. rewrite Hm.
    rewrite (try_kicks_none _ _ _ _ _ Hall).
    destruct g as [a [x y mx i] r hp hu st t d go pa to]. simpl in *.
    by subst.
Qed.

Lemma rotatePlayer_kicks_witness :
  wf_arena (arena (sample_game empty_board 18)) /\
  matrix (player (sample_game empty_board 18)) = Some (spawn_matrix kO) /\
  pos_x (player (rotatePlayer 1 (sample_game empty_board 18))) = 5.
Proof.
  assert (wf_arena (arena (sample_game empty_board 18))) as Hwf
    by wf_by_computation.
  split; [exact Hwf|]. split; [reflexivity|].
  destruct (rotatePlayer_kicks 1 (sample_game empty_board 18)
              (spawn_matrix kO) Hwf eq_refl) as (_ & Hfirst & _).
  rewrite (Hfirst [] 0 [1; -1; 2; -2] eq_refl).
  - reflexivity.
  - constructor.
  - reflexivity.
Defined.

(** An I piece standing upright against the left wall is kicked two
    columns to the right when it turns. *)
Example rotatePlayer_wall_kick :
  let g := set_player
             (mkPlayer (-2) 5
                (Some [[0;0;1;0];[0;0;1;0];[0;0;1;0];[0;0;1;0]]) 1)
             (sample_game empty_board 5) in
  pos_x (player (rotatePlayer 1 g)) = 0 /\
  matrix (player (rotatePlayer 1 g))
    = Some [[0;0;0;0];[0;0;0;0];[1;1;1;1];[0;0;0;0]].
Proof. split; reflexivity. Qed.

(** ** The 7-bag randomizer *)

Lemma Unit01_range (u : Unit01) : (0 <= u_val u)%Q /\ (u_val u < 1)%Q.
Proof.
  pose proof (u_range u) as H. apply andb_true_iff in H as [H0 H1].
  apply Qle_bool_iff in H0. apply negb_true_iff in H1.
  split; [done|]. apply Qnot_le_lt. intros Hle.
  apply Qle_bool_iff in Hle. congruence.
Qed.

Lemma random_below_lt random c n :
  (0 < n)%nat -> (random_below random c n < n)%nat.
Proof.
  intros Hn. unfold random_below.
  destruct (Unit01_range (random c)) as [H0 H1].
  set (u := u_val (random c)) in *.
  set (x := (u * inject_Z (Z.of_nat n))%Q).
  assert (0 < inject_Z (Z.of_nat n))%Q as Hpos.
  { change 0%Q with (inject_Z 0). rewrite <- Zlt_Qlt. lia. }
  assert (x < inject_Z (Z.of_nat n))%Q as Hx by (unfold x; nra).
  pose proof (Qfloor_le x) as Hfl.
  assert (inject_Z (Qfloor x) < inject_Z (Z.of_nat n))%Q as Hlt by lra.
  rewrite <- Zlt_Qlt in Hlt. lia.
Qed.

Lemma swap_perm {A} (l : list A) i j : swap l i j ≡ₚ l.
Proof.
  unfold swap. destruct (l !! i) as [a|] eqn:Hi; [|done].
  destruct (l !! j) as [b|] eqn:Hj; [|done].
  by apply Permutation_insert_swap.
Qed.

Lemma shuffle_loop_perm random c b i :
  (shuffle_loop random c b i).1 ≡ₚ b /\
  (shuffle_loop random c b i).2 = (c + i)%nat.
Proof.
  revert c b. induction i as [|i IH]; intros c b; cbn [shuffle_loop].
  - split; [done|]. simpl. lia.
  - destruct (IH (S c) (swap b (S i) (random_below random c (S i + 1))))
      as [Hp Hc].
    split; [|rewrite Hc; lia]. rewrite Hp. apply swap_perm.
Qed.

(** Every swap of the shuffle stays inside the bag. *)
Lemma shuffle_index_in_range random c i :
  (random_below random c (i + 1) <= i)%nat.
Proof. pose proof (random_below_lt random c (i + 1)). lia. Qed.

Lemma shuffleBag_perm random c :
  (shuffleBag random c).1 ≡ₚ all_kinds /\
  (shuffleBag random c).2 = (c + 6)%nat.
Proof. unfold shuffleBag. apply shuffle_loop_perm. Qed.

Lemma shuffleBag_length random c : length (shuffleBag random c).1 = 7%nat.
Proof.
  destruct (shuffleBag_perm random c) as [Hp _].
  by rewrite Hp.
Qed.

(** Inside a bag, an iteration pushes the element under the index. *)
Lemma refill_step_inside r b k :
  bag r = Some b -> b !! index r = Some k ->
  refill_step r =
  mkRandomizer (nextQueue r ++ [k]) (Some b) (S (index r)) (random r)
    (calls r).
Proof.
  intros Hb Hk. unfold refill_step. rewrite Hb.
  apply lookup_lt_Some in Hk as Hlt.
  destruct (Nat.leb_spec (length b) (index r)); [lia|]. by rewrite Hk.
Qed.

(** At a boundary, an iteration shuffles a new bag and pushes its head. *)
Lemma refill_step_boundary r :
  at_boundary r ->
  exists k,
    (shuffleBag (random r) (calls r)).1 !! 0%nat = Some k /\
    refill_step r =
    mkRandomizer (nextQueue r ++ [k])
      (Some (shuffleBag (random r) (calls r)).1) 1 (random r)
      (shuffleBag (random r) (calls r)).2.
Proof.
  intros Hb. pose proof (shuffleBag_length (random r) (calls r)) as Hlen.
  destruct (lookup_lt_is_Some_2 (shuffleBag (random r) (calls r)).1 0)
    as [k Hk]; [lia|].
  exists k. split; [done|]. unfold refill_step, at_boundary in *.
  destruct (bag r) as [b|].
  - destruct (Nat.leb_spec (length b) (index r)); [|lia].
    destruct (shuffleBag (random r) (calls r)) as [b' c'] eqn:E.
    simpl in *. by rewrite Hk.
  - destruct (shuffleBag (random r) (calls r)) as [b' c'] eqn:E.
    simpl in *. by rewrite Hk.
Qed.

(** Draining a bag that has [n] elements left from index [i]. *)
Lemma refill_drain n r b :
  bag r = Some b -> (index r + n = length b)%nat ->
  Nat.iter n refill_step r =
  mkRandomizer (nextQueue r ++ drop (index r) b) (Some b) (length b)
    (random r) (calls r).
Proof.
  revert r. induction n as [|n IH]; intros r Hb Hlen.
  - simpl. rewrite drop_ge, app_nil_r by lia.
    replace (length b) with (index r) by lia. rewrite <- Hb. by destruct r.
  - rewrite Nat.iter_succ_r.
    destruct (lookup_lt_is_Some_2 b (index r)) as [k Hk]; [lia|].
    rewrite (refill_step_inside r b k Hb Hk), IH; simpl; [|done|lia].
    rewrite <- app_assoc. simpl. by rewrite (drop_S _ _ _ Hk).
Qed.

(** Seven iterations from a boundary hand out one whole fresh bag. *)
Lemma refill_whole_bag r :
  at_boundary r ->
  Nat.iter 7 refill_step r =
  mkRandomizer (nextQueue r ++ (shuffleBag (random r) (calls r)).1)
    (Some (shuffleBag (random r) (calls r)).1) 7 (random r)
    (shuffleBag (random r) (calls r)).2.
Proof.
  intros Hb. change 7%nat with (S 6) at 1. rewrite Nat.iter_succ_r.
  destruct (refill_step_boundary r Hb) as (k & Hk & ->).
  pose proof (shuffleBag_length (random r) (calls r)) as Hlen.
  rewrite (refill_drain 6 _ (shuffleBag (random r) (calls r)).1);
    cbn [bag index nextQueue random calls]; [|done|by rewrite Hlen].
  rewrite Hlen, <- app_assoc. cbn [app].
  by rewrite <- (drop_S _ _ 0 Hk), drop_0.
Qed.

Lemma bags_perm random c k :
  Forall (fun b => b ≡ₚ all_kinds) (bags random c k).
Proof.
  revert c. induction k as [|k IH]; intros c; simpl; constructor.
  - apply shuffleBag_perm.
  - apply IH.
Qed.

Lemma bags_length random c k : length (bags random c k) = k.
Proof.
  revert c. induction k as [|k IH]; intros c; simpl; [done|].
  by rewrite IH.
Qed.

Lemma refill_bags k r :
  at_boundary r ->
  at_boundary (Nat.iter (7 * k) refill_step r) /\
  nextQueue (Nat.iter (7 * k) refill_step r) =
    nextQueue r ++ concat (bags (random r) (calls r) k).
Proof.
  revert r. induction k as [|k IH]; intros r Hb.
  - simpl. by rewrite app_nil_r.
  - replace (7 * S k)%nat with (7 * k + 7)%nat by lia.
    rewrite Nat.iter_add, (refill_whole_bag r Hb).
    set (r1 := mkRandomizer _ _ _ _ _).
    assert (at_boundary r1) as Hb1.
    { unfold at_boundary, r1. cbn [bag index].
      by rewrite shuffleBag_length. }
    destruct (IH r1 Hb1) as [Hb' Hq]. split; [done|].
    rewrite Hq. unfold r1. cbn [nextQueue random calls bags concat].
    by rewrite <- app_assoc.
Qed.

Lemma refill_step_queue r :
  exists l, nextQueue (refill_step r) = nextQueue r ++ l.
Proof.
  unfold refill_step. repeat case_match; simpl;
    (by eexists [_]) || (exists []; by rewrite app_nil_r).
Qed.

Lemma refill_iter_queue n r :
  exists l, nextQueue (Nat.iter n refill_step r) = nextQueue r ++ l.
Proof.
  induction n as [|n [l IH]]; simpl.
  - exists []. by rewrite app_nil_r.
  - destruct (refill_step_queue (Nat.iter n refill_step r)) as [l' Hl'].
    exists (l ++ l'). by rewrite Hl', IH, app_assoc.
Qed.

Lemma concat_block {A} (bs : list (list A)) k b :
  Forall (fun b' => length b' = 7%nat) bs ->
  bs !! k = Some b ->
  forall rest, take 7 (drop (7 * k) (concat bs ++ rest)) = b.
Proof.
  intros Hlen. revert k. induction Hlen as [|b0 bs Hb0 Hbs IH];
    intros k Hk rest; [done|].
  destruct k as [|k]; simpl in Hk.
  - injection Hk as ->. cbn [concat]. rewrite <- app_assoc.
    change (7 * 0)%nat with 0%nat. rewrite drop_0.
    rewrite take_app_length'; done.
  - cbn [concat]. rewrite <- app_assoc.
    replace (7 * S k)%nat with (length b0 + 7 * k)%nat by lia.
    rewrite <- drop_drop, drop_app_length. by apply IH.
Qed.

Lemma bags_lengths random c k :
  Forall (fun b => length b = 7%nat) (bags random c k).
Proof.
  eapply Forall_impl; [apply bags_perm|]. by intros b ->.
Qed.

(** Fourteen draws from a boundary are exactly the next two bags. *)
Lemma draws_two_bags r :
  at_boundary r ->
  draws 14 r =
  (shuffleBag (random r) (calls r)).1
    ++ (shuffleBag (random r) (calls r + 6)).1.
Proof.
  intros Hb. unfold draws. destruct (refill_bags 2 r Hb) as [_ Hq].
  change (7 * 2)%nat with 14%nat in Hq. rewrite Hq, drop_app_length.
  cbn [bags concat]. rewrite app_nil_r.
  by destruct (shuffleBag_perm (random r) (calls r)) as [_ ->].
Qed.

Lemma draws_bags r k n :
  at_boundary r -> (7 * k <= n)%nat ->
  exists rest, draws n r = concat (bags (random r) (calls r) k) ++ rest.
Proof.
  intros Hb Hn. unfold draws.
  replace n with ((n - 7 * k) + 7 * k)%nat by lia.
  rewrite Nat.iter_add.
  destruct (refill_iter_queue (n - 7 * k) (Nat.iter (7 * k) refill_step r))
    as [rest ->].
  destruct (refill_bags k r Hb) as [_ ->]. exists rest.
  by rewrite <- app_assoc, drop_app_length.
Qed.

(** The loop of the first declaration of [refillQueue] is a 7-bag.
    From a bag boundary on, the [k]-th run of seven kinds it pushes is a
    permutation of the seven kinds, so no kind occurs twice in it,
    whatever [Math.random] answers; fourteen are two such permutations
    one after the other, each shuffled from its own six calls of
    [Math.random].  Nothing ties a bag to the next one: there is a
    source of randomness for which the last kind of a bag and the first
    kind of the next are the same. *)
Theorem seven_bag_blocks r k n :
  at_boundary r -> (7 * (k + 1) <= n)%nat ->
  take 7 (drop (7 * k) (draws n r)) ≡ₚ all_kinds /\
  NoDup (take 7 (drop (7 * k) (draws n r))) /\
  (exists b1 b2, draws 14 r = b1 ++ b2 /\
                 b1 = (shuffleBag (random r) (calls r)).1 /\
                 b2 = (shuffleBag (random r) (calls r + 6)).1 /\
                 b1 ≡ₚ all_kinds /\ b2 ≡ₚ all_kinds) /\
  (exists r', at_boundary r' /\
     draws 14 r' !! 6%nat = Some kZ /\ draws 14 r' !! 7%nat = Some kZ).
Proof.
  intros Hb Hn.
  assert (forall k' n', (7 * (k' + 1) <= n')%nat ->
            take 7 (drop (7 * k') (draws n' r)) ≡ₚ all_kinds) as Hblock.
  { intros k' n' Hn'.
    destruct (draws_bags r (k' + 1) n' Hb Hn') as [rest ->].
    pose proof (bags_perm (random r) (calls r) (k' + 1)) as Hperm.
    destruct (lookup_lt_is_Some_2 (bags (random r) (calls r) (k' + 1)) k')
      as [b Hk]; [rewrite bags_length; lia|].
    rewrite (concat_block _ k' b); [|by apply bags_lengths|done].
    by apply (Forall_lookup_1 _ _ _ _ Hperm Hk). }
  split; [by apply Hblock|]. split.
  - rewrite (Hblock k n Hn). apply NoDup_ListNoDup.
    repeat constructor; simpl; intuition congruence.
  - split.
    + exists (shuffleBag (random r) (calls r)).1,
             (shuffleBag (random r) (calls r + 6)).1.
      split; [by apply draws_two_bags|]. do 2 (split; [done|]).
      split; apply shuffleBag_perm.
    + exists (mkRandomizer [] None 0 repeat_across 0).
      split; [done|]. by vm_compute.
Qed.

Lemma seven_bag_blocks_witness :
  at_boundary (mkRandomizer [] None 0 repeat_across 0) /\
  (7 * (1 + 1) <= 14)%nat /\
  take 7 (drop 7 (draws 14 (mkRandomizer [] None 0 repeat_across 0)))
    ≡ₚ all_kinds.
Proof.
  assert (7 * (1 + 1) <= 14)%nat as Hn by (vm_compute; lia).
  split; [exact I|]. split; [exact Hn|].
  exact (proj1 (seven_bag_blocks (mkRandomizer [] None 0 repeat_across 0)
                  1 14 I Hn)).
Defined.

(** The fourteen draws of that source. *)
Example draws_repeat_across :
  draws 14 (mkRandomizer [] None 0 repeat_across 0)
  = [kI; kL; kJ; kO; kT; kS; kZ; kZ; kL; kJ; kO; kT; kS; kI].
Proof. reflexivity. Qed.

(** Iterations of that loop that stay inside the bag. *)
Lemma refill_partial n r b :
  bag r = Some b -> (index r + n <= length b)%nat ->
  Nat.iter n refill_step r =
  mkRandomizer (nextQueue r ++ take n (drop (index r) b)) (Some b)
    (index r + n) (random r) (calls r).
Proof.
  revert r. induction n as [|n IH]; intros r Hb Hn.
  - cbn. rewrite app_nil_r, Nat.add_0_r. by destruct r; cbn in *; subst.
  - rewrite Nat.iter_succ_r.
    destruct (lookup_lt_is_Some_2 b (index r)) as [k Hk]; [lia|].
    rewrite (refill_step_inside r b k Hb Hk), IH; cbn; [|done|lia].
    rewrite <- app_assoc, (drop_S _ _ _ Hk). cbn. f_equal. lia.
Qed.

(** The first declaration, called on the empty queue without a bag,
    pushes the first five kinds of a fresh bag. *)
Lemma refill_fresh rnd c :
  Shadowed.refillQueue (mkRandomizer [] None 0 rnd c)
  = mkRandomizer (take 5 (shuffleBag rnd c).1) (Some (shuffleBag rnd c).1) 5
      rnd (c + 6).
Proof.
  pose proof (shuffleBag_length rnd c) as Hlen.
  pose proof (shuffleBag_perm rnd c) as [_ Hcalls].
  set (b := (shuffleBag rnd c).1) in *.
  unfold Shadowed.refillQueue. cbn [nextQueue length QUEUE_SIZE Nat.sub].
  rewrite Nat.iter_succ_r.
  destruct (refill_step_boundary (mkRandomizer [] None 0 rnd c) I)
    as (k & Hk & ->).
  cbn [random calls nextQueue app] in *. fold b in Hk |- *.
  rewrite Hcalls.
  rewrite (refill_partial 4 _ b); [|done|cbn [index]; lia].
  cbn [nextQueue index random calls]. f_equal.
  destruct b as [|k0 b']; [done|]. cbn in Hk. injection Hk as <-.
  by cbn.
Qed.

Lemma spawnPlayer_empty_queue g :
  nextQueue (rand g) = [] -> spawnPlayer g = None.
Proof. intros Hq. unfold spawnPlayer, refillQueue. by rewrite Hq. Qed.

(** C4.  The script draws no kind at all.  The function the name
    [refillQueue] is bound to has an empty body, so a call leaves the
    queue as it is, and so does the start of the script with its three
    calls; the queue starts empty, and from the empty queue
    [spawnPlayer] raises a TypeError instead of handing out a piece.
    The 7-bag is there, in the first declaration, which no call
    reaches: called on the empty queue it would push the first five
    kinds of a freshly shuffled bag, all different. *)
Theorem refillQueue_draws_nothing :
  (forall r, refillQueue r = r) /\
  (forall r, nextQueue (startup r) = nextQueue r) /\
  (forall g, nextQueue (rand g) = [] -> spawnPlayer g = None) /\
  (forall rnd c,
     nextQueue (Shadowed.refillQueue (mkRandomizer [] None 0 rnd c))
     = take 5 (shuffleBag rnd c).1 /\
     NoDup (take 5 (shuffleBag rnd c).1)).
Proof.
  split; [done|]. split; [done|].
  split; [exact spawnPlayer_empty_queue|].
  intros rnd c. rewrite refill_fresh. split; [done|].
  destruct (shuffleBag_perm rnd c) as [Hp _].
  eapply sublist_NoDup; [|apply sublist_take]. rewrite Hp.
  apply NoDup_ListNoDup.
  repeat (constructor; [simpl; intuition discriminate|]). constructor.
Qed.

Lemma refillQueue_draws_nothing_witness :
  nextQueue (rand (sample_game empty_board 0)) = [] /\
  spawnPlayer (sample_game empty_board 0) = None.
Proof.
  split; [reflexivity|].
  apply (proj1 (proj2 (proj2 refillQueue_draws_nothing))). reflexivity.
Defined.

(** The start of the script with the queue and the bag as the script
    declares them: the queue stays empty, the first [spawnPlayer]
    throws, and no piece is ever handed out.  Had the first declaration
    been the one called, the queue would hold five kinds. *)
Example startup_draws_nothing :
  let r0 := mkRandomizer [] None 0 repeat_across 0 in
  let g := set_rand (startup r0) (sample_game empty_board 0) in
  nextQueue (rand g) = [] /\
  spawnPlayer g = None /\
  spawn_ids 7 g = [] /\
  nextQueue (Shadowed.refillQueue r0) = [kI; kL; kJ; kO; kT].
Proof. by vm_compute. Qed.

(** ** Spawn and game over *)

Lemma refill_step_push r :
  exists k, nextQueue (refill_step r) = nextQueue r ++ [k].
Proof.
  destruct (bag r) as [b|] eqn:Hb.
  - destruct (decide (length b <= index r)%nat) as [Hle|Hgt].
    + destruct (refill_step_boundary r) as (k & _ & ->).
      { unfold at_boundary. by rewrite Hb. }
      by exists k.
    + destruct (lookup_lt_is_Some_2 b (index r)) as [k Hk]; [lia|].
      rewrite (refill_step_inside r b k Hb Hk). by exists k.
  - destruct (refill_step_boundary r) as (k & _ & ->).
    { unfold at_boundary. by rewrite Hb. }
    by exists k.
Qed.

Lemma refill_iter_length n r :
  length (nextQueue (Nat.iter n refill_step r)) =
  (length (nextQueue r) + n)%nat.
Proof.
  induction n as [|n IH]; simpl; [lia|].
  destruct (refill_step_push (Nat.iter n refill_step r)) as [k ->].
  rewrite length_app, IH. simpl. lia.
Qed.

Lemma createPiece_rows type :
  exists row0 rest, createPiece type = row0 :: rest.
Proof. destruct type; simpl; eauto. Qed.

Lemma spawn_free_on_empty_board type :
  collide (createMatrix COLS ROWS) (spawn_x type) (-1) (spawn_matrix type)
  = false.
Proof. by destruct type. Qed.

Lemma zero_rows (rows : Matrix) (w : nat) :
  Forall (fun row => length row = w) rows ->
  map (map (fun _ => 0)) rows = replicate (length rows) (replicate w 0).
Proof.
  induction 1 as [|row rows Hrow _ IH]; cbn [map length replicate]; [done|].
  rewrite IH. f_equal. rewrite <- Hrow. clear.
  induction row as [|v row IH]; cbn [map length replicate]; [done|].
  by rewrite IH.
Qed.

Lemma clear_arena_wf arena :
  wf_arena arena -> clear_arena arena = Some (createMatrix COLS ROWS).
Proof.
  intros [Hlen Hrows]. unfold clear_arena.
  destruct (Nat.ltb_spec (length arena) (Z.to_nat ROWS)); [lia|].
  rewrite <- Hlen, firstn_all, skipn_all, app_nil_r. f_equal.
  unfold createMatrix. rewrite <- Hlen. by apply zero_rows.
Qed.

Lemma createMatrix_wf : wf_arena (createMatrix COLS ROWS).
Proof.
  unfold createMatrix. split.
  - by rewrite length_replicate.
  - apply Forall_replicate. by rewrite length_replicate.
Qed.

(** [spawnPlayer] in closed form: a TypeError on the empty queue,
    otherwise the head of the queue at the spawn position, with the
    rest of the queue left as it is. *)
Lemma spawnPlayer_cases g :
  spawnPlayer g =
  match nextQueue (rand g) with
  | [] => None
  | type :: q =>
      let g1 := spawned type (set_queue q (rand g)) g in
      Some (if collide (arena g) (spawn_x type) (-1) (spawn_matrix type)
            then set_timeouts (timeouts g ++ [800%float])
                   (set_gameOver true g1)
            else g1)
  end.
Proof.
  unfold spawnPlayer, refillQueue.
  destruct (nextQueue (rand g)) as [|type q]; [done|].
  unfold spawned, spawn_x, spawn_matrix.
  destruct (createPiece_rows type) as (row0 & rest & Hrows).
  rewrite Hrows. cbn [stamp fmap list_fmap].
  rewrite length_fmap. unfold Js.Math_floor.
  cbn [arena timeouts set_timing set_hold set_player set_rand].
  by destruct (collide _ _ _ _).
Qed.


Lemma update_game_over g time now :
  gameOver g = true ->
  update time now g = Some (set_timing (set_lastTime time (timing g)) g).
Proof.
  intros Hgo. unfold update. cbn [gameOver paused set_timing].
  by rewrite Hgo, andb_false_r.
Qed.

Lemma moveOnce_game_over g dir : gameOver g = true -> moveOnce dir g = g.
Proof.
  intros Hgo. unfold moveOnce. rewrite Hgo, orb_true_r.
  by destruct (matrix (player g)).
Qed.

Lemma hardDrop_game_over g : gameOver g = true -> hardDrop g = Some g.
Proof.
  intros Hgo. unfold hardDrop. rewrite Hgo, orb_true_l.
  by destruct (matrix (player g)).
Qed.

Lemma holdSwap_game_over g : gameOver g = true -> holdSwap g = Some g.
Proof.
  intros Hgo. unfold holdSwap. rewrite Hgo, orb_true_r, orb_true_l.
  by destruct (matrix (player g)).
Qed.




(** Spawning the waiting O piece onto a board whose top row is taken
    ends the game and sets the timer; the reset of that timer throws.
    In the lost game the rotation key turns a T piece all the same. *)
Example spawn_game_over :
  let top := <[0%nat := replicate 12 1]> empty_board in
  let g := stocked_game [kO] top 18 in
  (gameOver <$> spawnPlayer g) = Some true /\
  (timeouts <$> spawnPlayer g) = Some [800%float] /\
  (spawnPlayer g ≫= step TimerFires) = None /\
  (let h := set_gameOver true
              (set_player (mkPlayer 4 5 (Some (spawn_matrix kT)) 3)
                 (sample_game empty_board 5)) in
   (matrix ∘ player <$> step KeyRotate h)
   = Some (Some [[0;3;0];[0;3;3];[0;3;0]])).
Proof. by vm_compute. Qed.

(** X26.  With a kind waiting, [spawnPlayer] succeeds and takes the
    head of the queue, leaving the rest of the queue as it is.  The new
    piece is stamped with its identifier; its column is
    [floor(COLS / 2) - floor(width / 2)] for the width of its first row,
    its row is [-1], one above the top of the board; the hold-used
    flag, the lock timer and the ground flag are cleared; board and
    score are untouched.  When that position collides, the game-over
    flag is set and a reset is scheduled 800 ms later; while the flag is
    set a frame only records its time stamp and moves, hard drops and
    holds do nothing.  Otherwise flag and timers stay as they were. *)
Theorem spawnPlayer_spawns g type q :
  nextQueue (rand g) = type :: q ->
  exists g' row0 rest,
    spawnPlayer g = Some g' /\
    createPiece type = row0 :: rest /\
    player g' =
      mkPlayer (COLS / 2 - Z.of_nat (length row0) / 2) (-1)
        (Some (spawn_matrix type)) (PIECE_IDS type) /\
    nextQueue (rand g') = q /\
    holdUsed g' = false /\
    lockTimer (timing g') = 0%float /\
    onGround (timing g') = false /\
    arena g' = arena g /\
    stats g' = stats g /\
    (collide (arena g) (pos_x (player g')) (-1) (spawn_matrix type) = false ->
     gameOver g' = gameOver g /\ timeouts g' = timeouts g) /\
    (collide (arena g) (pos_x (player g')) (-1) (spawn_matrix type) = true ->
     gameOver g' = true /\
     timeouts g' = timeouts g ++ [800%float] /\
     (forall time now,
        update time now g' =
        Some (set_timing (set_lastTime time (timing g')) g')) /\
     (forall dir, moveOnce dir g' = g') /\
     hardDrop g' = Some g' /\
     holdSwap g' = Some g').
Proof.
  intros Hq. pose proof (spawnPlayer_cases g) as Hs. rewrite Hq in Hs.
  destruct (createPiece_rows type) as (row0 & rest & Hrows).
  assert (spawn_x type = COLS / 2 - Z.of_nat (length row0) / 2) as Hx.
  { unfold spawn_x. by rewrite Hrows. }
  cbv zeta in Hs. set (g1 := spawned type _ g) in Hs.
  assert (player g1 =
          mkPlayer (COLS / 2 - Z.of_nat (length row0) / 2) (-1)
            (Some (spawn_matrix type)) (PIECE_IDS type)) as Hp.
  { unfold g1, spawned. cbn [player set_timing set_hold set_player].
    by rewrite Hx. }
  destruct (collide (arena g) (spawn_x type) (-1) (spawn_matrix type)) eqn:Hc;
    rewrite Hx in Hc.
  - set (g' := set_timeouts _ _) in Hs.
    exists g', row0, rest. split; [exact Hs|].
    split; [done|]. split; [exact Hp|].
    repeat (split; [done|]).
    change (player g') with (player g1). rewrite Hp. cbn [pos_x].
    split; [congruence|]. intros _.
    split; [done|]. split; [done|].
    split; [intros; by apply update_game_over|].
    split; [intros; by apply moveOnce_game_over|].
    split; [by apply hardDrop_game_over|].
    by apply holdSwap_game_over.
  - exists g1, row0, rest. split; [exact Hs|].
    split; [done|]. split; [exact Hp|].
    repeat (split; [done|]). rewrite Hp. cbn [pos_x]. congruence.
Qed.

Lemma spawnPlayer_spawns_witness :
  nextQueue (rand (stocked_game [kT; kI] empty_board 18)) = [kT; kI] /\
  exists g',
    spawnPlayer (stocked_game [kT; kI] empty_board 18) = Some g' /\
    pos_x (player g') = 5 /\ pos_y (player g') = -1 /\
    nextQueue (rand g') = [kI] /\ gameOver g' = false.
Proof.
  split; [reflexivity|].
  destruct (spawnPlayer_spawns (stocked_game [kT; kI] empty_board 18)
              kT [kI] eq_refl)
    as (g' & row0 & rest & Hs & Hrows & Hp & Hq & _).
  injection Hrows as <- <-.
  exists g'. split; [exact Hs|]. rewrite Hp. split; [reflexivity|].
  split; [reflexivity|]. split; [exact Hq|].
  vm_compute in Hs. by injection Hs as <-.
Defined.

(** ** Hard drop *)

Lemma collide_true_iff arena x y m :
  collide arena x y m = true <->
  exists r c, occupied m r c /\ hits arena (Z.of_nat c + x) (Z.of_nat r + y).
Proof. unfold collide. apply collide_rows_spec. Qed.

Lemma collide_below arena x y m r c :
  occupied m r c -> ROWS <= Z.of_nat r + y -> collide arena x y m = true.
Proof.
  intros Ho Hr. apply collide_true_iff. exists r, c. split; [done|].
  unfold hits. tauto.
Qed.

Lemma drop_scan_some fuel arena x y m d0 d :
  drop_scan fuel arena x y m d0 = Some d ->
  d0 <= d /\
  collide arena x (y + d + 1) m = true /\
  forall d', d0 <= d' < d -> collide arena x (y + d' + 1) m = false.
Proof.
  revert d0. induction fuel as [|fuel IH]; intros d0; simpl; [done|].
  unfold Js.Math_floor.
  destruct (collide arena x (y + d0 + 1) m) eqn:Hc.
  - intros [= <-]. split; [lia|]. split; [done|]. intros; lia.
  - intros Hs. destruct (IH _ Hs) as (Hle & Hd & Hbelow).
    split; [lia|]. split; [done|]. intros d' Hd'.
    destruct (decide (d' = d0)) as [->|Hne]; [done|]. apply Hbelow. lia.
Qed.

Lemma drop_scan_total fuel arena x y m d0 d1 :
  d0 <= d1 -> collide arena x (y + d1 + 1) m = true ->
  (Z.to_nat (d1 - d0) < fuel)%nat ->
  is_Some (drop_scan fuel arena x y m d0).
Proof.
  revert d0. induction fuel as [|fuel IH]; intros d0 Hle Hc Hfuel; [lia|].
  simpl. unfold Js.Math_floor.
  destruct (collide arena x (y + d0 + 1) m) eqn:Hc0; [by eexists|].
  assert (d0 <> d1) by (intros ->; congruence).
  apply IH; [lia|done|lia].
Qed.

Lemma landing_drop_total arena x y m :
  (exists r c, occupied m r c) -> is_Some (landing_drop arena x y m).
Proof.
  intros (r & c & Ho). unfold landing_drop.
  apply (drop_scan_total _ _ _ _ _ _ (Z.max 0 (ROWS - y - 1))); [lia| |lia].
  eapply collide_below; [done|]. lia.
Qed.

Lemma empty_board_not_filled ay ax : ~ filled (createMatrix COLS ROWS) ay ax.
Proof.
  intros (v & Hv & Hnz). unfold Js.cell, Js.at2, createMatrix in Hv.
  destruct ((0 <=? ay) && (0 <=? ax)); [|done].
  destruct (replicate _ _ !! _) as [row|] eqn:Hrow; [|done].
  apply lookup_replicate in Hrow as [-> _].
  apply lookup_replicate in Hv as [-> _]. done.
Qed.

Lemma empty_board_collide x y m L :
  lowest m L ->
  collide (createMatrix COLS ROWS) x 0 m = false ->
  0 <= y ->
  collide (createMatrix COLS ROWS) x y m = true <-> ROWS <= Z.of_nat L + y.
Proof.
  intros [[c0 Hc0] Hmax] Hfree Hy. split.
  - intros Hc. apply collide_true_iff in Hc as (r & c & Ho & Hh).
    destruct Hh as [Hx|[Hr|[_ Hf]]].
    + exfalso. assert (collide (createMatrix COLS ROWS) x 0 m = true) as E.
      { apply collide_true_iff. exists r, c. split; [done|].
        unfold hits. tauto. }
      congruence.
    + specialize (Hmax r c Ho). lia.
    + by apply empty_board_not_filled in Hf.
  - intros HL. by eapply collide_below.
Qed.

Lemma hardDrop_ignores_lock g lt og :
  is_Some (matrix (player g)) -> gameOver g = false -> paused g = false ->
  hardDrop (set_timing (set_lock lt og (timing g)) g) = hardDrop g.
Proof.
  destruct g as [a [x y mx i] r hp hu st [gc sf da lst lk ong] d go pa to].
  cbn [matrix player gameOver paused]. intros [m ->] -> ->.
  unfold hardDrop, mergeToArena, sweep, spawnPlayer.
  cbn -[collide merge_rows sweep_rows refillQueue landing_drop createPiece
        stamp COLS ROWS Z.div].
  destruct (landing_drop a x y m) as [drop|]; [|done].
  destruct (merge_rows a x _ m 0) as [a'|]; [|done].
  cbn -[collide merge_rows sweep_rows refillQueue landing_drop createPiece
        stamp COLS ROWS Z.div].
  destruct (sweep_rows a') as [[a'' cl]|]; [|done].
  cbn -[collide merge_rows sweep_rows refillQueue landing_drop createPiece
        stamp COLS ROWS Z.div].
  destruct (cl >? 0);
    cbn -[collide merge_rows sweep_rows refillQueue landing_drop createPiece
          stamp COLS ROWS Z.div];
    repeat case_match; try done.
Qed.

Lemma mergeToArena_wf g m :
  wf_arena (arena g) -> matrix (player g) = Some m ->
  exists g1, mergeToArena g = Some g1 /\ wf_arena (arena g1).
Proof.
  intros Hwf Hm. unfold mergeToArena. rewrite Hm.
  destruct (merge_rows_spec (arena g) (pos_x (player g))
              (Js.Math_floor (pos_y (player g))) m 0 Hwf)
    as (a' & -> & Hwf' & _).
  by eexists.
Qed.

Lemma sweep_ok g :
  wf_arena (arena g) -> exists g2, sweep g = Some g2 /\ wf_arena (arena g2).
Proof.
  intros Hwf. unfold sweep.
  destruct (sweep_rows (arena g)) as [[a' n]|] eqn:Hs.
  - pose proof (sweep_wf _ _ _ Hwf Hs) as Hwf'.
    eexists. split; [done|]. by destruct (n >? 0).
  - pose proof (sweep_rows_eq _ Hwf) as Heq. congruence.
Qed.

Lemma mergeToArena_rand g g1 : mergeToArena g = Some g1 -> rand g1 = rand g.
Proof.
  unfold mergeToArena. destruct (matrix (player g)); [|done].
  destruct (merge_rows _ _ _ _ _); [|done]. by intros [= <-].
Qed.

Lemma sweep_rand g g2 : sweep g = Some g2 -> rand g2 = rand g.
Proof.
  unfold sweep. destruct (sweep_rows _) as [[a c]|]; [|done].
  intros [= <-]. by destruct (c >? 0).
Qed.

(** The scan of [hardDrop] on a shape with a block, and the merge and
    the sweep that follow it on a board of [ROWS] rows of [COLS]
    cells. *)
Lemma hardDrop_steps g m :
  wf_arena (arena g) ->
  matrix (player g) = Some m ->
  gameOver g = false ->
  paused g = false ->
  (exists r c, occupied m r c) ->
  exists drop g1 g2,
    landing_drop (arena g) (pos_x (player g)) (pos_y (player g)) m
      = Some drop /\
    0 <= drop /\
    (forall d, 0 < d <= drop ->
       collide (arena g) (pos_x (player g)) (pos_y (player g) + d) m
       = false) /\
    collide (arena g) (pos_x (player g)) (pos_y (player g) + drop + 1) m
      = true /\
    mergeToArena
      (set_player (set_pos_y (pos_y (player g) + drop) (player g)) g)
      = Some g1 /\
    sweep g1 = Some g2 /\
    rand g2 = rand g /\
    hardDrop g =
    (g3 ← spawnPlayer g2;
     Some (set_timing (set_dropAccumulator 0 (timing g3)) g3)).
Proof.
  intros Hwf Hm Hgo Hpa Hocc.
  destruct (landing_drop_total (arena g) (pos_x (player g))
              (pos_y (player g)) m Hocc) as [drop Hdrop].
  pose proof Hdrop as Hscan. unfold landing_drop in Hscan.
  apply drop_scan_some in Hscan as (Hge & Hhit & Hfree).
  destruct (mergeToArena_wf
              (set_player (set_pos_y (pos_y (player g) + drop) (player g)) g)
              m Hwf) as (g1 & Hg1 & Hwf1).
  { by destruct g as [? [] ]. }
  destruct (sweep_ok g1 Hwf1) as (g2 & Hg2 & Hwf2).
  exists drop, g1, g2.
  split; [done|]. split; [done|]. split.
  { intros d Hd. replace (pos_y (player g) + d)
      with (pos_y (player g) + (d - 1) + 1) by lia.
    apply Hfree. lia. }
  split; [done|]. split; [done|]. split; [done|]. split.
  { by rewrite (sweep_rand _ _ Hg2), (mergeToArena_rand _ _ Hg1). }
  unfold hardDrop. rewrite Hm, Hgo, Hpa, Hdrop. cbn [orb].
  rewrite Hg1. cbn [mbind option_bind]. by rewrite Hg2.
Qed.



(** X27.  In a running game with a kind waiting in the queue,
    [hardDrop] on a shape with an occupied cell ends.  Its scan stops
    at the first offset [drop >= 0] whose successor collides: every row
    offset from [1] to [drop] is free of collisions and [drop + 1] is
    not, so [drop] is the farthest the piece can fall.  The piece is
    moved down by [drop], merged, the board is swept and the waiting
    kind is spawned, in this order and in the same call, whatever the
    lock timer and the ground flag were.  On the empty board a piece
    that stands at row 0 without colliding ends at row [ROWS - 1] minus
    the index of its lowest occupied shape row. *)
Theorem hardDrop_lands g m type q :
  wf_arena (arena g) ->
  matrix (player g) = Some m ->
  gameOver g = false ->
  paused g = false ->
  (exists r c, occupied m r c) ->
  nextQueue (rand g) = type :: q ->
  exists drop g1 g2 g3,
    landing_drop (arena g) (pos_x (player g)) (pos_y (player g)) m
      = Some drop /\
    0 <= drop /\
    (forall d, 0 < d <= drop ->
       collide (arena g) (pos_x (player g)) (pos_y (player g) + d) m
       = false) /\
    collide (arena g) (pos_x (player g)) (pos_y (player g) + drop + 1) m
      = true /\
    mergeToArena
      (set_player (set_pos_y (pos_y (player g) + drop) (player g)) g)
      = Some g1 /\
    sweep g1 = Some g2 /\
    spawnPlayer g2 = Some g3 /\
    matrix (player g3) = Some (spawn_matrix type) /\
    nextQueue (rand g3) = q /\
    hardDrop g = Some (set_timing (set_dropAccumulator 0 (timing g3)) g3) /\
    (forall lt og,
       hardDrop (set_timing (set_lock lt og (timing g)) g) = hardDrop g) /\
    (forall L,
       arena g = createMatrix COLS ROWS ->
       pos_y (player g) = 0 ->
       collide (arena g) (pos_x (player g)) 0 m = false ->
       lowest m L ->
       pos_y (player g) + drop = ROWS - 1 - Z.of_nat L).
Proof.
  intros Hwf Hm Hgo Hpa Hocc Hq.
  destruct (hardDrop_steps g m Hwf Hm Hgo Hpa Hocc)
    as (drop & g1 & g2 & Hdrop & Hge & Hfree & Hhit & Hg1 & Hg2 & Hr & Hh).
  assert (nextQueue (rand g2) = type :: q) as Hq2 by (by rewrite Hr).
  assert (exists g3, spawnPlayer g2 = Some g3 /\
            matrix (player g3) = Some (spawn_matrix type) /\
            nextQueue (rand g3) = q) as (g3 & Hg3 & Hp3 & Hq3).
  { rewrite spawnPlayer_cases, Hq2. cbv zeta.
    destruct (collide (arena g2) _ _ _); eexists; (split; [done|]);
      split; reflexivity. }
  exists drop, g1, g2, g3.
  repeat (split; [done|]).
  split; [by rewrite Hh, Hg3|]. split.
  { intros lt og. apply hardDrop_ignores_lock; [by rewrite Hm|done|done]. }
  intros L Ha Hy Hcur HL. rewrite Ha, Hy in *.
  pose proof (empty_board_collide _ (0 + drop + 1) _ _ HL Hcur) as Hlast.
  apply Hlast in Hhit; [|lia].
  assert (Z.of_nat L + 0 < ROWS) as HLfit.
  { destruct (Z_lt_dec (Z.of_nat L + 0) ROWS) as [|Hn]; [done|].
    exfalso. destruct HL as [[c Hc] _].
    assert (collide (createMatrix COLS ROWS) (pos_x (player g)) 0 m = true)
      as E by (eapply collide_below; [done|lia]).
    congruence. }
  destruct (decide (drop = 0)) as [->|Hnz]; [lia|].
  assert (collide (createMatrix COLS ROWS) (pos_x (player g))
            (0 + drop) m = false) as Hprev by (apply Hfree; lia).
  destruct (Z_le_dec ROWS (Z.of_nat L + (0 + drop))) as [Hle|Hgt].
  - apply (empty_board_collide _ _ _ _ HL Hcur) in Hle; [congruence|lia].
  - lia.
Qed.

Lemma hardDrop_lands_witness :
  wf_arena (arena (stocked_game [kT] empty_board 0)) /\
  (exists r c, occupied (spawn_matrix kO) r c) /\
  landing_drop empty_board 5 0 (spawn_matrix kO) = Some 18.
Proof.
  assert (wf_arena (arena (stocked_game [kT] empty_board 0))) as Hwf
    by wf_by_computation.
  assert (exists r c, occupied (spawn_matrix kO) r c) as Hocc.
  { exists 1%nat, 0%nat, 2. split; [reflexivity|lia]. }
  split; [exact Hwf|]. split; [exact Hocc|].
  destruct (hardDrop_lands (stocked_game [kT] empty_board 0)
              (spawn_matrix kO) kT [] Hwf eq_refl eq_refl eq_refl Hocc
              eq_refl)
    as (drop & g1 & g2 & g3 & Hd & _ & _ & _ & _ & _ & _ & _ & _ & _ & _
        & Hrow).
  change (landing_drop empty_board 5 0 (spawn_matrix kO) = Some drop) in Hd.
  rewrite Hd. f_equal.
  assert (lowest (spawn_matrix kO) 1) as Hlow.
  { split.
    - exists 0%nat, 2. split; [reflexivity|lia].
    - intros r c (v & Hv & _). destruct r as [|[|r]]; [lia|lia|].
      vm_compute in Hv. destruct c; discriminate. }
  specialize (Hrow 1%nat eq_refl eq_refl eq_refl Hlow).
  change (0 + drop = 20 - 1 - 1) in Hrow. lia.
Defined.

(** A T piece dropped from row 0 of the empty board: its lowest blocks
    are in shape row 1, so it ends at row 18 and its blocks fill rows 18
    and 19.  With the I kind waiting, an I piece then stands at row
    [-1]; with the empty queue of the script the call ends in the
    TypeError. *)
Example hardDrop_T :
  let t := mkPlayer 4 0 (Some (spawn_matrix kT)) 3 in
  let g := set_player t (stocked_game [kI] empty_board 0) in
  ((fun g' => Js.cell (arena g') 18 5) <$> hardDrop g) = Some (Some 3) /\
  ((fun g' => Js.cell (arena g') 19 4) <$> hardDrop g) = Some (Some 3) /\
  ((fun g' => Js.cell (arena g') 17 5) <$> hardDrop g) = Some (Some 0) /\
  ((fun g' => (pos_y (player g'), id (player g'))) <$> hardDrop g)
  = Some (-1, 1) /\
  hardDrop (set_player t (sample_game empty_board 0)) = None.
Proof. by vm_compute. Qed.

(** ** Gravity and lock delay *)

Lemma same_piece_refl g : same_piece g g.
Proof. by repeat split. Qed.

Lemma same_piece_trans g1 g2 g3 :
  same_piece g1 g2 -> same_piece g2 g3 -> same_piece g1 g3.
Proof.
  unfold same_piece. intros (?&?&?&?&?&?&?&?) (?&?&?&?&?&?&?&?).
  repeat split; congruence.
Qed.

Lemma counter_kept_refl g : counter_kept g g.
Proof. by left. Qed.

Lemma counter_kept_trans g1 g2 g3 :
  counter_kept g1 g2 -> counter_kept g2 g3 -> counter_kept g1 g3.
Proof.
  unfold counter_kept. intros [H12|H12] [H23|H23]; rewrite H23; auto.
Qed.

(** The loop ends once the block at shape row [r] is under the floor:
    an iteration bound above the rows that are left is enough. *)
Lemma gravity_loop_ok fuel ms g m r c :
  matrix (player g) = Some m -> occupied m r c ->
  (0 < fuel)%nat ->
  ROWS - pos_y (player g) - Z.of_nat r < Z.of_nat fuel ->
  exists g',
    gravity_loop fuel ms g = Some g' /\ same_piece g g' /\
    dasState g' = dasState g /\ counter_kept g g'.
Proof.
  revert g. induction fuel as [|fuel IH]; intros g Hm Ho Hpos Hfuel; [lia|].
  cbn [gravity_loop].
  destruct (ms <=? dropAccumulator (timing g))%float.
  2:{ exists g. split; [done|]. split; [apply same_piece_refl|].
      split; [done|apply counter_kept_refl]. }
  cbn [matrix player set_timing set_player set_pos_y arena pos_x pos_y].
  rewrite Hm. unfold Js.Math_floor.
  destruct (collide _ _ _ m) eqn:Hc.
  - cbn [timing set_player set_timing onGround set_dropAccumulator].
    destruct (onGround (timing g)); eexists; (split; [done|]);
      (split; [by repeat split|]); (split; [done|]);
      [by left|by right].
  - assert (Z.of_nat r + (pos_y (player g) + 1) < ROWS) as Hfit.
    { destruct (Z_lt_dec (Z.of_nat r + (pos_y (player g) + 1)) ROWS)
        as [|Hn]; [done|].
      rewrite (collide_below _ _ _ _ r c Ho) in Hc; [done|lia]. }
    match goal with |- context [gravity_loop fuel ms ?h] =>
      destruct (IH h) as (g' & Hg' & Hsame & Hdas & Hlt)
    end.
    { cbn [matrix player set_timing set_player set_pos_y]. by rewrite Hm. }
    { done. }
    { lia. }
    { cbn [player set_timing set_player set_pos_y pos_y]. lia. }
    exists g'. split; [done|]. split; [|split].
    + eapply same_piece_trans; [|done]. by repeat split.
    + by rewrite Hdas.
    + eapply counter_kept_trans; [|done]. by right.
Qed.

Lemma gravity_phase_ok delta g m :
  matrix (player g) = Some m -> (exists r c, occupied m r c) ->
  exists g',
    gravity_phase delta g = Some g' /\ same_piece g g' /\
    dasState g' = dasState g /\ counter_kept g g'.
Proof.
  intros Hm (r & c & Ho). unfold gravity_phase. cbv zeta.
  match goal with |- context [gravity_loop ?f ?ms ?h] =>
    destruct (gravity_loop_ok f ms h m r c) as (g' & Hg' & Hs & Hd & Hl)
  end.
  - done.
  - done.
  - unfold gravity_bound. lia.
  - unfold gravity_bound. cbn [player set_timing pos_y]. lia.
  - exists g'. split; [done|]. split; [|done].
    eapply same_piece_trans; [|done]. by repeat split.
Qed.

(** ** A piece at rest *)

Lemma gravity_loop_resting fuel ms g m :
  matrix (player g) = Some m ->
  collide (arena g) (pos_x (player g)) (pos_y (player g) + 1) m = true ->
  onGround (timing g) = true ->
  (0 < fuel)%nat ->
  exists acc,
    gravity_loop fuel ms g =
    Some (rested g acc (lastTime (timing g)) (lockTimer (timing g))).
Proof.
  intros Hm Hc Hog Hfuel.
  assert (g = rested g (dropAccumulator (timing g)) (lastTime (timing g))
                (lockTimer (timing g))) as Hg.
  { destruct g as [? ? ? ? ? ? [] ? ? ? ?]. simpl in *. by subst. }
  destruct fuel as [|fuel]; [lia|]. cbn [gravity_loop].
  destruct (ms <=? dropAccumulator (timing g))%float.
  - cbn [matrix player set_timing set_player set_pos_y arena pos_x pos_y].
    rewrite Hm. unfold Js.Math_floor. rewrite Hc.
    cbn [timing set_player set_timing onGround set_dropAccumulator].
    rewrite Hog. exists (dropAccumulator (timing g) - ms)%float. f_equal.
    destruct g as [? [] ? ? ? ? [] ? ? ? ?]. unfold rested. simpl in *.
    subst. unfold set_pos_y, set_player, set_timing. simpl.
    by rewrite Z.add_simpl_r.
  - eexists. by rewrite <- Hg.
Qed.

Lemma das_phase_idle now g : das_idle g -> das_phase now g = g.
Proof. intros [Hl Hr]. unfold das_phase. by rewrite Hl, Hr. Qed.

Lemma moveOnce_keeps dir g :
  same_piece g (moveOnce dir g) /\ counter_kept g (moveOnce dir g).
Proof.
  unfold moveOnce. destruct (matrix (player g)) as [m|] eqn:Hm.
  2:{ split; [apply same_piece_refl|apply counter_kept_refl]. }
  destruct (paused g || gameOver g).
  { split; [apply same_piece_refl|apply counter_kept_refl]. }
  destruct (collide _ _ _ m); (split; [by repeat split|]);
    [by left|by right].
Qed.

Lemma das_phase_keeps now g :
  same_piece g (das_phase now g) /\ counter_kept g (das_phase now g).
Proof.
  unfold das_phase.
  destruct (das_left (dasState g) || das_right (dasState g)).
  2:{ split; [apply same_piece_refl|apply counter_kept_refl]. }
  destruct (_ <=? now)%float.
  2:{ split; [apply same_piece_refl|apply counter_kept_refl]. }
  destruct (moveOnce_keeps (if das_left (dasState g) then -1 else 1) g)
    as [Hs Hl].
  split; [|done]. eapply same_piece_trans; [done|]. by repeat split.
Qed.

(** A move into a wall or a block leaves the state as it is. *)
Lemma moveOnce_blocked dir g m :
  matrix (player g) = Some m ->
  collide (arena g) (pos_x (player g) + dir) (pos_y (player g)) m = true ->
  moveOnce dir g = g.
Proof.
  intros Hm Hc. unfold moveOnce. rewrite Hm.
  destruct (paused g || gameOver g); [done|].
  unfold Js.Math_floor. rewrite Hc.
  destruct g as [? [] ? ? ? ? ? ? ? ? ?]. unfold set_player, set_pos_x.
  cbn. by rewrite Z.add_simpl_r.
Qed.

(** The auto-repeat phase of one frame that does not shift the piece:
    the schedule is all it may change. *)
Lemma das_phase_still now g m :
  matrix (player g) = Some m ->
  das_still g m [(now, now)] ->
  exists nm,
    das_phase now g = set_dasState (set_nextMoveAt nm (dasState g)) g /\
    (nm = nextMoveAt (dasState g) \/
     collide (arena g) (pos_x (player g) + das_dir g) (pos_y (player g)) m
       = true).
Proof.
  intros Hm Hstill.
  assert (g = set_dasState (set_nextMoveAt (nextMoveAt (dasState g))
                              (dasState g)) g) as Hg.
  { by destruct g as [? ? ? ? ? ? ? [] ? ? ?]. }
  destruct Hstill as [Hidle|[Hblocked|Hearly]].
  - exists (nextMoveAt (dasState g)).
    rewrite (das_phase_idle _ _ Hidle). split; [done|by left].
  - unfold das_phase.
    destruct (das_left (dasState g) || das_right (dasState g)).
    2:{ exists (nextMoveAt (dasState g)). split; [done|by left]. }
    destruct (_ <=? now)%float.
    2:{ exists (nextMoveAt (dasState g)). split; [done|by left]. }
    exists (now + ARR)%float. fold (das_dir g).
    rewrite (moveOnce_blocked _ _ m Hm Hblocked). split; [done|by right].
  - apply Forall_inv in Hearly. cbn [snd] in Hearly.
    exists (nextMoveAt (dasState g)). unfold das_phase. rewrite Hearly.
    split; [|by left].
    by destruct (das_left (dasState g) || das_right (dasState g)).
Qed.

Lemma waited_resting g m acc last lt nm :
  resting g m -> resting (waited g acc last lt nm) m.
Proof.
  intros (?&?&?&?&?&?). unfold resting. repeat (split; [done|]). done.
Qed.

(** The gravity and auto-repeat phases of a frame on a resting piece
    that the auto-repeat does not shift. *)
Lemma resting_frame_phases g m time now :
  resting g m -> das_still g m [(time, now)] ->
  exists acc nm,
    (g1 ← gravity_phase (frame_delta time g)
            (set_timing (set_lastTime time (timing g)) g);
     Some (das_phase now g1))
    = Some (waited g acc time (lockTimer (timing g)) nm) /\
    (nm = nextMoveAt (dasState g) \/
     collide (arena g) (pos_x (player g) + das_dir g) (pos_y (player g)) m
       = true).
Proof.
  intros (Hwf & Hm & Hpa & Hgo & Hc & Hog) Hstill.
  unfold gravity_phase. cbv zeta.
  match goal with |- context [gravity_loop ?f ?ms ?h] =>
    destruct (gravity_loop_resting f ms h m) as [acc Hacc]
  end; try done.
  { unfold gravity_bound. lia. }
  rewrite Hacc. cbn [mbind option_bind].
  set (g1 := rested _ _ _ _).
  destruct (das_phase_still now g1 m) as (nm & Hd & Hnm); [done| |].
  { destruct Hstill as [Hidle|[Hblocked|Hearly]].
    - by left.
    - right. by left.
    - right. right. apply Forall_inv in Hearly. by constructor. }
  exists acc, nm. rewrite Hd. split; [|done].
  by destruct g as [? ? ? ? ? ? [] ? ? ? ?].
Qed.

(** A frame below the threshold leaves the resting piece in play and
    adds the frame time to the lock-delay counter. *)
Lemma resting_frame_waits g m time now :
  resting g m -> das_still g m [(time, now)] ->
  (LOCK_DELAY <=? lockTimer (timing g) + frame_delta time g)%float = false ->
  exists acc nm,
    update time now g =
    Some (waited g acc time (lockTimer (timing g) + frame_delta time g) nm) /\
    (nm = nextMoveAt (dasState g) \/
     collide (arena g) (pos_x (player g) + das_dir g) (pos_y (player g)) m
       = true).
Proof.
  intros Hrest Hstill Hlt.
  destruct (resting_frame_phases g m time now Hrest Hstill)
    as (acc & nm & Hph & Hnm).
  destruct Hrest as (Hwf & Hm & Hpa & Hgo & Hc & Hog). unfold update.
  cbn [paused gameOver set_timing]. rewrite Hpa, Hgo. cbn [negb andb].
  destruct (gravity_phase _ _) as [g1|]; [|done].
  cbn [mbind option_bind] in Hph |- *. injection Hph as ->.
  unfold lock_phase.
  cbn [waited rested timing set_timing set_dasState onGround lockTimer
       set_lock].
  rewrite Hlt. by exists acc, nm.
Qed.

(** A frame that reaches the threshold locks the resting piece: it
    merges the piece where it rests and sweeps the board, and goes on
    with [spawnPlayer]. *)
Lemma resting_frame_locks g m time now :
  resting g m -> das_still g m [(time, now)] ->
  (LOCK_DELAY <=? lockTimer (timing g) + frame_delta time g)%float = true ->
  exists acc nm g1 g2,
    mergeToArena
      (waited g acc time (lockTimer (timing g) + frame_delta time g) nm)
      = Some g1 /\
    sweep g1 = Some g2 /\
    rand g2 = rand g /\
    update time now g =
    (g3 ← spawnPlayer g2;
     Some (set_timing
             (set_lock 0 false (set_dropAccumulator 0 (timing g3))) g3)).
Proof.
  intros Hrest Hstill Hge.
  destruct (resting_frame_phases g m time now Hrest Hstill)
    as (acc & nm & Hph & Hnm).
  destruct Hrest as (Hwf & Hm & Hpa & Hgo & Hc & Hog). unfold update.
  cbn [paused gameOver set_timing]. rewrite Hpa, Hgo. cbn [negb andb].
  destruct (gravity_phase _ _) as [h|]; [|done].
  cbn [mbind option_bind] in Hph |- *. injection Hph as ->.
  unfold lock_phase.
  cbn [waited rested timing set_timing set_dasState onGround lockTimer
       set_lock].
  rewrite Hge.
  set (g0 := set_timing _ _).
  assert (g0 = waited g acc time
                 (lockTimer (timing g) + frame_delta time g) nm) as Hg0
    by (by destruct g).
  destruct (mergeToArena_wf g0 m) as (g1 & Hg1 & Hwf1); [done|done|].
  destruct (sweep_ok g1 Hwf1) as (g2 & Hg2 & Hwf2).
  exists acc, nm, g1, g2. rewrite <- Hg0.
  split; [done|]. split; [done|]. split.
  { by rewrite (sweep_rand _ _ Hg2), (mergeToArena_rand _ _ Hg1). }
  unfold lock_piece. rewrite Hg1. cbn [mbind option_bind].
  by rewrite Hg2.
Qed.

(** No frame locks a piece before the threshold: when neither the
    counter grown by the frame time nor the frame time alone reaches
    [LOCK_DELAY], the frame runs and leaves board, piece and lookahead
    alone. *)
Lemma update_waits g m time now :
  paused g = false -> gameOver g = false ->
  matrix (player g) = Some m -> (exists r c, occupied m r c) ->
  (LOCK_DELAY <=? lockTimer (timing g) + frame_delta time g)%float = false ->
  (LOCK_DELAY <=? 0 + frame_delta time g)%float = false ->
  exists g', update time now g = Some g' /\ same_piece g g'.
Proof.
  intros Hpa Hgo Hm Ho Hlt Hd. unfold update.
  cbn [paused gameOver set_timing]. rewrite Hpa, Hgo. cbn [negb andb].
  destruct (gravity_phase_ok (frame_delta time g)
              (set_timing (set_lastTime time (timing g)) g) m)
    as (g1 & Hg1 & Hs1 & _ & Hk1); [done|done|].
  rewrite Hg1. cbn [mbind option_bind].
  destruct (das_phase_keeps now g1) as [Hs2 Hk2].
  assert (exists h, lock_phase (frame_delta time g) (das_phase now g1)
                    = Some h /\ same_piece (das_phase now g1) h)
    as (h & Hh & Hs3).
  { unfold lock_phase. destruct (onGround (timing (das_phase now g1))).
    - cbn [timing set_timing lockTimer set_lock].
      destruct (counter_kept_trans _ _ _ Hk1 Hk2) as [-> | ->];
        cbn [timing set_timing lockTimer set_lastTime];
        rewrite ?Hlt, ?Hd; eexists; (split; [done|]); by repeat split.
    - eexists. split; [done|]. by repeat split. }
  exists h. split; [done|].
  eapply same_piece_trans; [|done].
  eapply same_piece_trans; [|done].
  eapply same_piece_trans; [|done].
  by repeat split.
Qed.

(** A successful lateral move resets the counter, and the next frame
    does not lock the piece. *)
Lemma move_resets_lock g m dir :
  resting g m ->
  collide (arena g) (pos_x (player g) + dir) (pos_y (player g)) m = false ->
  lockTimer (timing (moveOnce dir g)) = 0%float /\
  onGround (timing (moveOnce dir g)) = false /\
  pos_x (player (moveOnce dir g)) = pos_x (player g) + dir /\
  same_piece g (moveOnce dir g) /\
  forall time now,
    (LOCK_DELAY <=? 0 + frame_delta time (moveOnce dir g))%float = false ->
    exists h,
      update time now (moveOnce dir g) = Some h /\
      same_piece (moveOnce dir g) h.
Proof.
  intros (Hwf & Hm & Hpa & Hgo & Hc & Hog) Hfree.
  assert (moveOnce dir g =
          set_timing (set_lock 0 false (timing g))
            (set_player (set_pos_x (pos_x (player g) + dir) (player g)) g))
    as Hmove.
  { unfold moveOnce. rewrite Hm, Hpa, Hgo. cbn [orb].
    unfold Js.Math_floor. by rewrite Hfree. }
  rewrite Hmove. split; [done|]. split; [done|]. split; [done|].
  split; [by repeat split|].
  intros time now Hlt. set (h0 := set_timing _ _) in *.
  apply (update_waits h0 m); [done|done| | |done|done].
  - unfold h0. cbn [matrix player set_timing set_player set_pos_x].
    by rewrite Hm.
  - by apply collide_true_iff in Hc as (r & c & Ho & _); exists r, c.
Qed.

(** ** Sequences of frames *)

Lemma das_still_cons g m f frames :
  das_still g m (f :: frames) ->
  das_still g m [(f.1, f.2)] /\ das_still g m frames.
Proof.
  intros [Hidle|[Hblocked|Hearly]].
  - split; by left.
  - split; right; by left.
  - apply Forall_cons in Hearly as [Hf Hrest].
    split; right; right; [by constructor|done].
Qed.

Lemma das_still_waited g m acc last lt nm frames :
  das_still g m frames ->
  nm = nextMoveAt (dasState g) \/
  collide (arena g) (pos_x (player g) + das_dir g) (pos_y (player g)) m
    = true ->
  das_still (waited g acc last lt nm) m frames.
Proof.
  intros Hstill [->|Hblocked].
  - destruct Hstill as [Hidle|[Hblocked|Hearly]].
    + by left.
    + right. by left.
    + right. by right.
  - right. by left.
Qed.

Lemma resting_frames_wait g m frames :
  resting g m -> das_still g m frames ->
  below_threshold (lockTimer (timing g)) (lastTime (timing g)) frames ->
  exists acc nm,
    run (frame_events frames) g =
    Some (waited g acc (last_frame_time (lastTime (timing g)) frames)
            (contact_time (lockTimer (timing g)) (lastTime (timing g))
               frames) nm) /\
    (nm = nextMoveAt (dasState g) \/
     collide (arena g) (pos_x (player g) + das_dir g) (pos_y (player g)) m
       = true).
Proof.
  revert g. induction frames as [|[time now] frames IH];
    intros g Hrest Hstill Hbelow.
  - exists (dropAccumulator (timing g)), (nextMoveAt (dasState g)).
    split; [|by left]. cbn. f_equal.
    destruct Hrest as (_&_&_&_&_&Hog).
    destruct g as [? ? ? ? ? ? [] [] ? ? ?]. simpl in *. by subst.
  - destruct Hbelow as [Hlt Hbelow].
    apply das_still_cons in Hstill as [Hnow Hlater]. cbn [fst snd] in Hnow.
    destruct (resting_frame_waits g m time now Hrest Hnow Hlt)
      as (acc & nm & Hacc & Hnm).
    cbn [frame_events map run step fst snd]. rewrite Hacc.
    cbn [mbind option_bind].
    destruct (IH (waited g acc time
                    (lockTimer (timing g) + frame_delta time g) nm))
      as (acc' & nm' & Hacc' & Hnm').
    + by apply waited_resting.
    + by apply das_still_waited.
    + exact Hbelow.
    + exists acc', nm'. split; [exact Hacc'|].
      destruct Hnm' as [->|Hb]; [|by right].
      destruct Hnm as [->|Hb]; [by left|by right].
Qed.



(** X28.  Take a running game whose piece rests on a surface with the
    ground flag set and which the auto-repeat does not shift (no
    direction key is held, or the piece is blocked on the held side, or
    no frame reaches the scheduled time), and any frames through which
    the lock-delay counter, grown by the time of each frame as the
    script computes it, stays below [LOCK_DELAY].  All of them run, the
    piece is not locked (board, piece and lookahead are as before) and
    the counter holds the accumulated contact time.  From there, a
    lateral move that does not collide sets the counter to [0] and
    clears the ground flag, and the next frame whose own time is below
    [LOCK_DELAY] does not lock the piece either; whereas, without a
    move, the frame that takes the counter to [LOCK_DELAY] or more
    locks it: the piece is merged where it rests, the board is swept
    and [spawnPlayer] is called, in this order.  In any running state,
    a frame locks nothing unless the counter grown by the frame time,
    or the frame time alone, reaches [LOCK_DELAY]. *)
Theorem lock_delay g m frames :
  resting g m ->
  das_still g m frames ->
  below_threshold (lockTimer (timing g)) (lastTime (timing g)) frames ->
  exists g',
    run (frame_events frames) g = Some g' /\
    arena g' = arena g /\ player g' = player g /\ rand g' = rand g /\
    stats g' = stats g /\
    lockTimer (timing g') =
      contact_time (lockTimer (timing g)) (lastTime (timing g)) frames /\
    onGround (timing g') = true /\
    (forall dir,
       collide (arena g') (pos_x (player g') + dir) (pos_y (player g')) m
         = false ->
       lockTimer (timing (moveOnce dir g')) = 0%float /\
       onGround (timing (moveOnce dir g')) = false /\
       pos_x (player (moveOnce dir g')) = pos_x (player g') + dir /\
       forall time now,
         (LOCK_DELAY <=? 0 + frame_delta time (moveOnce dir g'))%float
           = false ->
         exists h,
           update time now (moveOnce dir g') = Some h /\
           arena h = arena g /\ matrix (player h) = Some m /\
           rand h = rand g /\ stats h = stats g) /\
    (forall time now,
       das_still g' m [(time, now)] ->
       (LOCK_DELAY <=? lockTimer (timing g') + frame_delta time g')%float
         = true ->
       exists acc nm g1 g2,
         mergeToArena
           (waited g' acc time
              (lockTimer (timing g') + frame_delta time g') nm)
           = Some g1 /\
         sweep g1 = Some g2 /\
         update time now g' =
         (g3 ← spawnPlayer g2;
          Some (set_timing
                  (set_lock 0 false (set_dropAccumulator 0 (timing g3)))
                  g3))) /\
    (forall h mh time now,
       paused h = false -> gameOver h = false ->
       matrix (player h) = Some mh -> (exists r c, occupied mh r c) ->
       (LOCK_DELAY <=? lockTimer (timing h) + frame_delta time h)%float
         = false ->
       (LOCK_DELAY <=? 0 + frame_delta time h)%float = false ->
       exists h',
         update time now h = Some h' /\
         arena h' = arena h /\ matrix (player h') = matrix (player h) /\
         rand h' = rand h /\ stats h' = stats h).
Proof.
  intros Hrest Hstill Hbelow.
  destruct (resting_frames_wait g m frames Hrest Hstill Hbelow)
    as (acc & nm & Hrun & Hnm).
  set (g' := waited g acc _ _ nm) in Hrun.
  assert (resting g' m) as Hrest' by (by apply waited_resting).
  exists g'. split; [done|]. repeat (split; [done|]).
  split; [|split]; cycle 2.
  { intros h mh time now Hpa Hgo Hm Ho Hlt Hd.
    destruct (update_waits h mh time now Hpa Hgo Hm Ho Hlt Hd)
      as (h' & Hh' & Ha & Hm' & Hr & Hst & _).
    by exists h'. }
  - intros dir Hfree.
    destruct (move_resets_lock g' m dir Hrest' Hfree)
      as (Hl & Hog & Hx & Hs & Hnext).
    repeat (split; [done|]). intros time now Hlt.
    destruct (Hnext time now Hlt) as (h & Hh & Hsh).
    exists h. split; [done|].
    destruct (same_piece_trans _ _ _ Hs Hsh) as (Ha & Hm & Hr & Hst & _).
    destruct Hrest as (_ & Hm0 & _).
    rewrite Ha, Hm, Hr, Hst. by repeat split.
  - intros time now Hstill' Hge.
    destruct (resting_frame_locks g' m time now Hrest' Hstill' Hge)
      as (acc' & nm' & g1 & g2 & Hg1 & Hg2 & _ & Hu).
    by exists acc', nm', g1, g2.
Qed.

Lemma lock_delay_witness :
  resting (sample_game empty_board 18) (spawn_matrix kO) /\
  das_still (sample_game empty_board 18) (spawn_matrix kO)
    [(1100, 1100); (1499, 1499)]%float /\
  below_threshold 0 1000 [(1100, 1100); (1499, 1499)]%float /\
  exists g',
    run (frame_events [(1100, 1100); (1499, 1499)]%float)
      (sample_game empty_board 18) = Some g' /\
    arena g' = empty_board /\
    lockTimer (timing g') = 499%float.
Proof.
  assert (resting (sample_game empty_board 18) (spawn_matrix kO)) as Hrest.
  { split; [wf_by_computation|]. repeat split; reflexivity. }
  assert (das_still (sample_game empty_board 18) (spawn_matrix kO)
            [(1100, 1100); (1499, 1499)]%float) as Hstill
    by (left; split; reflexivity).
  assert (below_threshold 0 1000 [(1100, 1100); (1499, 1499)]%float)
    as Hbelow.
  { cbn. repeat split; reflexivity. }
  split; [exact Hrest|]. split; [exact Hstill|]. split; [exact Hbelow|].
  destruct (lock_delay (sample_game empty_board 18) (spawn_matrix kO)
              [(1100, 1100); (1499, 1499)]%float Hrest Hstill Hbelow)
    as (g' & Hrun & Ha & _ & _ & _ & Hl & _).
  exists g'. split; [exact Hrun|]. split; [exact Ha|].
  rewrite Hl. reflexivity.
Defined.

(** The scenario on the floor of the empty board, frames and key
    presses as the browser would deliver them.  After 499 ms of contact
    a move to the right keeps the piece in play through the next frame.
    Without the move the frame at 500 ms locks the piece into rows 18
    and 19; with a T kind waiting a T piece is spawned, and with the
    empty queue of the script the frame ends in the TypeError.  The
    counter is a sum of doubles: three frames that span 500 ms leave it
    just below the threshold, and the piece in play. *)
Example lock_delay_scenario :
  let g := stocked_game [kT] empty_board 18 in
  let rest499 := [Frame 1100 1100; Frame 1499 1499] in
  ((fun g' => (Js.cell (arena g') 19 6, pos_x (player g'),
               lockTimer (timing g')))
     <$> run (rest499 ++ [KeyDownRight 1499; KeyUpRight; Frame 1516 1516])
           g)
  = Some (Some 0, 6, 0%float) /\
  ((fun g' => (Js.cell (arena g') 19 5, Js.cell (arena g') 18 6,
               pos_y (player g'), id (player g')))
     <$> run (rest499 ++ [Frame 1500 1500]) g)
  = Some (Some 2, Some 2, -1, 3) /\
  run (rest499 ++ [Frame 1500 1500]) (sample_game empty_board 18) = None /\
  (let h := set_timing (mkTiming 1 false 0 0x1.9d8p+6 0 true) g in
   (fun g' => (LOCK_DELAY <=? lockTimer (timing g'))%float)
     <$> run [Frame 0x1.c022d0e560419p+6 0; Frame 0x1.eedd2f1a9fbe7p+7 0;
              Frame 0x1.2dbp+9 0] h)
  = Some false.
Proof. by vm_compute. Qed.

(** ** The ghost piece *)

(** X1.  The row [computeGhostY] answers is the first one, from the
    piece down, under which the shape collides: the piece fits on every
    row down to it, it is blocked one row further, and [hardDrop] locks
    the piece on exactly that row. *)
Theorem computeGhostY_lands g m :
  matrix (player g) = Some m ->
  has_block m ->
  exists gy,
    computeGhostY g = Some gy /\
    pos_y (player g) <= gy /\
    (forall y, pos_y (player g) < y <= gy ->
       collide (arena g) (pos_x (player g)) y m = false) /\
    collide (arena g) (pos_x (player g)) (gy + 1) m = true /\
    (gameOver g = false -> paused g = false ->
     hardDrop g =
     (g4 ← lock_here (set_player (set_pos_y gy (player g)) g);
      Some (set_timing (set_dropAccumulator 0 (timing g4)) g4))).
Proof.
  intros Hm Hb.
  destruct (landing_drop_total (arena g) (pos_x (player g))
              (pos_y (player g)) m Hb) as [d Hd].
  pose proof Hd as Hscan. unfold landing_drop in Hscan.
  apply drop_scan_some in Hscan as (Hd0 & Hhit & Hfree).
  exists (pos_y (player g) + d). split.
  { unfold computeGhostY. rewrite Hm. cbv beta iota. by rewrite Hd. }
  split; [lia|]. split.
  { intros y Hy.
    replace y with (pos_y (player g) + (y - pos_y (player g) - 1) + 1) by lia.
    apply Hfree. lia. }
  split; [done|].
  intros Hgo Hp. unfold hardDrop, lock_here.
  rewrite Hm, Hgo, Hp. cbn [orb]. rewrite Hd.
  destruct (mergeToArena _) as [g1|]; [|done]. cbn.
  destruct (sweep g1) as [g2|]; [|done]. cbn.
  by destruct (spawnPlayer g2).
Qed.

Lemma computeGhostY_lands_witness :
  matrix (player (sample_game empty_board 0)) = Some (spawn_matrix kO) /\
  has_block (spawn_matrix kO) /\
  computeGhostY (sample_game empty_board 0) = Some 18 /\
  exists gy,
    computeGhostY (sample_game empty_board 0) = Some gy /\
    collide empty_board 5 (gy + 1) (spawn_matrix kO) = true.
Proof.
  assert (has_block (spawn_matrix kO)) as Hb.
  { exists 0%nat, 0%nat, 2. by split. }
  split; [reflexivity|]. split; [exact Hb|]. split; [reflexivity|].
  destruct (computeGhostY_lands (sample_game empty_board 0)
              (spawn_matrix kO) eq_refl Hb) as (gy & Hgy & _ & _ & Hhit & _).
  exists gy. split; [exact Hgy|exact Hhit].
Defined.

(** ** The kind of an identifier *)

(** X2.  The lookup of a kind by its identifier, as [holdSwap] writes
    it, is the inverse of [PIECE_IDS]; an identifier outside [1..7] has
    no kind. *)
Theorem kind_of_id_inverse :
  (forall id, kind_of_id id = key_of_id id) /\
  (forall k, key_of_id (PIECE_IDS k) = Some k) /\
  (forall id k, key_of_id id = Some k -> PIECE_IDS k = id) /\
  (forall id, id < 1 \/ 7 < id -> key_of_id id = None).
Proof.
  assert (forall id, kind_of_id id = key_of_id id) as Heq.
  { intros id. unfold kind_of_id, key_of_id, PIECE_VALUES. cbn -[Z.eqb].
    rewrite !(Z.eqb_sym id).
    repeat (destruct (_ =? id); [reflexivity|cbn -[Z.eqb]]). reflexivity. }
  split; [exact Heq|]. split; [by intros []|]. split.
  - intros id k. rewrite <- Heq. unfold kind_of_id.
    repeat (destruct (id =? _) eqn:E;
            [apply Z.eqb_eq in E; by intros [= <-]|clear E]).
    done.
  - intros id Hid. rewrite <- Heq. unfold kind_of_id.
    repeat (destruct (id =? _) eqn:E; [apply Z.eqb_eq in E; lia|clear E]).
    done.
Qed.

Lemma kind_of_id_inverse_witness :
  key_of_id 3 = Some kT /\ PIECE_IDS kT = 3 /\ key_of_id 8 = None.
Proof.
  split; [reflexivity|]. split.
  - apply (proj1 (proj2 (proj2 kind_of_id_inverse)) 3 kT). reflexivity.
  - apply (proj2 (proj2 (proj2 kind_of_id_inverse)) 8). lia.
Defined.

(** ** Lateral moves *)

Lemma player_eta p : mkPlayer (pos_x p) (pos_y p) (matrix p) (id p) = p.
Proof. by destruct p. Qed.

Lemma set_player_eta g : set_player (player g) g = g.
Proof. by destruct g. Qed.

(** X3.  A lateral move that is blocked leaves the whole state as it
    was; a move that succeeds shifts the column by [dir] and is undone
    by the opposite move.  Either way the piece keeps its row and
    shape, the board is untouched and the piece still fits on it. *)
Theorem moveOnce_round_trip g m dir :
  matrix (player g) = Some m ->
  paused g = false -> gameOver g = false ->
  collide (arena g) (pos_x (player g)) (pos_y (player g)) m = false ->
  (collide (arena g) (pos_x (player g) + dir) (pos_y (player g)) m = true ->
   moveOnce dir g = g) /\
  (collide (arena g) (pos_x (player g) + dir) (pos_y (player g)) m = false ->
   pos_x (player (moveOnce dir g)) = pos_x (player g) + dir /\
   player (moveOnce (- dir) (moveOnce dir g)) = player g) /\
  legal (moveOnce dir g) /\
  arena (moveOnce dir g) = arena g /\
  pos_y (player (moveOnce dir g)) = pos_y (player g) /\
  matrix (player (moveOnce dir g)) = Some m.
Proof.
  destruct g as [a [x y mm i] r h u s t d go p ts]. cbn.
  intros -> -> -> Hfree. unfold moveOnce, legal, Js.Math_floor. cbn.
  destruct (collide a (x + dir) y m) eqn:Hc; cbn.
  - rewrite Z.add_simpl_r. split; [done|]. split; [done|].
    split; [|done]. by intros _ ? [= <-].
  - rewrite Z.add_opp_r, Z.add_simpl_r, Hfree. cbn.
    split; [done|]. split; [done|]. split; [|done]. by intros _ ? [= <-].
Qed.

Lemma moveOnce_round_trip_witness :
  collide (arena (sample_game empty_board 18)) (5 + 1) 18 (spawn_matrix kO)
    = false /\
  player (moveOnce (- (1)) (moveOnce 1 (sample_game empty_board 18)))
    = player (sample_game empty_board 18).
Proof.
  split; [reflexivity|].
  apply (moveOnce_round_trip (sample_game empty_board 18) (spawn_matrix kO) 1);
    reflexivity.
Defined.

(** ** Pause *)

(** X4.  In a paused game every handler but the rotation, the restart
    button and the reset timer leaves the piece, the board, the queue,
    the hold and the score alone (the pause key only flips the flag).
    The rotation key is not held back: it turns the piece exactly as it
    does in the running game. *)
Theorem paused_freezes g e :
  paused g = true ->
  e <> KeyRotate -> e <> ClickRestart -> e <> TimerFires ->
  (exists g',
     step e g = Some g' /\
     arena g' = arena g /\ player g' = player g /\ rand g' = rand g /\
     holdPiece g' = holdPiece g /\ holdUsed g' = holdUsed g /\
     stats g' = stats g /\ gameOver g' = gameOver g /\
     timeouts g' = timeouts g /\
     dropAccumulator (timing g') = dropAccumulator (timing g) /\
     lockTimer (timing g') = lockTimer (timing g) /\
     onGround (timing g') = onGround (timing g)) /\
  step KeyRotate g
    = Some (set_paused true (rotatePlayer 1 (set_paused false g))).
Proof.
  intros Hp He1 He2 He3. split.
  - destruct e; try done; cbn -[moveOnce hardDrop holdSwap update].
    + exists (dasStart true now g). split; [|done].
      unfold moveOnce. cbn. rewrite Hp.
      by destruct (matrix (player g)).
    + exists (dasStart false now g). split; [|done].
      unfold moveOnce. cbn. rewrite Hp.
      by destruct (matrix (player g)).
    + by eexists.
    + by eexists.
    + by eexists.
    + by eexists.
    + exists g. split; [|done]. unfold hardDrop. rewrite Hp, orb_true_r.
      by destruct (matrix (player g)).
    + exists g. split; [|done]. unfold holdSwap. rewrite Hp, !orb_true_r.
      by destruct (matrix (player g)).
    + by eexists.
    + by eexists.
    + exists (set_timing (set_lastTime time (timing g)) g). split; [|done].
      unfold update. cbn. by rewrite Hp.
  - destruct g as [a [x y mm i] r h u s t d go p ts]. cbn in Hp. subst p.
    cbn -[rotatePlayer]. f_equal. unfold rotatePlayer.
    cbn -[try_kicks kicks rotateMatrix].
    destruct mm as [old|]; [|done].
    by destruct (try_kicks a x y (rotateMatrix old 1) kicks).
Qed.

Lemma paused_freezes_witness :
  player (set_paused true (sample_game empty_board 18))
  = player (sample_game empty_board 18) /\
  exists g',
    step KeyHardDrop (set_paused true (sample_game empty_board 18)) = Some g' /\
    arena g' = empty_board.
Proof.
  split; [reflexivity|].
  destruct (paused_freezes (set_paused true (sample_game empty_board 18))
              KeyHardDrop eq_refl) as [(g' & Hs & Ha & _) _]; try done.
  by exists g'.
Defined.

(** A paused game still turns a piece: the T piece, five rows up. *)
Example paused_rotation :
  let g := set_paused true
             (set_player (mkPlayer 4 5 (Some (spawn_matrix kT)) 3)
                (sample_game empty_board 5)) in
  (matrix ∘ player <$> step KeyRotate g)
  = Some (Some [[0;3;0];[0;3;3];[0;3;0]]).
Proof. reflexivity. Qed.

(** ** Auto-repeat *)

(** X6.  While a direction key is held, a frame whose time the test
    [nextMoveAt <= now] rejects shifts nothing; a frame that passes it
    shifts once (to the left when both keys are held) and schedules the
    next shift at the sum [now + ARR], computed in doubles, so that no
    frame shifts again until one passes the test against that sum.  A
    key press schedules the first repeat at the sum of the time of the
    press and [DAS_DELAY]. *)
Theorem das_schedule g now :
  das_left (dasState g) || das_right (dasState g) = true ->
  ((nextMoveAt (dasState g) <=? now)%float = false -> das_phase now g = g) /\
  ((nextMoveAt (dasState g) <=? now)%float = true ->
   das_phase now g =
     set_dasState (set_nextMoveAt (now + ARR) (dasState g))
       (moveOnce (if das_left (dasState g) then -1 else 1) g) /\
   forall now', (now + ARR <=? now')%float = false ->
     das_phase now' (das_phase now g) = das_phase now g) /\
  (forall left now0 now',
     (now0 + DAS_DELAY <=? now')%float = false ->
     das_phase now' (dasStart left now0 g) = dasStart left now0 g).
Proof.
  intros Hheld.
  assert (forall h t, (nextMoveAt (dasState h) <=? t)%float = false ->
                      das_phase t h = h) as Hearly.
  { intros h t Ht. unfold das_phase. rewrite Ht.
    by destruct (das_left (dasState h) || das_right (dasState h)). }
  split; [apply Hearly|]. split.
  - intros Hdue.
    assert (das_phase now g =
            set_dasState (set_nextMoveAt (now + ARR) (dasState g))
              (moveOnce (if das_left (dasState g) then -1 else 1) g)) as E.
    { unfold das_phase. rewrite Hheld, Hdue.
      assert (dasState (moveOnce (if das_left (dasState g) then -1 else 1) g)
              = dasState g) as ->; [|done].
      unfold moveOnce. destruct (matrix (player g)); [|done].
      destruct (paused g || gameOver g); [done|].
      by destruct (collide _ _ _ _). }
    split; [exact E|]. intros now' Hnow'. rewrite E. apply Hearly. done.
  - intros left now0 now' Hnow'. apply Hearly.
    destruct left; exact Hnow'.
Qed.

Lemma das_schedule_witness :
  das_left (dasState (dasStart true 1000 (sample_game empty_board 18)))
  || das_right (dasState (dasStart true 1000 (sample_game empty_board 18)))
  = true /\
  das_phase 1100 (dasStart true 1000 (sample_game empty_board 18))
  = dasStart true 1000 (sample_game empty_board 18).
Proof.
  split; [reflexivity|].
  apply (proj1 (das_schedule
                  (dasStart true 1000 (sample_game empty_board 18)) 1100
                  eq_refl)).
  reflexivity.
Defined.

(** The sums are doubles: after a shift at 2005.16 ms the next one is
    scheduled at the double nearest to 2065.16, which lies below the
    exact sum; a frame at that time shifts again, and a frame one
    double earlier does not. *)
Example das_schedule_rounds :
  let g := dasStart false 0 (sample_game empty_board 18) in
  let now := 0x1.f54a3d70a3d71p+10%float in
  let now' := 0x1.02251eb851eb8p+11%float in
  (nextMoveAt (dasState (das_phase now g)) =? now')%float = true /\
  pos_x (player (das_phase now g)) = 6 /\
  das_phase 0x1.02251eb851eb7p+11 (das_phase now g) = das_phase now g /\
  pos_x (player (das_phase now' (das_phase now g))) = 7.
Proof. by vm_compute. Qed.

(** X7.  Releasing one direction key while the other is still held
    clears the schedule instead of keeping it: the held direction shifts
    on the next frame, without waiting for [DAS_DELAY] or [ARR]. *)
Theorem dasStop_hurries_other_key g (left : bool) now :
  (if left then das_right (dasState g) else das_left (dasState g)) = true ->
  (0 <=? now)%float = true ->
  nextMoveAt (dasState (dasStop left g)) = 0%float /\
  das_phase now (dasStop left g) =
    set_dasState (set_nextMoveAt (now + ARR) (dasState (dasStop left g)))
      (moveOnce (if left then 1 else -1) (dasStop left g)).
Proof.
  intros Hheld Hnow. split; [by destruct left|].
  unfold das_phase, dasStop. cbn -[moveOnce].
  destruct left; rewrite Hheld; cbn -[moveOnce]; rewrite ?orb_true_r, Hnow;
    cbn -[moveOnce].
  - f_equal. unfold moveOnce. cbn. destruct (matrix (player g)); [|done].
    destruct (paused g || gameOver g); [done|]. by destruct (collide _ _ _ _).
  - f_equal. unfold moveOnce. cbn. destruct (matrix (player g)); [|done].
    destruct (paused g || gameOver g); [done|]. by destruct (collide _ _ _ _).
Qed.

Lemma dasStop_hurries_other_key_witness :
  pos_x (player
    (das_phase 1010
       (dasStop true
          (dasStart false 1001
             (dasStart true 1000 (sample_game empty_board 18))))))
  = 6.
Proof.
  rewrite (proj2 (dasStop_hurries_other_key
             (dasStart false 1001
                (dasStart true 1000 (sample_game empty_board 18)))
             true 1010 eq_refl eq_refl)).
  reflexivity.
Defined.

(** ** Hold *)

Lemma spawnPlayer_matrix g g' :
  spawnPlayer g = Some g' -> is_Some (matrix (player g')).
Proof.
  rewrite spawnPlayer_cases. destruct (nextQueue (rand g)); [done|].
  intros [= <-]. destruct (collide _ _ _ _); by eexists.
Qed.

(** [spawnPlayer] keeps whatever is in the hold and does not read it. *)
Lemma spawnPlayer_set_hold h u g :
  spawnPlayer (set_hold h u g) = set_hold h false <$> spawnPlayer g.
Proof.
  unfold spawnPlayer. cbn -[refillQueue collide stamp createPiece COLS].
  destruct (nextQueue (refillQueue (rand g))) as [|type q]; [done|].
  destruct (stamp (PIECE_IDS type) (createPiece type)) as [|row0 rest];
    [done|].
  cbn -[refillQueue collide stamp createPiece COLS].
  by destruct (collide _ _ _ _).
Qed.

Lemma kind_of_PIECE_IDS k : kind_of_id (PIECE_IDS k) = Some k.
Proof. by destruct k. Qed.

(** [holdSwap] ends in the TypeError of [spawnPlayer] exactly when it
    has to fetch a piece, the hold being empty, and the queue is
    empty. *)
Lemma holdSwap_None g :
  holdSwap g = None <->
  is_Some (matrix (player g)) /\
  holdUsed g || gameOver g || paused g = false /\
  holdPiece g = None /\ nextQueue (rand g) = [].
Proof.
  unfold holdSwap. destruct (matrix (player g)) as [m|].
  2:{ split; [done|]. by intros [[? [=]] _]. }
  destruct (holdUsed g || gameOver g || paused g).
  { split; [done|]. by intros (_ & [=] & _). }
  destruct (holdPiece g) as [h|].
  { destruct (createPiece_rows h) as (row0 & rest & ->).
    split; [done|]. by intros (_ & _ & [=] & _). }
  assert (forall h u, spawnPlayer (set_hold h u g) = None <->
                      nextQueue (rand g) = []) as Hs.
  { intros h u. rewrite spawnPlayer_set_hold, spawnPlayer_cases.
    by destruct (nextQueue (rand g)). }
  destruct (kind_of_id (id (player g))) as [cur|].
  - destruct (spawnPlayer (set_hold _ _ g)) eqn:E.
    + split; [done|]. intros (_ & _ & _ & Hq).
      apply (Hs (Some cur) (holdUsed g)) in Hq. congruence.
    + apply Hs in E. split; [|done]. intros _. split; [by eexists|done].
  - rewrite spawnPlayer_cases. destruct (nextQueue (rand g)).
    + split; [|done]. intros _. split; [by eexists|done].
    + split; [done|]. by intros (_ & _ & _ & [=]).
Qed.

Lemma holdSwap_settles g g1 :
  holdSwap g = Some g1 ->
  holdSwap g1 = Some g1 /\ (g1 = g \/ holdUsed g1 = true).
Proof.
  unfold holdSwap at 1.
  destruct (matrix (player g)) as [m|] eqn:Hm.
  2:{ intros [= <-]. split; [|by left]. unfold holdSwap. by rewrite Hm. }
  destruct (holdUsed g || gameOver g || paused g) eqn:Hguard.
  { intros [= <-]. split; [|by left]. unfold holdSwap. by rewrite Hm, Hguard. }
  assert (forall g', is_Some (matrix (player g')) -> holdUsed g' = true ->
                     holdSwap g' = Some g') as Hused.
  { intros g' [m' Hm'] Hu. unfold holdSwap. by rewrite Hm', Hu. }
  destruct (holdPiece g) as [h|].
  - destruct (stamp (PIECE_IDS h) (createPiece h)) as [|row0 rest]; [done|].
    intros [= <-]. split; [|by right]. apply Hused; [by eexists|done].
  - destruct (kind_of_id (id (player g))) as [cur|].
    + destruct (spawnPlayer _) as [g'|] eqn:Hs; [|done].
      intros [= <-]. split; [|by right].
      apply Hused; [|done]. apply spawnPlayer_matrix in Hs. done.
    + destruct (spawnPlayer _) as [g'|] eqn:Hs; [|done].
      intros [= <-]. split; [|by right].
      apply Hused; [|done]. apply spawnPlayer_matrix in Hs. done.
Qed.

(** X8.  A second hold on the same piece does nothing: once [holdSwap]
    has returned, the hold is marked used, unless the call was idle,
    and a further call returns the state unchanged.  [holdSwap] does
    not always return: with a piece in play in a running game whose
    hold is free and empty, it calls [spawnPlayer], and ends in its
    TypeError when the queue is empty; in every other state it
    returns. *)
Theorem holdSwap_once g :
  (forall g1, holdSwap g = Some g1 ->
     holdSwap g1 = Some g1 /\ (g1 = g \/ holdUsed g1 = true)) /\
  (holdSwap g = None <->
   is_Some (matrix (player g)) /\
   holdUsed g || gameOver g || paused g = false /\
   holdPiece g = None /\ nextQueue (rand g) = []).
Proof. split; [apply holdSwap_settles|apply holdSwap_None]. Qed.

Lemma holdSwap_once_witness :
  let g := stocked_game [kT] empty_board 18 in
  exists g1,
    holdSwap g = Some g1 /\ holdSwap g1 = Some g1 /\ holdUsed g1 = true /\
    holdSwap (sample_game empty_board 18) = None.
Proof.
  intros g. eexists. split; [reflexivity|].
  split; [|split; [reflexivity|]].
  - eapply (proj1 (holdSwap_once g)). reflexivity.
  - apply (proj2 (holdSwap_once (sample_game empty_board 18))).
    split; [by eexists|]. by repeat split.
Defined.

(** With a T kind waiting, the O piece goes into the empty hold and the
    second call is idle. *)
Example holdSwap_twice :
  let g := stocked_game [kT] empty_board 18 in
  (holdPiece <$> holdSwap g) = Some (Some kO) /\
  (g1 ← holdSwap g; holdSwap g1) = holdSwap g.
Proof. split; by vm_compute. Qed.

(** X9.  With a piece of kind [k] in play and the hold not yet used for
    it: when the hold is empty, [k] goes into the hold and the next
    piece is spawned from the queue; when the hold has the kind [h], the
    two are exchanged and the piece of kind [h] starts from the spawn
    position.  The exchange makes no collision test: the board, the
    queue, the timers and the game-over flag stay as they are, whatever
    lies under the spawn position, and the lock counter is not reset. *)
Theorem holdSwap_exchanges g m k :
  matrix (player g) = Some m -> id (player g) = PIECE_IDS k ->
  holdUsed g = false -> gameOver g = false -> paused g = false ->
  match holdPiece g with
  | Some h =>
      holdSwap g =
      Some (set_hold (Some k) true
              (set_player
                 (mkPlayer (spawn_x h) (-1) (Some (spawn_matrix h))
                    (PIECE_IDS h)) g))
  | None =>
      holdSwap g = (g1 ← spawnPlayer g; Some (set_hold (Some k) true g1))
  end.
Proof.
  intros Hm Hid Hu Hgo Hp. unfold holdSwap.
  rewrite Hm, Hu, Hgo, Hp, Hid, kind_of_PIECE_IDS. cbn [orb].
  destruct (holdPiece g) as [h|].
  - unfold spawn_x, spawn_matrix.
    destruct (createPiece_rows h) as (row0 & rest & ->).
    cbn [stamp fmap list_fmap]. by rewrite length_fmap.
  - rewrite spawnPlayer_set_hold. by destruct (spawnPlayer g).
Qed.

Lemma holdSwap_exchanges_witness :
  let g := set_hold (Some kI) false
             (sample_game (<[0%nat := replicate 12 1]> empty_board) 18) in
  exists g',
    holdSwap g = Some g' /\
    holdPiece g' = Some kO /\
    collide (arena g') (pos_x (player g')) (pos_y (player g'))
      (spawn_matrix kI) = true /\
    gameOver g' = false.
Proof.
  intros g.
  pose proof (holdSwap_exchanges g (spawn_matrix kO) kO
                eq_refl eq_refl eq_refl eq_refl eq_refl) as H.
  cbn [holdPiece g set_hold] in H. eexists. split; [exact H|].
  by vm_compute.
Defined.

(** ** Sweeping again *)

Lemma filter_not_full_none rows :
  full_count rows = 0%nat -> List.filter not_full rows = rows.
Proof.
  unfold full_count, not_full.
  induction rows as [|row rows IH]; simpl; [done|].
  destruct (row_full row); simpl; [done|]. intros H. by rewrite IH.
Qed.

Lemma full_count_swept k rows :
  full_count (replicate k empty_row ++ List.filter not_full rows) = 0%nat.
Proof.
  induction k as [|k IH]; simpl.
  - unfold full_count, not_full.
    induction rows as [|row rows IH]; simpl; [done|].
    destruct (row_full row) eqn:E; simpl; [done|]. by rewrite E.
  - by rewrite full_count_empty_cons.
Qed.

Lemma set_arena_eta g : set_arena (arena g) g = g.
Proof. by destruct g. Qed.

(** X10.  On a board of [ROWS] rows of [COLS] cells [sweep] returns;
    after it no full row is left, and a second sweep changes neither the
    board nor the score. *)
Theorem sweep_idempotent g :
  wf_arena (arena g) ->
  exists g1,
    sweep g = Some g1 /\
    full_count (arena g1) = 0%nat /\ sweep g1 = Some g1.
Proof.
  intros Hwf.
  destruct (sweep_arena g Hwf) as (g1 & Hs & Ha).
  exists g1. split; [done|].
  assert (full_count (arena g1) = 0%nat) as H0.
  { rewrite Ha. apply full_count_swept. }
  split; [done|].
  assert (wf_arena (arena g1)) as Hwf1.
  { destruct (sweep_ok g Hwf) as (g2 & Hs2 & Hwf2). congruence. }
  unfold sweep. rewrite (sweep_rows_eq _ Hwf1), H0.
  cbn. rewrite (filter_not_full_none _ H0). by rewrite set_arena_eta.
Qed.

Lemma sweep_idempotent_witness :
  wf_arena (arena (sample_game bottom_full_board 10)) /\
  exists g1,
    sweep (sample_game bottom_full_board 10) = Some g1 /\
    score (stats g1) = 40 /\ sweep g1 = Some g1.
Proof.
  assert (wf_arena (arena (sample_game bottom_full_board 10))) as Hwf
    by wf_by_computation.
  split; [exact Hwf|].
  destruct (sweep_idempotent _ Hwf) as (g1 & E & _ & Hagain).
  exists g1. split; [exact E|]. split; [|exact Hagain].
  vm_compute in E. by injection E as <-.
Defined.

(** ** Locking on free cells *)

Lemma cell_in_board arena r c v :
  wf_arena arena -> Js.cell arena r c = Some v -> in_board r c.
Proof.
  intros [Hlen Hrows]. unfold Js.cell, Js.at2.
  destruct (0 <=? r) eqn:Hr; [|done]. destruct (0 <=? c) eqn:Hc; [|done].
  cbn. destruct (arena !! Z.to_nat r) as [row|] eqn:Hrow; [|done].
  intros Hv. apply lookup_lt_Some in Hv.
  rewrite (Forall_lookup_1 _ _ _ _ Hrows Hrow) in Hv.
  apply lookup_lt_Some in Hrow. rewrite Hlen in Hrow.
  unfold in_board, ROWS, COLS in *. lia.
Qed.

(** X11.  A piece that fits the board locks onto empty cells only: every
    cell it covers on the board was empty, and every block that was on
    the board is still there afterwards. *)
Theorem mergeToArena_keeps_blocks g m :
  wf_arena (arena g) -> matrix (player g) = Some m ->
  collide (arena g) (pos_x (player g)) (pos_y (player g)) m = false ->
  exists g1,
    mergeToArena g = Some g1 /\
    (forall r c, in_board r c ->
       covers m (pos_x (player g)) (pos_y (player g)) r c ->
       Js.cell (arena g) r c = Some 0) /\
    (forall r c, filled (arena g) r c ->
       Js.cell (arena g1) r c = Js.cell (arena g) r c).
Proof.
  intros Hwf Hm Hfree.
  assert (forall r c, 0 <= r ->
            covers m (pos_x (player g)) (pos_y (player g)) r c ->
            ~ filled (arena g) r c) as Hempty.
  { intros r c Hr (y & x & Ho & <- & <-) Hf.
    assert (collide (arena g) (pos_x (player g)) (pos_y (player g)) m = true)
      as E; [|congruence].
    apply collide_true_iff. exists y, x. split; [done|].
    right. right. done. }
  destruct (merge_rows_spec (arena g) (pos_x (player g)) (pos_y (player g))
              m 0 Hwf) as (arena' & Hmerge & Hwf' & Hcells).
  exists (set_arena arena' g). split.
  { unfold mergeToArena. rewrite Hm. unfold Js.Math_floor. by rewrite Hmerge. }
  split.
  - intros r c Hin Hcov.
    destruct (wf_arena_lookup _ r Hwf (proj1 Hin)) as (row & Hrow & Hlen).
    destruct (row !! Z.to_nat c) as [v|] eqn:Hv.
    2:{ apply lookup_ge_None in Hv. unfold in_board, COLS in *. lia. }
    assert (Js.cell (arena g) r c = Some v) as Hcell.
    { unfold Js.cell, Js.at2. destruct Hin as [[Hr _] [Hc _]].
      apply Z.leb_le in Hr, Hc. by rewrite Hr, Hc, Hrow. }
    rewrite Hcell. f_equal.
    destruct (decide (v = 0)) as [->|Hnz]; [done|].
    exfalso. apply (Hempty r c (proj1 (proj1 Hin)) Hcov). by exists v.
  - intros r c Hf. pose proof Hf as (v & Hv & Hnz).
    pose proof (cell_in_board _ _ _ _ Hwf Hv) as Hin.
    cbn. rewrite (Hcells r c Hin).
    destruct (shape_val m 0 (pos_x (player g)) (pos_y (player g)) r c)
      as [w|] eqn:Hw; [|done].
    exfalso. apply shape_val_Some in Hw as (y & x & Hyx & Hwz & Hy & Hx).
    apply (Hempty r c (proj1 (proj1 Hin))); [|done].
    exists y, x. split; [by exists w|done].
Qed.

Lemma mergeToArena_keeps_blocks_witness :
  exists g1,
    mergeToArena (sample_game bottom_full_board 17) = Some g1 /\
    Js.cell (arena g1) 19 5 = Some 1 /\
    Js.cell (arena g1) 18 5 = Some 2.
Proof.
  destruct (mergeToArena_keeps_blocks (sample_game bottom_full_board 17)
              (spawn_matrix kO)) as (g1 & Hg1 & _ & Hkeep);
    [wf_by_computation|reflexivity|reflexivity|].
  exists g1. split; [exact Hg1|].
  vm_compute in Hg1. injection Hg1 as <-. by vm_compute.
Defined.

(** ** At most four rows at a time *)

Lemma full_count_insert i row rows :
  (full_count (<[i := row]> rows) <= full_count rows + 1)%nat.
Proof.
  destruct (decide (i < length rows)%nat) as [Hi|Hi].
  - destruct (lookup_lt_is_Some_2 rows i Hi) as [old Hold].
    rewrite insert_take_drop by done.
    rewrite <- (take_drop_middle rows i old Hold) at 3.
    unfold full_count. rewrite !List.filter_app, !length_app. simpl.
    destruct (row_full row), (row_full old); simpl; lia.
  - rewrite list_insert_ge by lia. lia.
Qed.

Lemma write_shape arena ay ax v arena' :
  write arena ay ax v = Some arena' ->
  exists row', arena' = <[Z.to_nat ay := row']> arena.
Proof.
  unfold write. destruct ((0 <=? ay) && (0 <=? ax)); [|done].
  destruct (arena !! Z.to_nat ay) as [row|]; [|done].
  destruct (Z.to_nat ax <? length row)%nat; [|done].
  intros [= <-]. by eexists.
Qed.

Lemma merge_row_shape posX ay row :
  forall x0 arena arena',
    merge_row arena posX ay row x0 = Some arena' ->
    arena' = arena \/ exists row', arena' = <[Z.to_nat ay := row']> arena.
Proof.
  induction row as [|v row IH]; intros x0 arena arena'; cbn [merge_row].
  { intros [= <-]. by left. }
  destruct (v =? 0); [apply IH|]. cbv zeta.
  destruct ((ay >=? 0) && (ay <? ROWS) && (Z.of_nat x0 + posX >=? 0)
            && (Z.of_nat x0 + posX <? COLS)); [|apply IH].
  destruct (write arena ay (Z.of_nat x0 + posX) v) as [a1|] eqn:Hw; [|done].
  cbn [mbind option_bind]. intros H. apply write_shape in Hw as [row1 ->].
  apply IH in H as [->|[row' ->]]; right.
  - by eexists.
  - exists row'. by rewrite list_insert_insert_eq.
Qed.

Lemma merge_rows_full_count posX posY m :
  forall y0 arena arena',
    merge_rows arena posX posY m y0 = Some arena' ->
    (full_count arena' <= full_count arena + length m)%nat.
Proof.
  induction m as [|row m IH]; intros y0 arena arena'; cbn [merge_rows].
  { intros [= <-]. simpl. lia. }
  destruct (merge_row arena posX (Z.of_nat y0 + posY) row 0) as [a1|] eqn:Hr;
    [|done].
  cbn [mbind option_bind length]. intros H. apply IH in H.
  apply merge_row_shape in Hr as [->|[row' ->]]; [lia|].
  pose proof (full_count_insert (Z.to_nat (Z.of_nat y0 + posY)) row' arena).
  lia.
Qed.

(** X12.  On a board without a full row, locking a piece of at most four
    rows fills at most as many rows as the shape has, so the following
    sweep clears between 0 and 4 rows and the score table has an entry
    for the count: its fallback to 0 is never used. *)
Theorem lock_clears_at_most_four g m :
  wf_arena (arena g) -> full_count (arena g) = 0%nat ->
  matrix (player g) = Some m -> (length m <= 4)%nat ->
  exists g1 arena' cleared,
    mergeToArena g = Some g1 /\
    sweep_rows (arena g1) = Some (arena', cleared) /\
    0 <= cleared <= Z.of_nat (length m) /\
    lineScores !! Z.to_nat cleared = Some (line_score cleared).
Proof.
  intros Hwf H0 Hm Hlen.
  destruct (mergeToArena_wf g m Hwf Hm) as (g1 & Hg1 & Hwf1).
  assert (full_count (arena g1) <= length m)%nat as Hfc.
  { unfold mergeToArena in Hg1. rewrite Hm in Hg1.
    destruct (merge_rows _ _ _ _ _) as [a1|] eqn:Hmr; [|done].
    injection Hg1 as <-. cbn [arena set_arena].
    apply merge_rows_full_count in Hmr. lia. }
  exists g1, (replicate (full_count (arena g1)) empty_row
              ++ List.filter not_full (arena g1)),
    (Z.of_nat (full_count (arena g1))).
  split; [done|]. split; [by apply sweep_rows_eq|]. split; [lia|].
  unfold line_score. rewrite Nat2Z.id.
  destruct (Z.of_nat (full_count (arena g1)) <? 0) eqn:E;
    [apply Z.ltb_lt in E; lia|].
  assert (full_count (arena g1) <= 4)%nat as H4 by lia.
  destruct (full_count (arena g1)) as [|[|[|[|[|n]]]]]; try done. lia.
Qed.

Lemma lock_clears_at_most_four_witness :
  exists g1 arena' cleared,
    mergeToArena (sample_game empty_board 18) = Some g1 /\
    sweep_rows (arena g1) = Some (arena', cleared) /\
    0 <= cleared <= 2.
Proof.
  destruct (lock_clears_at_most_four (sample_game empty_board 18)
              (spawn_matrix kO))
    as (g1 & arena' & cleared & H1 & H2 & H3 & _);
    [wf_by_computation|reflexivity|reflexivity|simpl; lia|].
  by exists g1, arena', cleared.
Defined.

(** ** Frames of a game that stands still *)

(** X15.  While the game is paused or over, frames only move the time
    stamp: after any number of them the state is the one before with the
    time of the last frame.  The first frame after a pause therefore
    counts the time since the last frame of the pause, not the pause
    itself. *)
Theorem idle_frames_only_stamp g frames :
  paused g = true \/ gameOver g = true ->
  exists g',
    run (frame_events frames) g = Some g' /\
    g' = set_timing
           (set_lastTime (last_frame_time (lastTime (timing g)) frames)
              (timing g)) g /\
    forall time,
      frame_delta time (set_paused false g') =
      delta_since (last_frame_time (lastTime (timing g)) frames) time.
Proof.
  intros Hidle. eexists. split; [|split; [reflexivity|done]].
  revert g Hidle. induction frames as [|[time now] frames IH]; intros g Hidle.
  - cbn. f_equal. by destruct g as [? ? ? ? ? ? [] ? ? ? ?].
  - cbn [frame_events map run step fst snd last_frame_time].
    assert (update time now g
            = Some (set_timing (set_lastTime time (timing g)) g)) as ->.
    { unfold update. cbn [paused gameOver set_timing].
      by destruct Hidle as [-> | ->]; rewrite ?andb_false_r. }
    cbn [mbind option_bind]. fold (frame_events frames).
    rewrite IH by done. by destruct g as [? ? ? ? ? ? [] ? ? ? ?].
Qed.

Lemma idle_frames_only_stamp_witness :
  exists g',
    run (frame_events [(1100, 1100); (9000, 9000)]%float)
      (set_paused true (sample_game empty_board 18)) = Some g' /\
    frame_delta 9016 (set_paused false g') = (9016 - 9000)%float.
Proof.
  destruct (idle_frames_only_stamp
              (set_paused true (sample_game empty_board 18))
              [(1100, 1100); (9000, 9000)]%float (or_introl eq_refl))
    as (g' & Hrun & _ & Hdelta).
  exists g'. split; [exact Hrun|]. rewrite Hdelta. reflexivity.
Defined.

(** ** The states of a game in progress *)








(** *** Spawning *)



(** *** Locking *)








(** *** Moving, turning, falling *)










(** *** Every handler *)

















(** ** The piece stays clear of the blocks *)

Lemma try_kicks_free arena x0 y m ks x :
  try_kicks arena x0 y m ks = Some x -> collide arena x y m = false.
Proof.
  induction ks as [|k ks IH]; cbn [try_kicks]; [done|].
  unfold Js.Math_round.
  destruct (collide arena (x0 + k) y m) eqn:Hc; cbn [negb]; [done|].
  by intros [= <-].
Qed.

Lemma moveOnce_legal dir g : legal g -> legal (moveOnce dir g).
Proof.
  intros Hl. unfold moveOnce.
  destruct (matrix (player g)) as [m|] eqn:Hm; [|done].
  destruct (paused g || gameOver g); [done|].
  unfold Js.Math_floor.
  destruct (collide (arena g) (pos_x (player g) + dir) (pos_y (player g)) m)
    eqn:Hc.
  - intros Hgo m' Hm'. cbn in *. rewrite Z.add_simpl_r.
    by apply Hl.
  - intros Hgo m' Hm'. cbn in *. congruence.
Qed.

Lemma rotatePlayer_legal dir g : legal g -> legal (rotatePlayer dir g).
Proof.
  intros Hl. unfold rotatePlayer.
  destruct (matrix (player g)) as [old|] eqn:Hm; [|done].
  destruct (try_kicks _ _ _ _ _) as [x|] eqn:Hk.
  - apply try_kicks_free in Hk. intros Hgo m' Hm'. cbn in *. congruence.
  - intros Hgo m' Hm'. cbn in *. injection Hm' as <-. by apply Hl.
Qed.

Lemma spawnPlayer_legal g g' : spawnPlayer g = Some g' -> legal g'.
Proof.
  rewrite spawnPlayer_cases.
  destruct (nextQueue (rand g)) as [|type q]; [done|]. cbv zeta.
  destruct (collide _ _ _ _) eqn:Hc; intros [= <-]; [done|].
  intros Hgo m' Hm'. cbn in *. by injection Hm' as <-.
Qed.

Lemma lock_here_legal g g' : lock_here g = Some g' -> legal g'.
Proof.
  unfold lock_here. destruct (mergeToArena g) as [g1|]; [|done].
  cbn [mbind option_bind]. destruct (sweep g1) as [g2|]; [|done].
  cbn [mbind option_bind]. apply spawnPlayer_legal.
Qed.

Lemma legal_das d g : legal g -> legal (set_dasState d g).
Proof. done. Qed.

Lemma gravity_loop_legal fuel ms g g' :
  gravity_loop fuel ms g = Some g' -> legal g -> legal g'.
Proof.
  revert g. induction fuel as [|fuel IH]; intros g; cbn [gravity_loop];
    destruct (ms <=? dropAccumulator (timing g))%float;
    try (by intros [= <-]); try done.
  cbn [matrix player set_timing set_player set_pos_y arena pos_x pos_y].
  destruct (matrix (player g)) as [m|] eqn:Hm; [|done].
  unfold Js.Math_floor.
  destruct (collide (arena g) (pos_x (player g)) (pos_y (player g) + 1) m)
    eqn:Hc.
  - cbn [timing set_player set_timing onGround set_dropAccumulator].
    intros H Hl. assert (legal (set_player
      (set_pos_y (pos_y (player g) + 1 - 1) (player g)) g)) as Hl'.
    { intros Hgo m' Hm'. cbn in *. rewrite Z.add_simpl_r. by apply Hl. }
    destruct (onGround (timing g)); by injection H as <-.
  - intros H Hl. apply (IH _ H).
    intros Hgo m' Hm'. cbn in *. congruence.
Qed.

Lemma update_legal time now g g' :
  update time now g = Some g' -> legal g -> legal g'.
Proof.
  unfold update. set (g0 := set_timing _ g).
  destruct (negb (paused g0) && negb (gameOver g0)); [|by intros [= <-]].
  unfold gravity_phase.
  destruct (gravity_loop _ _ _) as [g1|] eqn:Hg1; [|done].
  cbn [mbind option_bind]. intros H Hl.
  assert (legal (das_phase now g1)) as Hl2.
  { apply gravity_loop_legal in Hg1; [|done].
    unfold das_phase.
    destruct (das_left (dasState g1) || das_right (dasState g1)); [|done].
    destruct (nextMoveAt (dasState g1) <=? now)%float; [|done].
    by apply legal_das, moveOnce_legal. }
  unfold lock_phase in H.
  destruct (onGround (timing (das_phase now g1))); [|by injection H as <-].
  match type of H with
  | (if ?b then _ else _) = _ => destruct b; [|by injection H as <-]
  end.
  unfold lock_piece in H.
  destruct (mergeToArena _) as [h1|]; [|done]. cbn [mbind option_bind] in H.
  destruct (sweep h1) as [h2|]; [|done]. cbn [mbind option_bind] in H.
  destruct (spawnPlayer h2) as [h3|] eqn:Hs; [|done].
  cbn [mbind option_bind] in H. injection H as <-.
  by apply spawnPlayer_legal in Hs.
Qed.

Lemma hardDrop_legal g g' : hardDrop g = Some g' -> legal g -> legal g'.
Proof.
  unfold hardDrop. destruct (matrix (player g)); [|by intros [= <-]].
  destruct (gameOver g || paused g); [by intros [= <-]|].
  destruct (landing_drop _ _ _ _); [|done].
  destruct (mergeToArena _) as [h1|]; [|done]. cbn [mbind option_bind].
  destruct (sweep h1) as [h2|]; [|done]. cbn [mbind option_bind].
  destruct (spawnPlayer h2) as [h3|] eqn:Hs; [|done].
  cbn [mbind option_bind]. intros [= <-] _.
  by apply spawnPlayer_legal in Hs.
Qed.

Lemma holdSwap_legal g g' :
  holdSwap g = Some g' -> holdPiece g = None -> legal g -> legal g'.
Proof.
  unfold holdSwap. intros H Hh. rewrite Hh in H. revert H.
  destruct (matrix (player g)); [|by intros [= <-]].
  destruct (holdUsed g || gameOver g || paused g); [by intros [= <-]|].
  destruct (kind_of_id _);
    (destruct (spawnPlayer _) as [h|] eqn:Hs; [|done]);
    cbn [mbind option_bind]; intros [= <-] _;
    by apply spawnPlayer_legal in Hs.
Qed.

Lemma resetGame_legal g g' : resetGame g = Some g' -> legal g'.
Proof.
  unfold resetGame. destruct (clear_arena _); [|done].
  cbn [mbind option_bind]. apply spawnPlayer_legal.
Qed.

Lemma step_legal e g g' :
  step e g = Some g' -> (e = KeyHold -> holdPiece g = None) ->
  legal g -> legal g'.
Proof.
  destruct e; cbn [step]; intros H Hhold Hl;
    try (injection H as <-).
  - by apply moveOnce_legal.
  - by apply moveOnce_legal.
  - done.
  - done.
  - done.
  - done.
  - by apply rotatePlayer_legal.
  - by eapply hardDrop_legal.
  - eapply holdSwap_legal; [done| |done]. by apply Hhold.
  - done.
  - done.
  - by eapply resetGame_legal.
  - by eapply update_legal.
  - destruct (timeouts g); [by injection H as <-|].
    by eapply resetGame_legal.
Qed.

(** X19.  As long as the hold key is not used, the piece of a running
    game never overlaps a block of the board and never leaves the board
    sideways or through the floor: in every state that a sequence of
    events reaches, moves, rotations and gravity have only taken the
    piece to positions that do not collide, and a spawn onto blocks has
    ended the game.  (A hold exchange is the exception: it places the
    held piece at the spawn position without a collision test.) *)
Theorem run_keeps_piece_free es g g' :
  legal g -> KeyHold ∉ es -> run es g = Some g' -> legal g'.
Proof.
  revert g. induction es as [|e es IH]; intros g Hl Hno; cbn [run].
  - by intros [= <-].
  - destruct (step e g) as [g1|] eqn:Hs; [|done]. cbn [mbind option_bind].
    apply IH.
    + eapply step_legal; [exact Hs| |done].
      intros ->. exfalso. apply Hno. by left.
    + intros Hin. apply Hno. by right.
Qed.

Lemma run_keeps_piece_free_witness :
  legal started_game /\
  (KeyHold ∉ [KeyDownLeft 0; KeyRotate; Frame 16 16; Frame 2000 2000;
              KeyHardDrop]) /\
  exists g',
    run [KeyDownLeft 0; KeyRotate; Frame 16 16; Frame 2000 2000; KeyHardDrop]
      started_game = Some g' /\
    legal g'.
Proof.
  assert (legal started_game) as Hl.
  { intros _ m [= <-]. reflexivity. }
  assert (KeyHold ∉ [KeyDownLeft 0; KeyRotate; Frame 16 16; Frame 2000 2000;
                     KeyHardDrop]) as Hno.
  { rewrite !not_elem_of_cons. repeat (split; [done|]).
    apply not_elem_of_nil. }
  split; [exact Hl|]. split; [exact Hno|].
  eexists. split; [by vm_compute|].
  eapply (run_keeps_piece_free _ started_game _ Hl Hno). by vm_compute.
Defined.

(** ** The score book *)

Lemma rises_refl s : rises s s.
Proof. intros H. split; [done|lia]. Qed.

Lemma rises_trans s1 s2 s3 : rises s1 s2 -> rises s2 s3 -> rises s1 s3.
Proof.
  intros H12 H23 H1. destruct (H12 H1) as (H2 & Ha & Hb & Hc).
  destruct (H23 H2) as (H3 & Ha' & Hb' & Hc'). split; [done|lia].
Qed.

Lemma rises_grows s s' : rises s s' -> grows s s'.
Proof. intros H Hok. destruct (H Hok) as (? & ? & _). by split. Qed.

Lemma grows_trans s1 s2 s3 : grows s1 s2 -> grows s2 s3 -> grows s1 s3.
Proof.
  intros H12 H23 H1. destruct (H12 H1) as [H2 Hle].
  destruct (H23 H2) as [H3 Hle']. split; [done|lia].
Qed.

Lemma sweep_loop_count fuel a y c a' c' :
  sweep_loop fuel a y c = Some (a', c') -> c <= c'.
Proof.
  revert a y c. induction fuel as [|fuel IH]; intros a y c; [done|].
  rewrite sweep_loop_S. destruct (y >=? 0); [|intros [= _ <-]; lia].
  destruct (a !! Z.to_nat y) as [row|]; [|done].
  destruct (row_full row); intros H; apply IH in H; lia.
Qed.

Lemma line_score_nonneg c : 0 <= line_score c.
Proof.
  unfold line_score. destruct (c <? 0); [lia|].
  destruct (Z.to_nat c) as [|[|[|[|[|n]]]]]; cbn; try lia.
  destruct n; cbn; lia.
Qed.

Lemma award_rises c s : 0 < c -> rises s (award c s).
Proof.
  intros Hc (Hlevel & Hlines & Hscore & Hhigh).
  pose proof (line_score_nonneg c) as Hls.
  assert (0 <= level s) as Hlv by (rewrite Hlevel; apply Z.div_pos; lia).
  assert (0 <= line_score c * (level s + 1)) as Hgain
    by (apply Z.mul_nonneg_nonneg; lia).
  unfold award, stats_ok. cbn [score level lines highscore].
  destruct (highscore s <? score s + line_score c * (level s + 1)) eqn:E.
  - apply Z.ltb_lt in E. repeat split; lia.
  - apply Z.ltb_ge in E. repeat split; lia.
Qed.

Lemma sweep_rises g g' : sweep g = Some g' -> rises (stats g) (stats g').
Proof.
  unfold sweep, sweep_rows.
  destruct (sweep_loop _ _ _ _) as [[a c]|] eqn:Hloop; [|done].
  apply sweep_loop_count in Hloop. intros [= <-].
  destruct (c >? 0) eqn:E; [|apply rises_refl].
  apply award_rises. lia.
Qed.

Lemma spawnPlayer_stats g g' : spawnPlayer g = Some g' -> stats g' = stats g.
Proof.
  rewrite spawnPlayer_cases.
  destruct (nextQueue (rand g)) as [|type q]; [done|]. cbv zeta.
  intros [= <-]. by destruct (collide _ _ _ _).
Qed.

Lemma mergeToArena_stats g g' :
  mergeToArena g = Some g' -> stats g' = stats g.
Proof.
  unfold mergeToArena. destruct (matrix (player g)); [|done].
  destruct (merge_rows _ _ _ _ _); [|done]. by intros [= <-].
Qed.

Lemma lock_rises g g1 g2 g3 :
  mergeToArena g = Some g1 -> sweep g1 = Some g2 -> spawnPlayer g2 = Some g3 ->
  rises (stats g) (stats g3).
Proof.
  intros H1 H2 H3. apply mergeToArena_stats in H1.
  apply sweep_rises in H2. apply spawnPlayer_stats in H3.
  by rewrite H3, <- H1.
Qed.

Lemma gravity_loop_stats fuel ms g g' :
  gravity_loop fuel ms g = Some g' -> stats g' = stats g.
Proof.
  revert g. induction fuel as [|fuel IH]; intros g; cbn [gravity_loop];
    destruct (ms <=? dropAccumulator (timing g))%float;
    try (by intros [= <-]); try done.
  cbn [matrix player set_timing set_player set_pos_y arena pos_x pos_y].
  destruct (matrix (player g)) as [m|]; [|done].
  destruct (collide _ _ _ m).
  - cbn [timing set_player set_timing onGround set_dropAccumulator].
    destruct (onGround (timing g)); by intros [= <-].
  - intros H. by apply IH in H.
Qed.

Lemma update_rises time now g g' :
  update time now g = Some g' -> rises (stats g) (stats g').
Proof.
  unfold update. set (g0 := set_timing _ g).
  destruct (negb (paused g0) && negb (gameOver g0));
    [|intros [= <-]; apply rises_refl].
  unfold gravity_phase.
  destruct (gravity_loop _ _ _) as [g1|] eqn:Hg1; [|done].
  cbn [mbind option_bind]. intros H.
  apply gravity_loop_stats in Hg1. cbn [stats set_timing] in Hg1.
  pose proof (das_phase_keeps now g1) as [(_ & _ & _ & Hst & _) _].
  unfold lock_phase in H.
  destruct (onGround (timing (das_phase now g1))).
  2:{ injection H as <-. cbn [stats set_timing]. rewrite Hst, Hg1.
      apply rises_refl. }
  match type of H with
  | (if ?b then _ else _) = _ => destruct b
  end.
  2:{ injection H as <-. cbn [stats set_timing]. rewrite Hst, Hg1.
      apply rises_refl. }
  unfold lock_piece in H.
  destruct (mergeToArena _) as [h1|] eqn:H1; [|done].
  cbn [mbind option_bind] in H.
  destruct (sweep h1) as [h2|] eqn:H2; [|done]. cbn [mbind option_bind] in H.
  destruct (spawnPlayer h2) as [h3|] eqn:H3; [|done].
  cbn [mbind option_bind] in H. injection H as <-.
  cbn [stats set_timing].
  pose proof (lock_rises _ _ _ _ H1 H2 H3) as Hg.
  cbn [stats set_timing] in Hg. by rewrite Hst, Hg1 in Hg.
Qed.

Lemma hardDrop_rises g g' :
  hardDrop g = Some g' -> rises (stats g) (stats g').
Proof.
  unfold hardDrop.
  destruct (matrix (player g)); [|intros [= <-]; apply rises_refl].
  destruct (gameOver g || paused g); [intros [= <-]; apply rises_refl|].
  destruct (landing_drop _ _ _ _); [|done].
  destruct (mergeToArena _) as [h1|] eqn:H1; [|done].
  cbn [mbind option_bind].
  destruct (sweep h1) as [h2|] eqn:H2; [|done]. cbn [mbind option_bind].
  destruct (spawnPlayer h2) as [h3|] eqn:H3; [|done].
  cbn [mbind option_bind]. intros [= <-].
  exact (lock_rises _ _ _ _ H1 H2 H3).
Qed.

Lemma holdSwap_stats g g' : holdSwap g = Some g' -> stats g' = stats g.
Proof.
  unfold holdSwap. destruct (matrix (player g)); [|by intros [= <-]].
  destruct (holdUsed g || gameOver g || paused g); [by intros [= <-]|].
  destruct (holdPiece g).
  - destruct (stamp _ _); [done|]. by intros [= <-].
  - destruct (kind_of_id _);
      (destruct (spawnPlayer _) as [h|] eqn:Hs; [|done]);
      cbn [mbind option_bind]; intros [= <-];
      by apply spawnPlayer_stats in Hs.
Qed.

Lemma resetGame_grows g g' :
  resetGame g = Some g' -> grows (stats g) (stats g').
Proof.
  unfold resetGame. destruct (clear_arena _); [|done].
  cbn [mbind option_bind]. intros H. apply spawnPlayer_stats in H.
  rewrite H. cbn [stats set_gameOver set_hold set_stats].
  intros (_ & _ & Hscore). unfold stats_ok. cbn. repeat split; lia.
Qed.

Lemma step_rises e g g' :
  step e g = Some g' -> e <> ClickRestart -> e <> TimerFires ->
  rises (stats g) (stats g').
Proof.
  destruct e; cbn [step]; intros H Hr Ht; try done;
    try (injection H as <-); try apply rises_refl.
  - destruct (moveOnce_keeps (-1) (dasStart true now g))
      as [(_ & _ & _ & -> & _) _]. apply rises_refl.
  - destruct (moveOnce_keeps 1 (dasStart false now g))
      as [(_ & _ & _ & -> & _) _]. apply rises_refl.
  - unfold rotatePlayer. destruct (matrix (player g)); [|apply rises_refl].
    destruct (try_kicks _ _ _ _ _); apply rises_refl.
  - by apply hardDrop_rises.
  - apply holdSwap_stats in H. rewrite H. apply rises_refl.
  - by eapply update_rises.
Qed.

Lemma step_grows e g g' : step e g = Some g' -> grows (stats g) (stats g').
Proof.
  intros H.
  destruct e;
    try (apply rises_grows; eapply step_rises; [exact H|done|done]).
  - by apply resetGame_grows.
  - cbn [step] in H. destruct (timeouts g).
    + injection H as <-. apply rises_grows, rises_refl.
    + by apply resetGame_grows in H.
Qed.

Lemma run_grows es g g' : run es g = Some g' -> grows (stats g) (stats g').
Proof.
  revert g. induction es as [|e es IH]; intros g; cbn [run].
  - intros [= <-]. apply rises_grows, rises_refl.
  - destruct (step e g) as [g1|] eqn:Hs; [|done]. cbn [mbind option_bind].
    intros Hrun. eapply grows_trans; [by eapply step_grows|by apply IH].
Qed.

Lemma run_rises es g g' :
  ClickRestart ∉ es -> TimerFires ∉ es ->
  run es g = Some g' -> rises (stats g) (stats g').
Proof.
  revert g. induction es as [|e es IH]; intros g Hr Ht; cbn [run].
  - intros [= <-]. apply rises_refl.
  - apply not_elem_of_cons in Hr as [Hr Hr'], Ht as [Ht Ht'].
    destruct (step e g) as [g1|] eqn:Hs; [|done]. cbn [mbind option_bind].
    intros Hrun. eapply rises_trans; [|by apply IH].
    apply (step_rises e); [done| |]; congruence.
Qed.

(** X20.  In every state that a sequence of key presses, frames,
    restarts and timer callbacks reaches, the score book is consistent
    if it was at the start: the level is the number of cleared lines
    divided by ten and rounded down, the score is not negative and not
    above the high score, and the high score has not fallen.  Between
    two resets neither the score nor the number of lines falls. *)
Theorem run_keeps_score_book es g g' :
  stats_ok (stats g) -> run es g = Some g' ->
  stats_ok (stats g') /\ highscore (stats g) <= highscore (stats g') /\
  (ClickRestart ∉ es -> TimerFires ∉ es ->
   score (stats g) <= score (stats g') /\
   lines (stats g) <= lines (stats g')).
Proof.
  intros Hok Hrun.
  destruct (run_grows _ _ _ Hrun Hok) as [Hok' Hhi].
  split; [done|]. split; [done|]. intros Hr Ht.
  destruct (run_rises _ _ _ Hr Ht Hrun Hok) as (_ & _ & Hs & Hl). by split.
Qed.

Lemma run_keeps_score_book_witness :
  stats_ok (stats gap_game) /\
  exists g',
    run [KeyHardDrop; Frame 16 16] gap_game = Some g' /\
    score (stats g') = 40 /\ lines (stats g') = 1 /\
    stats_ok (stats g').
Proof.
  assert (stats_ok (stats gap_game)) as Hok.
  { unfold stats_ok. cbn. repeat split; lia. }
  split; [exact Hok|].
  eexists. split; [by vm_compute|].
  split; [reflexivity|]. split; [reflexivity|].
  eapply (run_keeps_score_book [KeyHardDrop; Frame 16 16] gap_game _ Hok).
  by vm_compute.
Defined.

(** ** The speed of the fall *)

Lemma same_speed_refl g : same_speed g g.
Proof. by split. Qed.

Lemma same_speed_trans g1 g2 g3 :
  same_speed g1 g2 -> same_speed g2 g3 -> same_speed g1 g3.
Proof. intros [H1 H2] [H3 H4]. split; congruence. Qed.

Lemma same_piece_speed g g' : same_piece g g' -> same_speed g g'.
Proof. by intros (_ & _ & _ & _ & _ & _ & H1 & H2). Qed.

Lemma spawnPlayer_speed g g' : spawnPlayer g = Some g' -> same_speed g g'.
Proof.
  rewrite spawnPlayer_cases.
  destruct (nextQueue (rand g)) as [|type q]; [done|]. cbv zeta.
  intros [= <-]. by destruct (collide _ _ _ _).
Qed.

Lemma lock_speed g g1 g2 g3 :
  mergeToArena g = Some g1 -> sweep g1 = Some g2 -> spawnPlayer g2 = Some g3 ->
  same_speed g g3.
Proof.
  intros H1 H2 H3. apply spawnPlayer_speed in H3.
  eapply same_speed_trans; [|exact H3].
  unfold sweep in H2. destruct (sweep_rows _) as [[a c]|]; [|done].
  injection H2 as <-.
  unfold mergeToArena in H1. destruct (matrix (player g)); [|done].
  destruct (merge_rows _ _ _ _ _); [|done]. injection H1 as <-.
  by destruct (c >? 0).
Qed.

Lemma gravity_loop_speed fuel ms g g' :
  gravity_loop fuel ms g = Some g' -> same_speed g g'.
Proof.
  revert g. induction fuel as [|fuel IH]; intros g; cbn [gravity_loop];
    destruct (ms <=? dropAccumulator (timing g))%float;
    try (by intros [= <-]); try done.
  cbn [matrix player set_timing set_player set_pos_y arena pos_x pos_y].
  destruct (matrix (player g)) as [m|]; [|done].
  destruct (collide _ _ _ m).
  - cbn [timing set_player set_timing onGround set_dropAccumulator].
    destruct (onGround (timing g)); by intros [= <-].
  - intros H. by apply IH in H.
Qed.

Lemma resetGame_speed g g' : resetGame g = Some g' -> same_speed g g'.
Proof.
  unfold resetGame. destruct (clear_arena _); [|done].
  cbn [mbind option_bind]. intros H. by apply spawnPlayer_speed in H.
Qed.

Lemma hardDrop_speed g g' : hardDrop g = Some g' -> same_speed g g'.
Proof.
  unfold hardDrop. destruct (matrix (player g)); [|by intros [= <-]].
  destruct (gameOver g || paused g); [by intros [= <-]|].
  destruct (landing_drop _ _ _ _); [|done].
  destruct (mergeToArena _) as [h1|] eqn:H1; [|done].
  cbn [mbind option_bind].
  destruct (sweep h1) as [h2|] eqn:H2; [|done]. cbn [mbind option_bind].
  destruct (spawnPlayer h2) as [h3|] eqn:H3; [|done].
  cbn [mbind option_bind]. intros [= <-].
  exact (lock_speed _ _ _ _ H1 H2 H3).
Qed.

Lemma holdSwap_speed g g' : holdSwap g = Some g' -> same_speed g g'.
Proof.
  unfold holdSwap. destruct (matrix (player g)); [|by intros [= <-]].
  destruct (holdUsed g || gameOver g || paused g); [by intros [= <-]|].
  destruct (holdPiece g).
  - destruct (stamp _ _); [done|]. by intros [= <-].
  - destruct (kind_of_id _);
      (destruct (spawnPlayer _) as [h|] eqn:Hs; [|done]);
      cbn [mbind option_bind]; intros [= <-];
      by apply spawnPlayer_speed in Hs.
Qed.

Lemma update_speed time now g g' :
  update time now g = Some g' -> same_speed g g'.
Proof.
  unfold update. set (g0 := set_timing _ g).
  destruct (negb (paused g0) && negb (gameOver g0)); [|by intros [= <-]].
  unfold gravity_phase.
  destruct (gravity_loop _ _ _) as [g1|] eqn:Hg1; [|done].
  cbn [mbind option_bind]. intros H.
  apply gravity_loop_speed in Hg1.
  assert (same_speed g g1) as Hg by exact Hg1. clear Hg1.
  pose proof (das_phase_keeps now g1) as [Hd%same_piece_speed _].
  pose proof (same_speed_trans _ _ _ Hg Hd) as Hgd.
  unfold lock_phase in H.
  destruct (onGround (timing (das_phase now g1))).
  2:{ by injection H as <-. }
  match type of H with
  | (if ?b then _ else _) = _ => destruct b
  end.
  2:{ by injection H as <-. }
  unfold lock_piece in H.
  destruct (mergeToArena _) as [h1|] eqn:H1; [|done].
  cbn [mbind option_bind] in H.
  destruct (sweep h1) as [h2|] eqn:H2; [|done]. cbn [mbind option_bind] in H.
  destruct (spawnPlayer h2) as [h3|] eqn:H3; [|done].
  cbn [mbind option_bind] in H. injection H as <-.
  pose proof (lock_speed _ _ _ _ H1 H2 H3) as Hl.
  eapply same_speed_trans; [exact Hgd|]. exact Hl.
Qed.

Lemma step_speed e g g' :
  step e g = Some g' ->
  gravityCPS (timing g') = gravityCPS (timing g) /\
  (e <> KeyDownSoft -> e <> KeyUpSoft -> same_speed g g').
Proof.
  intros H.
  destruct e; cbn [step] in H; try (by injection H as <-);
    (assert (same_speed g g') as Hs; [|split; [apply Hs|done]]);
    try (by injection H as <-).
  - injection H as <-.
    by destruct (moveOnce_keeps (-1) (dasStart true now g))
      as [?%same_piece_speed _].
  - injection H as <-.
    by destruct (moveOnce_keeps 1 (dasStart false now g))
      as [?%same_piece_speed _].
  - injection H as <-. unfold rotatePlayer.
    destruct (matrix (player g)); [|done].
    by destruct (try_kicks _ _ _ _ _).
  - by apply hardDrop_speed.
  - by apply holdSwap_speed.
  - by apply resetGame_speed.
  - by eapply update_speed.
  - destruct (timeouts g); [by injection H as <-|].
    by apply resetGame_speed in H.
Qed.

Lemma run_speed es g g' :
  run es g = Some g' ->
  gravityCPS (timing g') = gravityCPS (timing g) /\
  (KeyDownSoft ∉ es -> KeyUpSoft ∉ es -> same_speed g g').
Proof.
  revert g. induction es as [|e es IH]; intros g; cbn [run].
  - by intros [= <-].
  - destruct (step e g) as [g1|] eqn:Hs; [|done]. cbn [mbind option_bind].
    intros Hrun. destruct (IH _ Hrun) as [IH1 IH2].
    destruct (step_speed _ _ _ Hs) as [Hs1 Hs2].
    split; [congruence|]. intros Hd Hu.
    apply not_elem_of_cons in Hd as [Hd Hd'], Hu as [Hu Hu'].
    eapply same_speed_trans; [apply Hs2; congruence|by apply IH2].
Qed.

(** X21.  No key press, frame, restart or timer callback that returns
    changes the gravity setting: in every state that a sequence of them
    reaches the setting is the one of the start, so that clearing rows
    and reaching a new level do not make the pieces fall faster.  As
    long as the soft-drop key is not touched the time a piece takes to
    fall by one cell stays the same. *)
Theorem run_keeps_gravity es g g' :
  run es g = Some g' ->
  gravityCPS (timing g') = gravityCPS (timing g) /\
  (KeyDownSoft ∉ es -> KeyUpSoft ∉ es ->
   msPerCell (timing g') = msPerCell (timing g)).
Proof.
  intros Hrun. destruct (run_speed _ _ _ Hrun) as [H1 H2].
  split; [done|]. intros Hd Hu. destruct (H2 Hd Hu) as [Hg Hsoft].
  unfold msPerCell. by rewrite Hg, Hsoft.
Qed.

Lemma run_keeps_gravity_witness :
  exists g',
    run [KeyHardDrop; Frame 16 16] gap_game = Some g' /\
    lines (stats g') = 1 /\
    msPerCell (timing g') = msPerCell (timing gap_game).
Proof.
  eexists. split; [by vm_compute|]. split; [reflexivity|].
  eapply (run_keeps_gravity [KeyHardDrop; Frame 16 16] gap_game).
  - by vm_compute.
  - rewrite !not_elem_of_cons. repeat (split; [done|]).
    apply not_elem_of_nil.
  - rewrite !not_elem_of_cons. repeat (split; [done|]).
    apply not_elem_of_nil.
Defined.

(** ** The order of the pieces *)

(** A spawn takes the head of the queue and leaves the rest. *)
Lemma spawnPlayer_head g type q :
  nextQueue (rand g) = type :: q ->
  exists g',
    spawnPlayer g = Some g' /\ id (player g') = PIECE_IDS type /\
    nextQueue (rand g') = q.
Proof.
  intros Hq. rewrite spawnPlayer_cases, Hq. cbv zeta.
  eexists. split; [done|]. by destruct (collide _ _ _ _).
Qed.

(** X22.  The pieces come out in the order in which they wait in the
    queue, none skipped and none repeated, and no kind is drawn to
    follow them: the spawns from a state hand out the kinds of its
    queue from the front, and the spawn that finds the queue empty ends
    in the TypeError. *)
Theorem spawn_order_fifo n g :
  spawn_ids n g = PIECE_IDS <$> take n (nextQueue (rand g)).
Proof.
  revert g. induction n as [|n IH]; intros g; [done|].
  cbn [spawn_ids]. destruct (nextQueue (rand g)) as [|type q] eqn:Hq.
  - by rewrite (spawnPlayer_empty_queue g Hq).
  - destruct (spawnPlayer_head g type q Hq) as (g' & -> & Hid & Hq').
    by rewrite IH, Hid, Hq'.
Qed.

(** Seven spawns from a queue of three kinds hand out the three; from
    the empty queue of the script, none. *)
Example spawn_order_short_queue :
  spawn_ids 7 (stocked_game [kT; kI; kI] empty_board 0) = [3; 1; 1] /\
  spawn_ids 7 (sample_game empty_board 0) = [].
Proof. by vm_compute. Qed.

(** ** The shuffle is fair *)

Lemma shuffle_loop_by rnd i :
  forall c b,
    (shuffle_loop rnd c b i).1 =
    shuffle_by ((fun t => random_below rnd (c + t) (i - t + 1)) <$> seq 0 i)
      b i.
Proof.
  induction i as [|i IH]; intros c b; [done|].
  cbn [shuffle_loop seq fmap list_fmap shuffle_by].
  rewrite IH, Nat.add_0_r, Nat.sub_0_r. f_equal.
  rewrite <- fmap_S_seq, <- list_fmap_compose.
  apply list_fmap_ext. intros _ t _. cbn. f_equal. lia.
Qed.

Lemma shuffleBag_by rnd c :
  (shuffleBag rnd c).1 = shuffle_by (shuffle_choices rnd c) all_kinds 6.
Proof. unfold shuffleBag. apply shuffle_loop_by. Qed.

Lemma shuffle_choices_in_ranges rnd c :
  in_ranges (shuffle_choices rnd c) = true.
Proof.
  unfold shuffle_choices. cbn [seq fmap list_fmap in_ranges Nat.sub Nat.add].
  rewrite !andb_true_iff. repeat split; apply Nat.leb_le;
    match goal with |- (random_below _ ?a ?n <= _)%nat =>
      pose proof (random_below_lt rnd a n ltac:(lia)); lia
    end.
Qed.

Lemma in_ranges_all js : in_ranges js = true -> js ∈ all_choices.
Proof.
  destruct js as [|j0 [|j1 [|j2 [|j3 [|j4 [|j5 [|]]]]]]]; try done.
  cbn [in_ranges]. rewrite !andb_true_iff, !Nat.leb_le.
  intros [[[[[H0 H1] H2] H3] H4] H5]. unfold all_choices.
  apply list_elem_of_bind. exists j0. split; [|apply elem_of_seq; lia].
  apply list_elem_of_bind. exists j1. split; [|apply elem_of_seq; lia].
  apply list_elem_of_bind. exists j2. split; [|apply elem_of_seq; lia].
  apply list_elem_of_bind. exists j3. split; [|apply elem_of_seq; lia].
  apply list_elem_of_bind. exists j4. split; [|apply elem_of_seq; lia].
  apply list_elem_of_bind. exists j5. split; [|apply elem_of_seq; lia].
  by left.
Qed.

(** The indices can be read back from the result of the shuffle. *)
Lemma unshuffle_shuffle_by js :
  in_ranges js = true ->
  unshuffle (shuffle_by js all_kinds 6) all_kinds 6 = js.
Proof.
  intros Hjs. apply in_ranges_all in Hjs.
  assert (forallb
            (fun js => bool_decide
               (unshuffle (shuffle_by js all_kinds 6) all_kinds 6 = js))
            all_choices = true) as Hall by (by vm_compute).
  rewrite List.forallb_forall in Hall.
  apply list_elem_of_In, Hall in Hjs. by apply bool_decide_eq_true in Hjs.
Qed.

(** Every order of the seven kinds is the result of some indices. *)
Lemma shuffle_by_unshuffle p :
  p ≡ₚ all_kinds ->
  in_ranges (unshuffle p all_kinds 6) = true /\
  shuffle_by (unshuffle p all_kinds 6) all_kinds 6 = p.
Proof.
  intros Hp. symmetry in Hp. apply permutations_Permutation in Hp.
  assert (forallb
            (fun p => in_ranges (unshuffle p all_kinds 6)
               && bool_decide
                    (shuffle_by (unshuffle p all_kinds 6) all_kinds 6 = p))
            (permutations all_kinds) = true) as Hall by (by vm_compute).
  rewrite List.forallb_forall in Hall.
  apply list_elem_of_In, Hall, andb_true_iff in Hp as [H1 H2].
  by apply bool_decide_eq_true in H2.
Qed.

Lemma to_unit01_val q :
  (0 <= q)%Q -> (q < 1)%Q -> u_val (to_unit01 q) = q.
Proof.
  intros H0 H1. unfold to_unit01.
  destruct (Sumbool.sumbool_of_bool _) as [H|H]; [done|].
  exfalso. apply andb_false_iff in H as [H|H].
  - apply Qle_bool_iff in H0. congruence.
  - apply negb_false_iff, Qle_bool_iff in H. lra.
Qed.

Lemma pick_below rnd k j n :
  (j < n)%nat -> rnd k = pick j n -> random_below rnd k n = j.
Proof.
  intros Hj Hk. unfold random_below. rewrite Hk. unfold pick.
  assert (Z.pos (Pos.of_nat (2 * n)) = 2 * Z.of_nat n) as Hden.
  { rewrite <- positive_nat_Z, Nat2Pos.id by lia. lia. }
  rewrite to_unit01_val.
  - unfold Qfloor, Qmult, inject_Z. cbn [Qnum Qden].
    rewrite Pos.mul_1_r, Hden.
    match goal with |- Z.to_nat (?a / ?b) = _ =>
      assert (a / b = Z.of_nat j) as ->; [|apply Nat2Z.id]
    end.
    symmetry. apply (Z.div_unique _ _ _ (Z.of_nat n)); [lia|ring].
  - unfold Qle. cbn [Qnum Qden]. lia.
  - unfold Qlt. cbn [Qnum Qden]. rewrite Hden. lia.
Qed.

Lemma shuffle_choices_random_for js c :
  in_ranges js = true -> shuffle_choices (random_for js c) c = js.
Proof.
  destruct js as [|j0 [|j1 [|j2 [|j3 [|j4 [|j5 [|]]]]]]]; try done.
  cbn [in_ranges]. rewrite !andb_true_iff, !Nat.leb_le.
  intros [[[[[H0 H1] H2] H3] H4] H5].
  unfold shuffle_choices. cbn [seq fmap list_fmap Nat.sub Nat.add].
  repeat f_equal;
    (apply pick_below; [lia|]; unfold random_for;
     match goal with |- context [(c + ?t - c)%nat] =>
       replace (c + t - c)%nat with t by lia
     end; reflexivity).
Qed.

(** X23.  The shuffle of a bag is fair in the sense that its result and
    its six random indices determine each other, and that every order of
    the seven kinds is the result of some indices: the 5040 possible
    index choices correspond one to one to the 5040 orders, so no order
    is favoured when the indices are uniform. *)
Theorem shuffleBag_bijection c :
  (forall p, p ≡ₚ all_kinds ->
     exists random, (shuffleBag random c).1 = p) /\
  (forall random1 random2 c',
     (shuffleBag random1 c).1 = (shuffleBag random2 c').1 <->
     shuffle_choices random1 c = shuffle_choices random2 c') /\
  (forall random, shuffle_choices random c ∈ all_choices) /\
  length all_choices = (7 * 6 * 5 * 4 * 3 * 2)%nat.
Proof.
  split; [|split; [|split]].
  - intros p Hp. destruct (shuffle_by_unshuffle p Hp) as [Hr Hs].
    exists (random_for (unshuffle p all_kinds 6) c).
    by rewrite shuffleBag_by, shuffle_choices_random_for.
  - intros r1 r2 c'. rewrite !shuffleBag_by. split; [|by intros ->].
    intros H. apply (f_equal (fun p => unshuffle p all_kinds 6)) in H.
    by rewrite !unshuffle_shuffle_by in H
      by apply shuffle_choices_in_ranges.
  - intros rnd. apply in_ranges_all, shuffle_choices_in_ranges.
  - by vm_compute.
Qed.

Lemma shuffleBag_bijection_witness :
  reverse all_kinds ≡ₚ all_kinds /\
  exists random, (shuffleBag random 0).1 = reverse all_kinds.
Proof.
  assert (reverse all_kinds ≡ₚ all_kinds) as Hp by apply reverse_Permutation.
  split; [exact Hp|].
  exact (proj1 (shuffleBag_bijection 0) (reverse all_kinds) Hp).
Defined.

(** The indices that leave the bag in the order [I L J O T S Z]. *)
Example shuffle_identity :
  unshuffle all_kinds all_kinds 6 = [6; 5; 4; 3; 2; 1]%nat /\
  (shuffleBag (random_for [6; 5; 4; 3; 2; 1]%nat 0) 0).1 = all_kinds.
Proof. split; by vm_compute. Qed.

(** ** The smaller variants *)

Lemma blocked_iff arena ay ax :
  wf_arena arena ->
  Legacy.blocked arena ay ax = true <-> hits arena ax ay \/ ay < 0.
Proof.
  intros Hwf. unfold Legacy.blocked, hits.
  destruct (Z.leb_spec 0 ay) as [Hy|Hy]; [|tauto].
  destruct (arena !! Z.to_nat ay) as [row|] eqn:Hrow.
  2:{ apply lookup_ge_None in Hrow. destruct Hwf as [Hlen _].
      rewrite Hlen in Hrow. unfold ROWS in *. split; [|done]. lia. }
  pose proof Hrow as Hlt. apply lookup_lt_Some in Hlt.
  pose proof Hwf as [Hlen Hrows]. rewrite Hlen in Hlt.
  pose proof (Forall_lookup_1 _ _ _ _ Hrows Hrow) as Hrl.
  destruct (Z.leb_spec 0 ax) as [Hx|Hx]; [|split; [lia|done]].
  destruct (row !! Z.to_nat ax) as [v|] eqn:Hv.
  2:{ apply lookup_ge_None in Hv. rewrite Hrl in Hv. unfold COLS in *.
      split; [lia|done]. }
  apply lookup_lt_Some in Hv as Hvl. rewrite Hrl in Hvl.
  assert (Js.cell arena ay ax = Some v) as Hcell.
  { unfold Js.cell, Js.at2. apply Z.leb_le in Hy, Hx.
    by rewrite Hy, Hx, Hrow. }
  rewrite negb_true_iff, Z.eqb_neq. unfold filled. rewrite Hcell.
  unfold ROWS, COLS in *. split.
  - intros Hnz. left. right. right. split; [done|]. by exists v.
  - intros [[H|[H|[_ (w & [= <-] & Hw)]]]|H]; lia.
Qed.

Lemma legacy_collide_spec arena ox oy m :
  Legacy.collide arena ox oy m = true <->
  exists y x, occupied m y x /\
    Legacy.blocked arena (Z.of_nat y + oy) (Z.of_nat x + ox) = true.
Proof.
  unfold Legacy.collide. rewrite List.existsb_exists. split.
  - intros ([y row] & Hin & Hrow).
    apply list_elem_of_In, elem_of_lookup_imap in Hin
      as (y' & row' & [= -> ->] & Hy).
    apply List.existsb_exists in Hrow as ([x v] & Hin & Hv).
    apply list_elem_of_In, elem_of_lookup_imap in Hin
      as (x' & v' & [= -> ->] & Hx).
    apply andb_true_iff in Hv as [Hnz Hb].
    exists y', x'. split; [|done]. exists v'. split.
    + unfold Js.at2. by rewrite Hy.
    + by apply Z.eqb_neq, negb_true_iff.
  - intros (y & x & (v & Hv & Hnz) & Hb). unfold Js.at2 in Hv.
    destruct (m !! y) as [row|] eqn:Hy; [|done].
    exists (y, row). split.
    { apply list_elem_of_In, elem_of_lookup_imap. by exists y, row. }
    apply List.existsb_exists. exists (x, v). split.
    { apply list_elem_of_In, elem_of_lookup_imap. by exists x, v. }
    apply andb_true_iff. split; [|done].
    by apply negb_true_iff, Z.eqb_neq.
Qed.

(** X24.  The collision test of the smaller variants is stricter than
    the one of the full script: it reports every collision the full one
    reports, and it agrees with it whenever no block of the shape lies
    above the board.  Only blocks above the top row make the
    difference. *)
Theorem legacy_collide_stricter arena x y m :
  wf_arena arena ->
  (collide arena x y m = true -> Legacy.collide arena x y m = true) /\
  ((forall r c, occupied m r c -> 0 <= Z.of_nat r + y) ->
   Legacy.collide arena x y m = collide arena x y m) /\
  ((exists r c, occupied m r c /\ Z.of_nat r + y < 0) ->
   Legacy.collide arena x y m = true).
Proof.
  intros Hwf.
  assert (collide arena x y m = true -> Legacy.collide arena x y m = true)
    as Hstrict.
  { intros (r & c & Ho & Hh)%collide_true_iff.
    apply legacy_collide_spec. exists r, c. split; [done|].
    apply blocked_iff; [done|]. by left. }
  split; [exact Hstrict|]. split.
  - intros Hin. destruct (collide arena x y m) eqn:Hc; [by apply Hstrict|].
    apply not_true_is_false. intros (r & c & Ho & Hb)%legacy_collide_spec.
    apply (blocked_iff _ _ _ Hwf) in Hb as [Hh|Hneg].
    + assert (collide arena x y m = true) as E; [|congruence].
      apply collide_true_iff. by exists r, c.
    + specialize (Hin r c Ho). lia.
  - intros (r & c & Ho & Hneg). apply legacy_collide_spec.
    exists r, c. split; [done|]. apply blocked_iff; [done|]. by right.
Qed.

Lemma legacy_collide_stricter_witness :
  wf_arena empty_board /\
  Legacy.collide empty_board 5 0 (createPiece kT)
  = collide empty_board 5 0 (createPiece kT).
Proof.
  split; [wf_by_computation|].
  apply (legacy_collide_stricter empty_board 5 0 (createPiece kT));
    [wf_by_computation|].
  intros r c _. lia.
Defined.

Lemma every_row_full row :
  length row = Z.to_nat COLS ->
  forallb (fun v => negb (v =? 0)) row = row_full row.
Proof.
  intros Hlen. apply eq_true_iff_eq.
  rewrite (row_full_iff row Hlen), List.forallb_forall, Forall_forall.
  split; intros H v Hv.
  - apply list_elem_of_In, H in Hv. by apply negb_true_iff, Z.eqb_neq in Hv.
  - apply list_elem_of_In, H in Hv. by apply negb_true_iff, Z.eqb_neq.
Qed.

Lemma wf_arena_delete arena i :
  wf_arena arena -> (i < length arena)%nat ->
  exists row0 rest,
    delete i arena = row0 :: rest /\ length row0 = Z.to_nat COLS /\
    wf_arena (empty_row :: delete i arena).
Proof.
  intros [Hlen Hrows] Hi.
  assert (length (delete i arena) = 19%nat) as Hdl.
  { rewrite length_delete by (by apply lookup_lt_is_Some_2).
    rewrite Hlen. reflexivity. }
  assert (Forall (fun row => length row = Z.to_nat COLS) (delete i arena))
    as Hdr by (by apply Forall_delete).
  destruct (delete i arena) as [|row0 rest] eqn:Hd; [done|].
  exists row0, rest. split; [done|]. split.
  - by apply Forall_inv in Hdr.
  - split; [cbn [length] in *; rewrite Hdl; reflexivity|].
    constructor; [reflexivity|done].
Qed.

Lemma arenaSweep_every_loop_sweep fuel :
  forall arena y c,
    wf_arena arena -> y < ROWS ->
    Legacy.arenaSweep_every_loop fuel arena y
    = fst <$> sweep_loop fuel arena y c.
Proof.
  induction fuel as [|fuel IH]; intros arena y c Hwf Hy; [done|].
  rewrite sweep_loop_S. cbn [Legacy.arenaSweep_every_loop].
  destruct (Z.geb_spec y 0) as [Hy0|Hy0]; [|done].
  destruct (wf_arena_lookup arena y Hwf ltac:(lia)) as (row & Hrow & Hlen).
  rewrite Hrow, (every_row_full row Hlen).
  destruct (row_full row).
  - destruct (wf_arena_delete arena (Z.to_nat y) Hwf)
      as (row0 & rest & Hd & Hl0 & Hwf').
    { by apply lookup_lt_Some in Hrow. }
    rewrite Hd in *. rewrite Hl0.
    change (replicate (Z.to_nat COLS) 0) with empty_row.
    apply IH; [done|lia].
  - apply IH; [done|lia].
Qed.

(** X25.  On a board of [ROWS] rows of [COLS] cells, [arenaSweep] of the
    variant that tests rows with [every] leaves the same board as the
    loop of [sweep] in the full script. *)
Theorem legacy_arenaSweep_sweep arena :
  wf_arena arena ->
  Legacy.arenaSweep_every arena = fst <$> sweep_rows arena /\
  Legacy.arenaSweep_every arena
  = Some (replicate (full_count arena) empty_row
            ++ List.filter not_full arena).
Proof.
  intros Hwf.
  assert (Legacy.arenaSweep_every arena = fst <$> sweep_rows arena) as H.
  { unfold Legacy.arenaSweep_every, sweep_rows.
    destruct Hwf as [Hlen Hrows]. rewrite Hlen.
    change (Z.of_nat (Z.to_nat ROWS) - 1) with (ROWS - 1).
    apply arenaSweep_every_loop_sweep; [done|lia]. }
  split; [exact H|]. by rewrite H, sweep_rows_eq.
Qed.

Lemma legacy_arenaSweep_sweep_witness :
  wf_arena two_full_board /\
  Legacy.arenaSweep_every two_full_board
  = Some ([empty_row; empty_row]
            ++ (marked_row <$> [0; 1; 3; 4]%nat)
            ++ (marked_row <$> seq 6 14)).
Proof.
  assert (wf_arena two_full_board) as Hwf by wf_by_computation.
  split; [exact Hwf|].
  rewrite (proj2 (legacy_arenaSweep_sweep two_full_board Hwf)).
  reflexivity.
Defined.
